(** * ai-check-recorder: the recording ledger and its export pipeline

    A shallow embedding of [src/main/recorder.ts] (class [Recorder]),
    [src/main/uploader.ts] (class [Uploader]),
    [src/main/google-drive-uploader.ts] (class [GoogleDriveUploader]) and of
    the auto-upload trigger of [src/main/index.ts], followed by the
    properties of the session ledger that the specification states.

    Conventions of the embedding.
    - A JavaScript [Date] is its epoch value in milliseconds, a [Z]; every
      [new Date()] of the source is an explicit clock reading handed to the
      operation that makes it.
    - JavaScript numbers that the code only adds and floors are [Z] (the
      sums stay far below 2^53, where doubles are exact).
    - [Record<string, number>] is a [gmap string Z]; array objects live in
      a store and are named by a location, because [exportData] hands out
      the recorder's own array.
    - [console.log] / [console.error] append a line to the console of the
      world; the file system is a finite map from paths to contents. It
      holds the files under the recorder's data directory; the temporary
      archive of an upload lives in [os.tmpdir()] and is not among them.
    - Strings are the bytes of their UTF-8 encoding.
    - [String.prototype.toLowerCase] is not computed: the code is embedded
      over any lower-casing ([Js.Lowercase]), and the concrete sessions of
      the examples use ASCII names.
    - An application name used as a key of [appUsage] is faithful to the
      plain object [{}] of the source when it is not a property name of
      [Object.prototype] ([Js.plainKey]); the statements about usage totals
      say so. *)

From Stdlib Require Import ZArith Lia Ascii String DecimalString.
From stdpp Require Import gmap strings list fin_maps.

Local Open Scope string_scope.
Local Open Scope list_scope.
Local Open Scope Z_scope.

(** ** JavaScript and Node string helpers *)

Module Js.

(** [String.prototype.toLowerCase]. The Unicode case mapping is not
    computed here: the methods that call it are embedded over any
    lower-casing, of which the one fact used is that the empty string
    stays empty. *)
Class Lowercase := {
  toLowerCase : string -> string;
  toLowerCase_empty : toLowerCase "" = "";
}.

(** On ASCII text [toLowerCase] folds the letters A to Z and changes
    nothing else; this is the lower-casing of the examples, whose names
    are ASCII. *)
Definition lower_ascii (c : ascii) : ascii :=
  let n := nat_of_ascii c in
  if (Nat.leb 65 n && Nat.leb n 90)%bool then ascii_of_nat (n + 32) else c.

Fixpoint asciiLowerCase (s : string) : string :=
  match s with
  | EmptyString => EmptyString
  | String c s' => String (lower_ascii c) (asciiLowerCase s')
  end.

(** The property names of [Object.prototype] (ECMAScript, 20.1.3 and
    B.2.2): on a plain object [{}] a read under one of them finds the
    inherited member, not [undefined]. *)
Definition objectPrototypeNames : list string :=
  ["constructor"; "__defineGetter__"; "__defineSetter__"; "hasOwnProperty";
   "__lookupGetter__"; "__lookupSetter__"; "isPrototypeOf";
   "propertyIsEnumerable"; "toString"; "valueOf"; "__proto__";
   "toLocaleString"].

(** A key under which a plain object holds own properties only. *)
Definition plainKey (k : string) : bool :=
  negb (existsb (String.eqb k) objectPrototypeNames).

(** [String.prototype.trim]: the white space and line terminators of
    ECMAScript (12.2 and 12.3), in UTF-8, are removed from both ends. *)
Definition whiteSpace : list string :=
  [String "009" ""; String "010" ""; String "011" ""; String "012" "";
   String "013" ""; String "032" "";
   String "194" (String "160" "");                   (* U+00A0 *)
   String "225" (String "154" (String "128" ""));    (* U+1680 *)
   String "226" (String "128" (String "128" ""));    (* U+2000 *)
   String "226" (String "128" (String "129" ""));
   String "226" (String "128" (String "130" ""));
   String "226" (String "128" (String "131" ""));
   String "226" (String "128" (String "132" ""));
   String "226" (String "128" (String "133" ""));
   String "226" (String "128" (String "134" ""));
   String "226" (String "128" (String "135" ""));
   String "226" (String "128" (String "136" ""));
   String "226" (String "128" (String "137" ""));
   String "226" (String "128" (String "138" ""));    (* U+200A *)
   String "226" (String "128" (String "168" ""));    (* U+2028 *)
   String "226" (String "128" (String "169" ""));    (* U+2029 *)
   String "226" (String "128" (String "175" ""));    (* U+202F *)
   String "226" (String "129" (String "159" ""));    (* U+205F *)
   String "227" (String "128" (String "128" ""));    (* U+3000 *)
   String "239" (String "187" (String "191" ""))].   (* U+FEFF *)

(** [s] without its prefix [p], when it has that prefix. *)
Fixpoint stripPrefix (p s : string) : option string :=
  match p, s with
  | EmptyString, _ => Some s
  | String a p', String b s' => if Ascii.eqb a b then stripPrefix p' s' else None
  | String _ _, EmptyString => None
  end.

Fixpoint stripAny (tokens : list string) (s : string) : option string :=
  match tokens with
  | [] => None
  | t :: rest =>
      match stripPrefix t s with
      | Some s' => Some s'
      | None => stripAny rest s
      end
  end.

(** Strip tokens from the front, at most [fuel] times. *)
Fixpoint stripLeading (tokens : list string) (fuel : nat) (s : string) : string :=
  match fuel with
  | O => s
  | S n =>
      match stripAny tokens s with
      | Some s' => stripLeading tokens n s'
      | None => s
      end
  end.

Definition reverse (s : string) : string :=
  string_of_list_ascii (List.rev (list_ascii_of_string s)).

Definition trimStart (s : string) : string :=
  stripLeading whiteSpace (String.length s) s.

Definition trimEnd (s : string) : string :=
  reverse (stripLeading (reverse <$> whiteSpace) (String.length s) (reverse s)).

Definition trim (s : string) : string := trimEnd (trimStart s).

(** [String.prototype.includes]: [sub] occurs in [s] as a substring. *)
Fixpoint includes (s sub : string) : bool :=
  if String.prefix sub s then true
  else match s with
       | EmptyString => false
       | String _ s' => includes s' sub
       end.

(** [Array.prototype.some]. *)
Definition some {A} (p : A -> bool) (l : list A) : bool := existsb p l.

(** [s.replace(/[:.]/g, '-')]. *)
Fixpoint replace_colon_dot (s : string) : string :=
  match s with
  | EmptyString => EmptyString
  | String c s' =>
      String (if (Ascii.eqb c ":" || Ascii.eqb c ".")%bool then "-"%char else c)
             (replace_colon_dot s')
  end.

(** [s.replace(/:/g, '-')]. *)
Fixpoint replace_colon (s : string) : string :=
  match s with
  | EmptyString => EmptyString
  | String c s' =>
      String (if Ascii.eqb c ":" then "-"%char else c) (replace_colon s')
  end.

(** [s.split(sep)[0]]: what comes before the first [sep]. *)
Fixpoint beforeFirst (sep : ascii) (s : string) : string :=
  match s with
  | EmptyString => EmptyString
  | String c s' => if Ascii.eqb c sep then EmptyString
                   else String c (beforeFirst sep s')
  end.

(** [path.basename] (POSIX): the last non-empty [/]-separated segment,
    trailing separators ignored; the empty string when there is none. *)
Fixpoint basename_from (s cur last : string) : string :=
  match s with
  | EmptyString => if decide (cur = "") then last else cur
  | String c s' =>
      if Ascii.eqb c "/"
      then basename_from s' "" (if decide (cur = "") then last else cur)
      else basename_from s' (cur +:+ String c "") last
  end.

Definition basename (p : string) : string := basename_from p "" "".

(** [path.join(a, b, c)] for segments that are already normalised and
    relative after the first (the only use the recorder makes of it). *)
Definition join3 (a b c : string) : string := a +:+ "/" +:+ b +:+ "/" +:+ c.

(** Decimal digits, zero padded to [w] places. *)
Definition digit (d : Z) : ascii := ascii_of_nat (48 + Z.to_nat (d mod 10)).

Fixpoint pad (w : nat) (n : Z) : string :=
  match w with
  | O => ""
  | S w' => pad w' (n / 10) +:+ String (digit n) ""
  end.

(** [String(n)] for an integer [n]. *)
Definition numberToString (n : Z) : string :=
  NilZero.string_of_int (Z.to_int n).

(** [Date.prototype.toISOString] of the date whose epoch value is [ms]:
    the proleptic Gregorian calendar date in UTC, [YYYY-MM-DDTHH:mm:ss.sssZ],
    with the signed six-digit year outside years 0 to 9999. *)
Definition civil_from_days (days : Z) : Z * Z * Z :=
  let z := days + 719468 in
  let era := z / 146097 in
  let doe := z - era * 146097 in
  let yoe := (doe - doe / 1460 + doe / 36524 - doe / 146096) / 365 in
  let doy := doe - (365 * yoe + yoe / 4 - yoe / 100) in
  let mp := (5 * doy + 2) / 153 in
  let d := doy - (153 * mp + 2) / 5 + 1 in
  let m := if mp <? 10 then mp + 3 else mp - 9 in
  let y := yoe + era * 400 + (if m <=? 2 then 1 else 0) in
  (y, m, d).

Definition year_string (y : Z) : string :=
  if (0 <=? y) && (y <=? 9999) then pad 4 y
  else (if 0 <=? y then "+" else "-") +:+ pad 6 (Z.abs y).

Definition toISOString (ms : Z) : string :=
  let days := ms / 86400000 in
  let rest := ms mod 86400000 in
  let '(y, m, d) := civil_from_days days in
  year_string y +:+ "-" +:+ pad 2 m +:+ "-" +:+ pad 2 d +:+ "T" +:+
  pad 2 (rest / 3600000) +:+ ":" +:+ pad 2 (rest / 60000 mod 60) +:+ ":" +:+
  pad 2 (rest / 1000 mod 60) +:+ "." +:+ pad 3 (rest mod 1000) +:+ "Z".

End Js.

(** ** Data model of recorder.ts *)

(** [interface ScreenshotRecord]. *)
Record ScreenshotRecord := {
  id : string;
  timestamp : string;
  appName : string;
  windowTitle : string;
  filePath : string;
  thumbnailPath : string;
  durationSeconds : Z;
}.

(** [interface RecordingStats]; [endTime] is [string | null]. *)
Module RecordingStats.
Record t := {
  startTime : string;
  endTime : option string;
  totalScreenshots : nat;
  totalActiveSeconds : Z;
  appSummary : gmap string Z;
}.
End RecordingStats.

(** The object [exportData()] returns; [screenshots] is a reference to an
    array object (see [World] below), not a list of its own. *)
Module ExportData.
Record t := {
  stats : RecordingStats.t;
  screenshots : nat;
  dataDir : string;
}.
End ExportData.

(** [interface RecorderOptions] as the constructor stores it: [excludedApps]
    has been defaulted. *)
Record RecorderOptions := {
  intervalMs : Z;
  dataDir : string;
  excludedApps : list string;
}.

(** The type of [lastWindowInfo] when it is not [null]. *)
Record WindowInfo := {
  app : string;
  title : string;
  since : Z;
}.

(** The sentinel identity. *)
Definition Unknown : string := "Unknown".

(** *** The world outside the recorder object

    [arrays] is the part of the JavaScript heap that holds the screenshot
    arrays, [files] the files under the recorder's data directory (the
    temporary archive of an upload lies outside it, under [os.tmpdir()],
    and is followed by the upload's environment), [console] what was
    logged, [timers]
    the pending [setTimeout] handles and [fresh] the next unused handle
    (array locations and timer handles are drawn from it). *)
Definition loc := nat.

Record World := {
  arrays : gmap loc (list ScreenshotRecord);
  files : gmap string string;
  console : list string;
  timers : gset nat;
  fresh : nat;
}.

Definition emptyWorld : World :=
  {| arrays := ∅; files := ∅; console := []; timers := ∅; fresh := 0%nat |}.

Definition log (line : string) (w : World) : World :=
  {| arrays := arrays w; files := files w; console := console w ++ [line];
     timers := timers w; fresh := fresh w |}.

Definition set_arrays (a : gmap loc (list ScreenshotRecord)) (w : World) : World :=
  {| arrays := a; files := files w; console := console w;
     timers := timers w; fresh := fresh w |}.

Definition set_files (f : gmap string string) (w : World) : World :=
  {| arrays := arrays w; files := f; console := console w;
     timers := timers w; fresh := fresh w |}.

Definition set_timers (t : gset nat) (w : World) : World :=
  {| arrays := arrays w; files := files w; console := console w;
     timers := t; fresh := fresh w |}.

(** A new array object holding [l]: its location and the extended heap. *)
Definition newArray (l : list ScreenshotRecord) (w : World) : loc * World :=
  (fresh w,
   {| arrays := <[fresh w := l]> (arrays w); files := files w;
      console := console w; timers := timers w; fresh := S (fresh w) |}).

(** [setTimeout]: a new pending handle. *)
Definition setTimeout (w : World) : nat * World :=
  (fresh w,
   {| arrays := arrays w; files := files w; console := console w;
      timers := {[fresh w]} ∪ timers w; fresh := S (fresh w) |}).

Definition clearTimeout (h : nat) (w : World) : World :=
  set_timers (timers w ∖ {[h]}) w.

(** The contents of the array at [l] (a dangling location reads as empty). *)
Definition readArray (l : loc) (w : World) : list ScreenshotRecord :=
  default [] (arrays w !! l).

(** [array.push(x)] on the array object at [l]. *)
Definition push (l : loc) (x : ScreenshotRecord) (w : World) : World :=
  set_arrays (alter (λ xs, xs ++ [x]) l (arrays w)) w.

(** [fs.writeFileSync(path, data)]. *)
Definition writeFileSync (path data : string) (w : World) : World :=
  set_files (<[path := data]> (files w)) w.

(** [if (fs.existsSync(path)) fs.unlinkSync(path)]. *)
Definition unlinkIfExists (path : string) (w : World) : World :=
  set_files (delete path (files w)) w.

(** ** What one capture cycle reads from its environment *)

(** The outcome of [await activeWinFn()]. *)
Inductive ActiveWin :=
  | WinFound (owner_name title : string)
  | WinUndefined
  | WinThrows.

(** The outcome of the screenshot and of the two file writes that follow
    it, all inside the [try] of [capture]. *)
Inductive CaptureIO :=
  | ShotRejects (err : string)
  | WriteFullThrows (img err : string)
  | WriteThumbThrows (img err : string)
  | Captured (img : string).

Record CaptureEnv := {
  activeWin : ActiveWin;
  t_flush : Z;   (* [new Date()] inside updateWindowDuration *)
  t_since : Z;   (* [new Date()] stored as [since] *)
  t_stamp : Z;   (* [const timestamp = new Date()] *)
  uuid : string; (* [crypto.randomUUID()] *)
  io : CaptureIO;
}.

(** ** class Recorder *)

Module Recorder.

Record t := {
  options : RecorderOptions;
  timer : option nat;
  recording : bool;
  paused : bool;
  screenshots : loc;
  startTime : option Z;
  lastWindowInfo : option WindowInfo;
  appUsage : gmap string Z;
}.

Definition set_timer (x : option nat) (r : t) : t :=
  {| options := options r; timer := x; recording := recording r;
     paused := paused r; screenshots := screenshots r; startTime := startTime r;
     lastWindowInfo := lastWindowInfo r; appUsage := appUsage r |}.

Definition set_recording (x : bool) (r : t) : t :=
  {| options := options r; timer := timer r; recording := x;
     paused := paused r; screenshots := screenshots r; startTime := startTime r;
     lastWindowInfo := lastWindowInfo r; appUsage := appUsage r |}.

Definition set_paused (x : bool) (r : t) : t :=
  {| options := options r; timer := timer r; recording := recording r;
     paused := x; screenshots := screenshots r; startTime := startTime r;
     lastWindowInfo := lastWindowInfo r; appUsage := appUsage r |}.

Definition set_screenshots (x : loc) (r : t) : t :=
  {| options := options r; timer := timer r; recording := recording r;
     paused := paused r; screenshots := x; startTime := startTime r;
     lastWindowInfo := lastWindowInfo r; appUsage := appUsage r |}.

Definition set_startTime (x : option Z) (r : t) : t :=
  {| options := options r; timer := timer r; recording := recording r;
     paused := paused r; screenshots := screenshots r; startTime := x;
     lastWindowInfo := lastWindowInfo r; appUsage := appUsage r |}.

Definition set_lastWindowInfo (x : option WindowInfo) (r : t) : t :=
  {| options := options r; timer := timer r; recording := recording r;
     paused := paused r; screenshots := screenshots r; startTime := startTime r;
     lastWindowInfo := x; appUsage := appUsage r |}.

Definition set_appUsage (x : gmap string Z) (r : t) : t :=
  {| options := options r; timer := timer r; recording := recording r;
     paused := paused r; screenshots := screenshots r; startTime := startTime r;
     lastWindowInfo := lastWindowInfo r; appUsage := x |}.

(** [private defaultExcludedApps]. *)
Definition defaultExcludedApps : list string :=
  ["LINE"; "Slack"; "Discord"; "メッセージ"; "Messages"; "FaceTime"; "Zoom";
   "Microsoft Teams"].

(** [constructor(options)]: the field initialisers and the defaulting of
    [excludedApps] ([options.excludedApps || this.defaultExcludedApps]; an
    array, even an empty one, is truthy). The three directories it creates
    are taken to exist from then on. *)
Definition new (intervalMs : Z) (dataDir : string)
    (excludedApps : option (list string)) (w : World) : t * World :=
  let '(l, w1) := newArray [] w in
  ({| options := {| intervalMs := intervalMs; dataDir := dataDir;
                    excludedApps := default defaultExcludedApps excludedApps |};
      timer := None; recording := false; paused := false; screenshots := l;
      startTime := None; lastWindowInfo := None; appUsage := ∅ |}, w1).

(** [private scheduleCapture()]: arm the next cycle, unless stopped. *)
Definition scheduleCapture (r : t) (w : World) : t * World :=
  if recording r then
    let '(h, w1) := setTimeout w in (set_timer (Some h) r, w1)
  else (r, w).

(** [async start()], the two dynamic imports having succeeded. *)
Definition start (now : Z) (r : t) (w : World) : t * World :=
  let '(l, w1) := newArray [] w in
  let r1 := set_appUsage ∅ (set_screenshots l (set_startTime (Some now)
              (set_paused false (set_recording true r)))) in
  scheduleCapture r1 (log "Recording started" w1).

(** [private updateWindowDuration()]: [now] is its [new Date()].
    [Math.floor(x / 1000)] is [Z.div]; [(usage[app] || 0)] is the stored
    number, or 0 when the key is absent. This is what the plain object
    of the source does for an application name [k] with [Js.plainKey k];
    under a property name of [Object.prototype] the source reads the
    inherited member and the total becomes a string, which this map does
    not follow. *)
Definition updateWindowDuration (now : Z) (r : t) : t :=
  match lastWindowInfo r with
  | None => r
  | Some win =>
      let durationSeconds := (now - since win) / 1000 in
      set_appUsage
        (<[app win := default 0 (appUsage r !! app win) + durationSeconds]>
           (appUsage r)) r
  end.

(** [stop()]. *)
Definition stop (now : Z) (r : t) (w : World) : t * World :=
  let r1 := set_recording false r in
  let '(r2, w2) :=
    match timer r1 with
    | Some h => (set_timer None r1, clearTimeout h w)
    | None => (r1, w)
    end in
  (updateWindowDuration now r2, log "Recording stopped" w2).

(** [pause()]. *)
Definition pause (now : Z) (r : t) (w : World) : t * World :=
  (updateWindowDuration now (set_paused true r), log "Recording paused" w).

(** [resume()]. *)
Definition resume (r : t) (w : World) : t * World :=
  (set_lastWindowInfo None (set_paused false r), log "Recording resumed" w).

(** [isRecording()]. *)
Definition isRecording (r : t) : bool := recording r && negb (paused r).

Section Cycle.
Context {lowercase : Js.Lowercase}.

(** [private isExcludedApp(appName)]. *)
Definition isExcludedApp (r : t) (appName : string) : bool :=
  Js.some (λ excluded,
            Js.includes (Js.toLowerCase appName) (Js.toLowerCase excluded))
          (excludedApps (options r)).

(** [const USE_ACTIVE_WIN = false], the constant local to [capture]: the
    window inspection is switched off in the source as it stands ("can be
    enabled where the permission is granted", says its comment). *)
Definition USE_ACTIVE_WIN : bool := false.

(** The first part of [capture]: the identity it works with. With the
    inspection off it is the sentinel and the empty title; with it on, a
    rejected inspection is logged and leaves the sentinel. *)
Definition resolveWindow (use_active_win : bool) (env : CaptureEnv) (w : World)
  : string * string * World :=
  if use_active_win then
    match activeWin env with
    | WinFound owner_name title => (owner_name, title, w)
    | WinUndefined => (Unknown, "", w)
    | WinThrows =>
        (Unknown, "",
         log "Active window info unavailable (permission required)" w)
    end
  else (Unknown, "", w).

(** The name of the image file: the ISO timestamp with [:] and [.]
    replaced by [-], then [.jpg]. *)
Definition filenameOf (stamp : Z) : string :=
  Js.replace_colon_dot (Js.toISOString stamp) +:+ ".jpg".

Definition recordOf (appName windowTitle : string) (env : CaptureEnv) (r : t)
  : ScreenshotRecord :=
  {| id := uuid env;
     timestamp := Js.toISOString (t_stamp env);
     appName := appName;
     windowTitle := windowTitle;
     filePath := Js.join3 (dataDir (options r)) "screenshots"
                   (filenameOf (t_stamp env));
     thumbnailPath := Js.join3 (dataDir (options r)) "thumbnails"
                        (filenameOf (t_stamp env));
     durationSeconds := 0 |}.

(** The rest of [capture], from the exclusion check on, for the identity
    [appName], [windowTitle] that was resolved. Everything is inside one
    [try]; whatever throws is logged and ends the cycle, with the
    mutations made so far kept. *)
Definition captureResolved (appName windowTitle : string) (env : CaptureEnv)
    (r : t) (w : World) : t * World :=
  if bool_decide (appName ≠ Unknown) && isExcludedApp r appName then
    (r, log ("Excluded app: " +:+ appName) w)
  else
    let r1 :=
      if bool_decide (appName ≠ Unknown) then
        set_lastWindowInfo
          (Some {| app := appName; title := windowTitle; since := t_since env |})
          (updateWindowDuration (t_flush env) r)
      else r in
    let record := recordOf appName windowTitle env r1 in
    match io env with
    | ShotRejects err => (r1, log ("Capture error: " +:+ err) w)
    | WriteFullThrows img err => (r1, log ("Capture error: " +:+ err) w)
    | WriteThumbThrows img err =>
        (r1, log ("Capture error: " +:+ err)
               (writeFileSync (filePath record) img w))
    | Captured img =>
        (r1, log ("Captured: " +:+ appName +:+ " - " +:+ windowTitle)
               (push (screenshots r1) record
                  (writeFileSync (thumbnailPath record) img
                     (writeFileSync (filePath record) img w))))
    end.

(** [capture] with the inspection switch as a parameter, and [capture] as
    the source has it. *)
Definition captureUsing (use_active_win : bool) (env : CaptureEnv)
    (r : t) (w : World) : t * World :=
  let '(appName, windowTitle, w1) := resolveWindow use_active_win env w in
  captureResolved appName windowTitle env r w1.

Definition capture : CaptureEnv -> t -> World -> t * World :=
  captureUsing USE_ACTIVE_WIN.

(** The callback that [scheduleCapture] hands to [setTimeout], run when
    the pending handle [h] fires: capture unless paused, then re-arm. A
    handle that is not pending (it was cleared by [stop]) never fires. *)
Definition tickUsing (use_active_win : bool) (h : nat) (env : CaptureEnv)
    (r : t) (w : World) : t * World :=
  if bool_decide (h ∈ timers w) then
    let w0 := clearTimeout h w in
    let '(r1, w1) :=
      if paused r then (r, w0) else captureUsing use_active_win env r w0 in
    scheduleCapture r1 w1
  else (r, w).

Definition tick : nat -> CaptureEnv -> t -> World -> t * World :=
  tickUsing USE_ACTIVE_WIN.

End Cycle.

(** [Object.values(usage).reduce((a, b) => a + b, 0)]. *)
Definition sumValues (usage : gmap string Z) : Z :=
  map_fold (λ _ v acc, acc + v) 0 usage.

(** The seconds one flush adds: the whole time since the anchor. *)
Definition openSeconds (now : Z) (r : t) : Z :=
  match lastWindowInfo r with
  | None => 0
  | Some win => (now - since win) / 1000
  end.

(** No window open and nothing accounted. *)
Definition idle (r : t) : Prop := lastWindowInfo r = None /\ appUsage r = ∅.

(** [getStats()]: [t_flush] is the clock reading of the flush, [t_end] the
    one of [new Date().toISOString()] (made only when not recording). *)
Definition getStats (t_flush t_end : Z) (r : t) (w : World)
  : RecordingStats.t * t :=
  let r1 := updateWindowDuration t_flush r in
  ({| RecordingStats.startTime :=
        match startTime r1 with Some d => Js.toISOString d | None => "" end;
      RecordingStats.endTime :=
        if recording r1 then None else Some (Js.toISOString t_end);
      RecordingStats.totalScreenshots :=
        length (readArray (screenshots r1) w);
      RecordingStats.totalActiveSeconds := sumValues (appUsage r1);
      RecordingStats.appSummary := appUsage r1 |}, r1).

(** The redacted copy that [getScreenshots] makes of one record. *)
Definition redact (s : ScreenshotRecord) : ScreenshotRecord :=
  {| id := id s; timestamp := timestamp s; appName := appName s;
     windowTitle := windowTitle s;
     filePath := Js.basename (filePath s);
     thumbnailPath := Js.basename (thumbnailPath s);
     durationSeconds := durationSeconds s |}.

(** [getScreenshots()]: [map] builds a new array object. *)
Definition getScreenshots (r : t) (w : World) : loc * World :=
  newArray (redact <$> readArray (screenshots r) w) w.

(** [deleteScreenshot(id)]; the two unlinks are best effort. *)
Definition deleteScreenshot (i : string) (r : t) (w : World) : bool * World :=
  match list_find (λ s, id s = i) (readArray (screenshots r) w) with
  | None => (false, w)
  | Some (index, record) =>
      let w1 := unlinkIfExists (thumbnailPath record)
                  (unlinkIfExists (filePath record) w) in
      (true, set_arrays (alter (delete index) (screenshots r) (arrays w1)) w1)
  end.

(** [exportData()]: the array is handed out as it is, by reference. *)
Definition exportData (t_flush t_end : Z) (r : t) (w : World)
  : ExportData.t * t :=
  let '(st, r1) := getStats t_flush t_end r w in
  ({| ExportData.stats := st; ExportData.screenshots := screenshots r1;
      ExportData.dataDir := dataDir (options r1) |}, r1).

End Recorder.

(** ** Runs of one recorder

    What can happen to a recorder object: the public methods, and the timer
    callback of its scheduler. [runUsing] folds a list of such events over a
    recorder and its world; the [bool] is the inspection switch of
    [capture]. *)
Inductive Event :=
  | Start (now : Z)
  | Stop (now : Z)
  | Pause (now : Z)
  | Resume
  | Tick (h : nat) (env : CaptureEnv)
  | GetStats (t_flush t_end : Z)
  | GetScreenshots
  | DeleteScreenshot (i : string)
  | ExportData (t_flush t_end : Z).

Section Runs.
Context {lowercase : Js.Lowercase}.

Definition stepUsing (use_active_win : bool) (s : Recorder.t * World) (e : Event)
  : Recorder.t * World :=
  let '(r, w) := s in
  match e with
  | Start now => Recorder.start now r w
  | Stop now => Recorder.stop now r w
  | Pause now => Recorder.pause now r w
  | Resume => Recorder.resume r w
  | Tick h env => Recorder.tickUsing use_active_win h env r w
  | GetStats tf te => ((Recorder.getStats tf te r w).2, w)
  | GetScreenshots => (r, (Recorder.getScreenshots r w).2)
  | DeleteScreenshot i => (r, (Recorder.deleteScreenshot i r w).2)
  | ExportData tf te => ((Recorder.exportData tf te r w).2, w)
  end.

Definition runUsing (use_active_win : bool) (es : list Event)
    (s : Recorder.t * World) : Recorder.t * World :=
  foldl (stepUsing use_active_win) s es.

(** The runs of the program as it stands. *)
Definition run : list Event -> Recorder.t * World -> Recorder.t * World :=
  runUsing Recorder.USE_ACTIVE_WIN.

End Runs.

(** ** Runs with captures in flight

    [capture] awaits the screenshot: between the moment a timer callback
    starts a cycle and the moment the cycle writes its files and pushes
    its record, other code runs. [Fire] is the first part of the callback:
    the pending handle fires; a paused recorder re-arms at once, otherwise
    a cycle starts, reads its clock and its identifier and waits for the
    screenshot. With the window inspection off, as the source stands, this
    first part of [capture] changes nothing. [Land] is the second part:
    the screenshot of a cycle in flight settles, the rest of [capture]
    runs on the recorder as it is by then, and [scheduleCapture] follows.
    [Call] is any event of [run]; its [Tick] is a callback that nothing
    interrupted. *)
Inductive Step :=
  | Call (e : Event)
  | Fire (h : nat) (env : CaptureEnv)
  | Land (i : nat).

(** The recorder, the world and the cycles in flight. *)
Definition InFlight : Type := Recorder.t * World * list CaptureEnv.

Section Flights.
Context {lowercase : Js.Lowercase}.

Definition fire (h : nat) (env : CaptureEnv) (s : InFlight) : InFlight :=
  let '(r, w, flying) := s in
  if bool_decide (h ∈ timers w) then
    let w0 := clearTimeout h w in
    if Recorder.paused r then (Recorder.scheduleCapture r w0, flying)
    else (r, w0, flying ++ [env])
  else s.

Definition land (i : nat) (s : InFlight) : InFlight :=
  let '(r, w, flying) := s in
  match flying !! i with
  | Some env =>
      let '(r1, w1) := Recorder.capture env r w in
      (Recorder.scheduleCapture r1 w1, delete i flying)
  | None => s
  end.

Definition stepFlying (s : InFlight) (x : Step) : InFlight :=
  match x with
  | Call e => (stepUsing Recorder.USE_ACTIVE_WIN s.1 e, s.2)
  | Fire h env => fire h env s
  | Land i => land i s
  end.

Definition runFlying (xs : list Step) (s : InFlight) : InFlight :=
  foldl stepFlying s xs.

End Flights.

(** A step that is a timer callback or the rest of one, not a method
    call. *)
Definition isCallback (x : Step) : bool :=
  match x with
  | Call (Tick _ _) | Fire _ _ | Land _ => true
  | Call _ => false
  end.

(** The ledger operations proper, with the identity a capture cycle
    resolved made explicit. *)
Inductive LedgerOp :=
  | OpCapture (appName windowTitle : string) (env : CaptureEnv)
  | OpPause (now : Z)
  | OpResume
  | OpStop (now : Z)
  | OpGetStats (t_flush t_end : Z).

Section Ledger.
Context {lowercase : Js.Lowercase}.

Definition applyOp (s : Recorder.t * World) (o : LedgerOp) : Recorder.t * World :=
  let '(r, w) := s in
  match o with
  | OpCapture a ti env => Recorder.captureResolved a ti env r w
  | OpPause now => Recorder.pause now r w
  | OpResume => Recorder.resume r w
  | OpStop now => Recorder.stop now r w
  | OpGetStats tf te => ((Recorder.getStats tf te r w).2, w)
  end.

Definition applyOps (os : list LedgerOp) (s : Recorder.t * World)
  : Recorder.t * World :=
  foldl applyOp s os.

End Ledger.

(** A capture cycle that resolved an application (not the sentinel). *)
Definition attributed (o : LedgerOp) : bool :=
  match o with
  | OpCapture a _ _ => bool_decide (a ≠ Unknown)
  | _ => true
  end.

(** ** Asynchronous code that may throw

    An [async] function is a computation over a state [S] that either
    returns or throws; a thrown value is kept as what [String(error)]
    gives for it. *)

Inductive Outcome (A : Type) :=
  | Returns (a : A)
  | Throws (err : string).
Arguments Returns {A} a.
Arguments Throws {A} err.

Module Async.
Section Async.
Context {S : Type}.

Definition M (A : Type) : Type := S -> Outcome A * S.

Definition ret {A} (a : A) : M A := λ s, (Returns a, s).

Definition throw {A} (err : string) : M A := λ s, (Throws err, s).

Definition bind {A B} (m : M A) (k : A -> M B) : M B :=
  λ s, match m s with
       | (Returns a, s') => k a s'
       | (Throws err, s') => (Throws err, s')
       end.

(** [try { m } catch (error) { handler(error) }]. *)
Definition try {A} (m : M A) (handler : string -> M A) : M A :=
  λ s, match m s with
       | (Returns a, s') => (Returns a, s')
       | (Throws err, s') => handler err s'
       end.

Definition get : M S := λ s, (Returns s, s).

Definition modify (f : S -> S) : M unit := λ s, (Returns tt, f s).

(** A value the environment supplies, or the exception it raises. *)
Definition await {A} (o : Outcome A) : M A := λ s, (o, s).

(** The computation [m] takes every state to one related to it by [R]. *)
Definition keeps {A} (R : relation S) (m : M A) : Prop :=
  forall s, R s (m s).2.
End Async.
End Async.

Declare Scope async_scope.
Delimit Scope async_scope with async.
Notation "x <- m ;; k" := (Async.bind m (λ x, k))
  (at level 100, m at next level, right associativity) : async_scope.
Notation "m ;; k" := (Async.bind m (λ _, k))
  (at level 100, right associativity) : async_scope.

(** [new Error(msg)], as [String] renders it: the name alone when the
    message is empty. *)
Definition Error (msg : string) : string :=
  match msg with
  | EmptyString => "Error"
  | String _ _ => "Error: " +:+ msg
  end.

(** ** The network *)

(** JSON documents the program sends. *)
#[local] Unset Elimination Schemes.
Inductive Json :=
  | JNull
  | JBool (b : bool)
  | JNum (n : Z)
  | JStr (s : string)
  | JArr (items : list Json)
  | JObj (fields : list (string * Json)).
#[local] Set Elimination Schemes.

(** An identifier in a document: [undefined] in an array is written as
    [null]. *)
Definition idJson (i : option string) : Json :=
  match i with
  | Some s => JStr s
  | None => JNull
  end.

Inductive Part :=
  | TextPart (s : string)
  | JsonPart (doc : Json)
  | FilePart (bytes : string).

Inductive Body :=
  | NoBody
  | UrlEncoded (fields : list (string * string))
  | JsonBody (doc : Json)
  | BufferConcat (parts : list Part)
  | FileBody (bytes : string)
  | FormDataBody (metadata : Json) (files : list (string * string)).

(** A [fetch] call: [query] holds the decoded parameters of the URL. *)
Record Request := {
  method : string;
  url : string;
  query : list (string * string);
  headers : list (string * string);
  body : Body;
}.

(** What the program reads from a response. The JSON fields are typed as
    the source casts them ([as { id: string; ... }]); an identifier or a
    link the server did not send reads as [None] ([undefined]);
    [found_files] holds the [id] of each entry of [files]. An answer
    without [access_token] reads as the empty string, which the cache
    test treats alike. *)
Record Response := {
  ok : bool;
  status : Z;
  text : string;
  location : option string;
  json_rejects : option string;
  access_token : string;
  expires_in : Z;
  file_id : option string;
  file_webViewLink : option string;
  found_files : list (option string);
  answer_success : bool;
  answer_message : string;
}.

(** The network answers a request knowing what was sent before it. *)
Definition Net : Type := list Request -> Request -> Outcome Response.

(** What the export pipeline acts on: the world and the requests sent. *)
Record Sys := {
  world : World;
  sent : list Request;
}.

Definition sysLog (line : string) (s : Sys) : Sys :=
  {| world := log line (world s); sent := sent s |}.

(** From [s] to [s'] only requests satisfying [P] have been sent. *)
Definition sentMore (P : Request -> Prop) (s s' : Sys) : Prop :=
  exists qs, sent s' = sent s ++ qs /\ Forall P qs.

(** From [s] to [s'] the heap of arrays, the files, the pending timers and
    the allocation counter are the same (the console may have grown). *)
Definition storeKept (s s' : Sys) : Prop :=
  arrays (world s') = arrays (world s) /\
  files (world s') = files (world s) /\
  timers (world s') = timers (world s) /\
  fresh (world s') = fresh (world s).

Definition CRLF : string := String "013" (String "010" "").
Definition LF : string := String "010" "".

(** ** class GoogleDriveUploader (google-drive-uploader.ts) *)

Module GoogleDriveUploader.

Record OAuthConfig := {
  client_id : string;
  client_secret : string;
  refresh_token : string;
}.

(** [interface UploadResult]; an optional field that is absent is [None]. *)
Record UploadResult := {
  success : bool;
  fileId : option string;
  webViewLink : option string;
  error : option string;
}.

Record t := {
  config : OAuthConfig;
  folderId : string;
  accessToken : option string;
  tokenExpiry : Z;
}.

(** [constructor(config, folderId)]. *)
Definition new (config : OAuthConfig) (folderId : string) : t :=
  {| config := config; folderId := folderId; accessToken := None;
     tokenExpiry := 0 |}.

Definition TOKEN_URL : string := "https://oauth2.googleapis.com/token".
Definition FILES_URL : string := "https://www.googleapis.com/drive/v3/files".
Definition UPLOAD_URL : string :=
  "https://www.googleapis.com/upload/drive/v3/files".
Definition FOLDER_MIME : string := "application/vnd.google-apps.folder".

(** The size, in bytes, from which the resumable upload is used. *)
Definition SIMPLE_UPLOAD_LIMIT : Z := 5 * 1024 * 1024.

Section Methods.
Variable net : Net.

Local Open Scope async_scope.

(** The state of a method call: the uploader object and the system. *)
Definition St : Type := t * Sys.

(** [await fetch(url, init)]. *)
Definition fetch (q : Request) : @Async.M St Response :=
  λ '(this, s),
    (net (sent s) q, (this, {| world := world s; sent := sent s ++ [q] |})).

Definition consoleLog (line : string) : @Async.M St unit :=
  Async.modify (λ '(this, s), (this, sysLog line s)).

(** [await response.json()]. *)
Definition json (resp : Response) : @Async.M St Response :=
  match json_rejects resp with
  | Some err => Async.throw err
  | None => Async.ret resp
  end.

(** [this.accessToken && now < this.tokenExpiry - 60]. *)
Definition tokenStillValid (now : Z) (this : t) : bool :=
  match accessToken this with
  | Some tok => negb (bool_decide (tok = "")) && (now <? tokenExpiry this - 60)
  | None => false
  end.

(** [private async getAccessToken()]; [now_ms] is [Date.now()]. *)
Definition getAccessToken (now_ms : Z) : @Async.M St string :=
  let now := now_ms / 1000 in
  st <- Async.get ;;
  let this := st.1 in
  if tokenStillValid now this then Async.ret (default "" (accessToken this))
  else
    resp <- fetch {| method := "POST"; url := TOKEN_URL; query := [];
                     headers := [("Content-Type",
                                  "application/x-www-form-urlencoded")];
                     body := UrlEncoded
                       [("client_id", client_id (config this));
                        ("client_secret", client_secret (config this));
                        ("refresh_token", refresh_token (config this));
                        ("grant_type", "refresh_token")] |} ;;
    if negb (ok resp) then
      Async.throw (Error ("Failed to get access token: " +:+ text resp))
    else
      data <- json resp ;;
      Async.modify (λ '(this, s),
        ({| config := config this; folderId := folderId this;
            accessToken := Some (access_token data);
            tokenExpiry := now + expires_in data |}, s)) ;;
      Async.ret (access_token data).

(** [private async getOrCreateFolder(folderName, parentId, accessToken)].
    A folder identifier is [None] when it is [undefined], as it is when
    the answer to a creation carries no [id]; in a template string it
    reads "undefined". *)
Definition getOrCreateFolder (folderName : string) (parentId : option string)
    (token : string) : @Async.M St (option string) :=
  searchResponse <-
    fetch {| method := "GET"; url := FILES_URL;
             query := [("q", "name='" +:+ folderName +:+ "' and '"
                             +:+ default "undefined" parentId
                             +:+ "' in parents and mimeType='" +:+ FOLDER_MIME
                             +:+ "' and trashed=false");
                       ("fields", "files(id,name)")];
             headers := [("Authorization", "Bearer " +:+ token)];
             body := NoBody |} ;;
  if negb (ok searchResponse) then
    Async.throw (Error ("Folder search failed: " +:+ text searchResponse))
  else
    searchResult <- json searchResponse ;;
    match found_files searchResult with
    | first :: _ => Async.ret first
    | [] =>
        createResponse <-
          fetch {| method := "POST"; url := FILES_URL; query := [];
                   headers := [("Authorization", "Bearer " +:+ token);
                               ("Content-Type", "application/json")];
                   body := JsonBody (JObj [("name", JStr folderName);
                                           ("mimeType", JStr FOLDER_MIME);
                                           ("parents", JArr [idJson parentId])]) |} ;;
        if negb (ok createResponse) then
          Async.throw (Error ("Folder creation failed: " +:+ text createResponse))
        else
          createResult <- json createResponse ;;
          consoleLog ("Created folder: " +:+ folderName +:+ " "
                      +:+ default "undefined" (file_id createResult)) ;;
          Async.ret (file_id createResult)
    end.

(** The request of the single-request (multipart) transfer. *)
Definition multipartRequest (token : string) (metadata : Json)
    (fileBuffer : string) : Request :=
  let boundary := "-------314159265358979323846" in
  let delimiter := CRLF +:+ "--" +:+ boundary +:+ CRLF in
  let closeDelimiter := CRLF +:+ "--" +:+ boundary +:+ "--" in
  {| method := "POST"; url := UPLOAD_URL;
     query := [("uploadType", "multipart"); ("fields", "id,webViewLink")];
     headers := [("Authorization", "Bearer " +:+ token);
                 ("Content-Type", "multipart/related; boundary=" +:+ boundary)];
     body := BufferConcat
       [TextPart delimiter;
        TextPart ("Content-Type: application/json; charset=UTF-8" +:+ CRLF +:+ CRLF);
        JsonPart metadata;
        TextPart delimiter;
        TextPart ("Content-Type: application/zip" +:+ CRLF +:+ CRLF);
        FilePart fileBuffer;
        TextPart closeDelimiter] |}.

(** The two requests of the resumable transfer. *)
Definition initiateRequest (token : string) (metadata : Json) (fileSize : Z)
  : Request :=
  {| method := "POST"; url := UPLOAD_URL; query := [("uploadType", "resumable")];
     headers := [("Authorization", "Bearer " +:+ token);
                 ("Content-Type", "application/json; charset=UTF-8");
                 ("X-Upload-Content-Type", "application/zip");
                 ("X-Upload-Content-Length", Js.numberToString fileSize)];
     body := JsonBody metadata |}.

Definition streamRequest (uploadUrl : string) (fileSize : Z)
    (fileBuffer : string) : Request :=
  {| method := "PUT"; url := uploadUrl; query := [];
     headers := [("Content-Length", Js.numberToString fileSize);
                 ("Content-Type", "application/zip")];
     body := FileBody fileBuffer |}.

(** A request of the transfer proper (to the upload endpoint, or the
    [PUT] of the bytes), as opposed to the token and folder requests. *)
Definition isTransfer (q : Request) : bool :=
  bool_decide (url q = UPLOAD_URL) || bool_decide (method q = "PUT").

Definition preliminary (q : Request) : Prop := isTransfer q = false.

(** A relation on the system, read on the state of a method call. *)
Definition onSys (R : relation Sys) (st st' : St) : Prop := R st.2 st'.2.

(** The shape of a successful result: the two identifiers as the last
    response gave them, and no [error]. *)
Definition successFrom (resp : Response) : UploadResult :=
  {| success := true; fileId := file_id resp;
     webViewLink := file_webViewLink resp; error := None |}.

(** What [fs.statSync(zipFilePath).size] and [fs.readFileSync(zipFilePath)]
    give for the archive (each may throw). *)
Record ZipFile := {
  statSize : Outcome Z;
  readFile : Outcome string;
}.

(** The first part of the [try] of [uploadZip]: the token and the
    folder the file goes to. *)
Definition resolveTarget (now_ms : Z) (projectName : string)
    (subjectName : option string) : @Async.M St (string * option string) :=
  token <- getAccessToken now_ms ;;
  st <- Async.get ;;
  projectFolderId <- getOrCreateFolder projectName (Some (folderId st.1)) token ;;
  targetFolderId <-
    match subjectName with
    | Some name =>
        if bool_decide (name = "") then Async.ret projectFolderId
        else getOrCreateFolder name projectFolderId token
    | None => Async.ret projectFolderId
    end ;;
  Async.ret (token, targetFolderId).

(** The last part: the transfer itself, chosen by [fileSize]. *)
Definition transfer (token : string) (metadata : Json) (fileSize : Z)
    (fileBuffer : string) : @Async.M St UploadResult :=
  if fileSize <? SIMPLE_UPLOAD_LIMIT then
    response <- fetch (multipartRequest token metadata fileBuffer) ;;
    if negb (ok response) then
      Async.throw (Error ("Upload failed: " +:+ text response))
    else
      result <- json response ;;
      Async.ret {| success := true; fileId := file_id result;
                   webViewLink := file_webViewLink result; error := None |}
  else
    initResponse <- fetch (initiateRequest token metadata fileSize) ;;
    if negb (ok initResponse) then
      Async.throw (Error ("Upload initiation failed: " +:+ text initResponse))
    else
      match location initResponse with
      | None => Async.throw (Error "No upload URL received")
      | Some uploadUrl =>
          if bool_decide (uploadUrl = "") then
            Async.throw (Error "No upload URL received")
          else
            uploadResponse <- fetch (streamRequest uploadUrl fileSize fileBuffer) ;;
            if negb (ok uploadResponse) then
              Async.throw (Error ("File upload failed: " +:+ text uploadResponse))
            else
              result <- json uploadResponse ;;
              Async.ret {| success := true; fileId := file_id result;
                           webViewLink := file_webViewLink result;
                           error := None |}
      end.

(** The body of the [try] of [uploadZip]. *)
Definition uploadZipBody (now_ms : Z) (zip : ZipFile)
    (fileName projectName : string) (subjectName : option string)
  : @Async.M St UploadResult :=
  target <- resolveTarget now_ms projectName subjectName ;;
  fileSize <- Async.await (statSize zip) ;;
  fileBuffer <- Async.await (readFile zip) ;;
  transfer target.1
    (JObj [("name", JStr fileName); ("parents", JArr [idJson target.2])])
    fileSize fileBuffer.

(** [async uploadZip(zipFilePath, fileName, projectName, subjectName?)]. *)
Definition uploadZip (now_ms : Z) (zip : ZipFile)
    (fileName projectName : string) (subjectName : option string)
  : @Async.M St UploadResult :=
  Async.try (uploadZipBody now_ms zip fileName projectName subjectName)
    (λ err,
       consoleLog ("Google Drive upload error: " +:+ err) ;;
       Async.ret {| success := false; fileId := None; webViewLink := None;
                    error := Some err |}).

End Methods.

End GoogleDriveUploader.

(** ** class Uploader (uploader.ts) *)

Module Uploader.

Record GoogleDriveConfig := {
  client_id : string;
  client_secret : string;
  refresh_token : string;
  folder_id : string;
}.

(** [interface Config] (config.ts), with the [support_contact] that
    index.ts reads. *)
Record Config := {
  token : string;
  api_url : string;
  subject_name : string;
  project_name : string;
  recording_start_date : option string;
  recording_end_date : option string;
  google_drive : option GoogleDriveConfig;
  support_contact : option string;
}.

(** [{ success: boolean; message: string }]. *)
Record Answer := {
  success : bool;
  message : string;
}.

(** What one [upload] reads from its environment. *)
Record UploadEnv := {
  t_exported : Z;          (* [new Date()] of [exported_at] *)
  t_period_end : Z;        (* [new Date()] of the [period.end] fallback *)
  t_zip : Z;               (* [const now = new Date()] of the archive name *)
  zip_toTimeString : string; (* [now.toTimeString()], local time *)
  t_token : Z;             (* [Date.now()] in getAccessToken *)
  platform : string;       (* [process.platform] *)
  hostname : string;       (* [os.hostname()] *)
  tmpdir : string;         (* [os.tmpdir()] *)
  createZipArchive : Outcome Z;
  zipFile : GoogleDriveUploader.ZipFile;
  removeZipArchive : Outcome unit;
}.

(** [createZipArchive env] is what [await createZipArchive(...)] settles
    to: the byte count it logs when the archive is closed, or the error of
    the archiver. (The source puts no error listener on the output stream;
    an upload whose archive never settles does not get past this point and
    is no run of [upload] here.) [removeZipArchive env] is what
    [if (fs.existsSync(zipFilePath)) fs.unlinkSync(zipFilePath)] does to
    the temporary archive: it returns, or [unlinkSync] throws. *)

Section Methods.
Variable net : Net.
Variable env : UploadEnv.
Variable config : Config.

Local Open Scope async_scope.

Definition fetch (q : Request) : @Async.M Sys Response :=
  λ s, (net (sent s) q, {| world := world s; sent := sent s ++ [q] |}).

Definition consoleLog (line : string) : @Async.M Sys unit :=
  Async.modify (sysLog line).

Definition deviceOs : string :=
  if bool_decide (platform env = "darwin") then "macOS" else "Windows".

(** The [events] of the metadata: one per screenshot record. *)
Definition eventOf (s : ScreenshotRecord) : Json :=
  JObj [("timestamp", JStr (timestamp s));
        ("app", JStr (appName s));
        ("title", JStr (windowTitle s));
        ("duration_seconds", JNum (durationSeconds s));
        ("screenshot", JStr (Js.basename (filePath s)))].

(** [const metadata = { ... }]; [shots] is the array [data.screenshots]
    refers to, as it is when [upload] reads it. *)
Definition metadataOf (st : RecordingStats.t) (shots : list ScreenshotRecord)
  : list (string * Json) :=
  [("export_version", JStr "1.0");
   ("exported_at", JStr (Js.toISOString (t_exported env)));
   ("token", JStr (token config));
   ("subject_name", JStr (subject_name config));
   ("project_name", JStr (project_name config));
   ("device", JObj [("os", JStr deviceOs);
                    ("hostname", JStr (hostname env))]);
   ("period",
    JObj [("start", JStr (RecordingStats.startTime st));
          ("end", JStr (match RecordingStats.endTime st with
                        | Some e => if bool_decide (e = "")
                                    then Js.toISOString (t_period_end env)
                                    else e
                        | None => Js.toISOString (t_period_end env)
                        end))]);
   ("total_active_seconds", JNum (RecordingStats.totalActiveSeconds st));
   ("app_summary",
    JObj ((λ kv, (kv.1, JNum kv.2))
            <$> map_to_list (RecordingStats.appSummary st)));
   ("screenshots_count", JNum (Z.of_nat (length shots)));
   ("events", JArr (eventOf <$> shots))].

(** [private async sendMetadataToApi(metadata)]: never throws. *)
Definition sendMetadataToApi (metadata : list (string * Json))
  : @Async.M Sys unit :=
  Async.try
    (fetch {| method := "POST";
              url := api_url config +:+ "/api/recorder/metadata"; query := [];
              headers := [("Content-Type", "application/json");
                          ("X-Subject-Token", token config)];
              body := JsonBody (JObj metadata) |} ;;
     Async.ret tt)
    (λ err, consoleLog ("Failed to send metadata to API: " +:+ err)).

(** Run a method of a [GoogleDriveUploader] object created for the
    occasion. *)
Definition withUploader {A} (g : GoogleDriveUploader.t)
    (m : @Async.M GoogleDriveUploader.St A) : @Async.M Sys A :=
  λ s, ((m (g, s)).1, (m (g, s)).2.2).

(** [private async uploadToGoogleDrive(metadata, dataDir)]. The archive
    is a temporary file in [os.tmpdir()], outside the files of the world;
    what building and removing it do is read from [env]. A field of the
    metadata that is [undefined] is left out by [JSON.stringify]. *)
Definition uploadToGoogleDrive (gd : GoogleDriveConfig)
    (metadata : list (string * Json)) (dataDir : string)
  : @Async.M Sys Answer :=
  Async.try
    (let gdrive :=
       GoogleDriveUploader.new
         {| GoogleDriveUploader.client_id := client_id gd;
            GoogleDriveUploader.client_secret := client_secret gd;
            GoogleDriveUploader.refresh_token := refresh_token gd |}
         (folder_id gd) in
     let dateStr := Js.beforeFirst "T" (Js.toISOString (t_zip env)) in
     let timeStr :=
       Js.replace_colon (Js.beforeFirst " " (zip_toTimeString env)) in
     let zipFileName := dateStr +:+ "_" +:+ timeStr +:+ ".zip" in
     consoleLog "Creating ZIP archive..." ;;
     size <- Async.await (createZipArchive env) ;;
     consoleLog ("ZIP created: " +:+ Js.numberToString size +:+ " bytes") ;;
     consoleLog "Uploading to Google Drive..." ;;
     result <- withUploader gdrive
                 (GoogleDriveUploader.uploadZip net (t_token env) (zipFile env)
                    zipFileName (project_name config)
                    (Some (subject_name config))) ;;
     Async.await (removeZipArchive env) ;;
     if GoogleDriveUploader.success result then
       sendMetadataToApi
         (metadata ++
          match GoogleDriveUploader.fileId result with
          | Some i => [("google_drive_file_id", JStr i)]
          | None => []
          end ++
          match GoogleDriveUploader.webViewLink result with
          | Some l => [("google_drive_link", JStr l)]
          | None => []
          end) ;;
       Async.ret {| success := true;
                    message := "Google Driveにアップロードしました" |}
     else
       Async.throw (Error (default "" (GoogleDriveUploader.error result))))
    (λ err,
       consoleLog ("Google Drive upload error: " +:+ err) ;;
       Async.ret {| success := false;
                    message := "アップロード失敗: " +:+ err |}).

(** The files [uploadToApi] attaches: those that exist. *)
Definition attachments (shots : list ScreenshotRecord) (dataDir : string)
    (w : World) : list (string * string) :=
  omap (λ shot,
          let fullPath := Js.join3 dataDir "screenshots"
                            (Js.basename (filePath shot)) in
          match files w !! fullPath with
          | Some _ => Some (Js.basename (filePath shot), fullPath)
          | None => None
          end) shots.

(** [private async uploadToApi(metadata, screenshots, dataDir)]. *)
Definition uploadToApi (metadata : list (string * Json))
    (shots : list ScreenshotRecord) (dataDir : string)
  : @Async.M Sys Answer :=
  s <- Async.get ;;
  response <-
    fetch {| method := "POST";
             url := api_url config +:+ "/api/recorder/upload"; query := [];
             headers := [("X-Subject-Token", token config);
                         ("content-type", "multipart/form-data")];
             body := FormDataBody (JObj metadata)
                       (attachments shots dataDir (world s)) |} ;;
  if negb (ok response) then
    Async.throw (Error ("Upload failed: " +:+ Js.numberToString (status response)
                        +:+ " - " +:+ text response))
  else
    match json_rejects response with
    | Some err => Async.throw err
    | None =>
        Async.ret {| success := answer_success response;
                     message := answer_message response |}
    end.

(** [async upload(data)]. *)
Definition upload (data : ExportData.t) : @Async.M Sys Answer :=
  s <- Async.get ;;
  let shots := readArray (ExportData.screenshots data) (world s) in
  let metadata := metadataOf (ExportData.stats data) shots in
  match google_drive config with
  | Some gd => uploadToGoogleDrive gd metadata (ExportData.dataDir data)
  | None => uploadToApi metadata shots (ExportData.dataDir data)
  end.

End Methods.

End Uploader.

(** ** The auto-upload trigger (index.ts) *)

Module Main.

(** The module-level variables of index.ts that the trigger touches, the
    system, and the notices shown to the user (title, body). *)
Record App := {
  recorder : option Recorder.t;
  config : option Uploader.Config;
  lastFailureNoticeAt : Z;
  sys : Sys;
  notices : list (string * string);
}.

Definition set_recorder (x : option Recorder.t) (a : App) : App :=
  {| recorder := x; config := config a;
     lastFailureNoticeAt := lastFailureNoticeAt a; sys := sys a;
     notices := notices a |}.

Definition set_config (x : option Uploader.Config) (a : App) : App :=
  {| recorder := recorder a; config := x;
     lastFailureNoticeAt := lastFailureNoticeAt a; sys := sys a;
     notices := notices a |}.

Definition set_sys (x : Sys) (a : App) : App :=
  {| recorder := recorder a; config := config a;
     lastFailureNoticeAt := lastFailureNoticeAt a; sys := x;
     notices := notices a |}.

Definition set_world (x : World) (a : App) : App :=
  set_sys {| world := x; sent := sent (sys a) |} a.

Definition appLog (line : string) (a : App) : App :=
  set_sys (sysLog line (sys a)) a.

Definition FAILURE_NOTICE_THROTTLE_MS : Z := 30 * 60 * 1000.
Definition AUTO_UPLOAD_THRESHOLD : nat := 50.

(** What one run of the trigger reads from its environment. *)
Record AutoEnv := {
  stats_flush : Z; stats_end : Z;     (* clock of [recorder.getStats()] *)
  export_flush : Z; export_end : Z;   (* clock of [recorder.exportData()] *)
  upload_env : Uploader.UploadEnv;
  stop_now : Z;                       (* clock of [recorder.stop()] *)
  start_now : Z;                      (* clock of the new [recorder.start()] *)
  userData : string;                  (* [app.getPath('userData')] *)
  notice_now : Z;                     (* [Date.now()] in notifyUserFailure *)
  notificationSupported : bool;       (* [Notification.isSupported()] *)
  appVersion : string;                (* [app.getVersion()] *)
  processPlatform : string;           (* [process.platform] *)
}.

Section Trigger.
Variable net : Net.
Variable env : AutoEnv.

(** [getSupportContactMessage()]. *)
Definition getSupportContactMessage (a : App) : string :=
  match config a with
  | Some c =>
      match Js.trim <$> Uploader.support_contact c with
      | Some contact =>
          if bool_decide (contact = "") then "担当者にご連絡ください。"
          else "担当者: " +:+ contact
      | None => "担当者にご連絡ください。"
      end
  | None => "担当者にご連絡ください。"
  end.

(** [notifyUserFailure(message)]: at most one notice per throttle
    window. *)
Definition notifyUserFailure (message : string) (a : App) : App :=
  if notice_now env - lastFailureNoticeAt a <? FAILURE_NOTICE_THROTTLE_MS
  then a
  else
    let body := message +:+ LF +:+ getSupportContactMessage a in
    {| recorder := recorder a; config := config a;
       lastFailureNoticeAt := notice_now env; sys := sys a;
       notices := notices a ++
                  [(if notificationSupported env then "AI Check Recorder"
                    else "送信に失敗しました", body)] |}.

(** [async notifyUploadFailure(params)]: never throws. *)
Definition notifyUploadFailure (source error : string) (screenshotsCount : nat)
    (a : App) : App :=
  match config a with
  | None => a
  | Some c =>
      let q :=
        {| method := "POST";
           url := Uploader.api_url c +:+ "/api/recorder/notify"; query := [];
           headers := [("Content-Type", "application/json");
                       ("X-Subject-Token", Uploader.token c)];
           body := JsonBody (JObj
             [("status", JStr "failed");
              ("source", JStr source);
              ("error", JStr error);
              ("screenshots_count", JNum (Z.of_nat screenshotsCount));
              ("subject_name", JStr (Uploader.subject_name c));
              ("project_name", JStr (Uploader.project_name c));
              ("app_version", JStr (appVersion env));
              ("device", JStr (if bool_decide (processPlatform env = "darwin")
                               then "macOS" else "Windows"))]) |} in
      let s1 := {| world := world (sys a); sent := sent (sys a) ++ [q] |} in
      match net (sent (sys a)) q with
      | Returns _ => set_sys s1 a
      | Throws err => set_sys (sysLog ("Failed to notify admin: " +:+ err) s1) a
      end
  end.

(** The recorder the trigger creates. *)
Definition newRecorder (w : World) : Recorder.t * World :=
  Recorder.new 60000 (userData env +:+ "/recordings") None w.

(** [runAutoUploadCheck] up to its [await uploader.upload(data)]: either
    it has returned already, or an upload of [data] is to be awaited. *)
Inductive Checked :=
  | Done (a : App)
  | Uploading (c : Uploader.Config) (st : RecordingStats.t)
      (data : ExportData.t) (a : App).

Definition beforeUpload (a : App) : Checked :=
  match recorder a, config a with
  | Some r, Some c =>
      let '(st, r1) :=
        Recorder.getStats (stats_flush env) (stats_end env) r (world (sys a)) in
      let a1 := set_recorder (Some r1) a in
      if (RecordingStats.totalScreenshots st <? AUTO_UPLOAD_THRESHOLD)%nat
      then Done a1
      else
        let a2 := appLog ("自動アップロード開始: "
                          +:+ Js.numberToString
                                (Z.of_nat (RecordingStats.totalScreenshots st))
                          +:+ "枚") a1 in
        let '(data, r2) :=
          Recorder.exportData (export_flush env) (export_end env) r1
            (world (sys a2)) in
        Uploading c st data (set_recorder (Some r2) a2)
  | _, _ => Done a
  end.

(** The failure path, shared by the [else] branch and the [catch]. *)
Definition reportFailure (error : string) (st : RecordingStats.t) (a : App)
  : App :=
  notifyUserFailure "自動送信に失敗しました。"
    (notifyUploadFailure "auto" error (RecordingStats.totalScreenshots st) a).

(** The [catch] of [runAutoUploadCheck]. *)
Definition caught (err : string) (st : RecordingStats.t) (a : App) : App :=
  reportFailure err st (appLog ("自動アップロード失敗: " +:+ err) a).

(** [runAutoUploadCheck] from the point where the upload has settled,
    on the application state of that moment. *)
Definition afterUpload (st : RecordingStats.t)
    (outcome : Outcome Uploader.Answer) (a : App) : App :=
  match outcome with
  | Returns result =>
      if Uploader.success result then
        match recorder (appLog "自動アップロード成功" a) with
        | Some r =>
            let a1 := appLog "自動アップロード成功" a in
            let '(r1, w1) := Recorder.stop (stop_now env) r (world (sys a1)) in
            let '(r2, w2) := newRecorder w1 in
            let '(r3, w3) := Recorder.start (start_now env) r2 w2 in
            set_recorder (Some r3) (set_world w3 a1)
        | None =>
            caught "TypeError: Cannot read properties of null (reading 'stop')"
              st (appLog "自動アップロード成功" a)
        end
      else reportFailure (Uploader.message result) st a
  | Throws err => caught err st a
  end.

(** [const runAutoUploadCheck = async () => { ... }]. *)
Definition runAutoUploadCheck (a : App) : App :=
  match beforeUpload a with
  | Done a1 => a1
  | Uploading c st data a1 =>
      let '(outcome, s2) :=
        Uploader.upload net (upload_env env) c data (sys a1) in
      afterUpload st outcome (set_sys s2 a1)
  end.

(** The outcome of the upload a run of the trigger awaits, if it gets
    that far. *)
Definition uploadOutcome (a : App) : option (Outcome Uploader.Answer) :=
  match beforeUpload a with
  | Done _ => None
  | Uploading c st data a1 =>
      Some (Uploader.upload net (upload_env env) c data (sys a1)).1
  end.

(** An export attempt that failed: [upload] threw, or resolved with
    [success] false. *)
Definition exportFailed (o : Outcome Uploader.Answer) : bool :=
  match o with
  | Returns result => negb (Uploader.success result)
  | Throws _ => true
  end.

(** [r'] is the recorder object [r] in the same session: same array,
    same flags, same timer, same start (its accounting may have been
    flushed). *)
Definition sameSession (r r' : Recorder.t) : Prop :=
  Recorder.screenshots r' = Recorder.screenshots r /\
  Recorder.recording r' = Recorder.recording r /\
  Recorder.paused r' = Recorder.paused r /\
  Recorder.timer r' = Recorder.timer r /\
  Recorder.startTime r' = Recorder.startTime r /\
  Recorder.options r' = Recorder.options r.

(** The session of recorder [r] is still the current one in [a'], not
    stopped, with the array, the files and the timers of [a]. *)
Definition retained (r : Recorder.t) (a a' : App) : Prop :=
  exists r',
    recorder a' = Some r' /\
    sameSession r r' /\
    storeKept (sys a) (sys a') /\
    readArray (Recorder.screenshots r') (world (sys a'))
    = readArray (Recorder.screenshots r) (world (sys a)).

(** The session of recorder [r] has been retired in [a']: its timer is
    cleared, and the current recorder is a new one, recording, with an
    empty array of its own, started at [start_now env]. *)
Definition retired (r : Recorder.t) (a a' : App) : Prop :=
  exists r',
    recorder a' = Some r' /\
    Recorder.screenshots r' = S (fresh (world (sys a))) /\
    readArray (Recorder.screenshots r') (world (sys a')) = [] /\
    Recorder.recording r' = true /\
    Recorder.paused r' = false /\
    Recorder.startTime r' = Some (start_now env) /\
    Recorder.appUsage r' = ∅ /\
    Recorder.timer r' = Some (S (S (fresh (world (sys a))))) /\
    timers (world (sys a'))
    = {[S (S (fresh (world (sys a))))]}
      ∪ (timers (world (sys a))
         ∖ match Recorder.timer r with Some h => {[h]} | None => ∅ end).

End Trigger.

End Main.

(** ** The usage invariant as the specification words it

    The specification's measure, not the program's: capture cycles seen as
    samples (clock, identity); the seconds from one sample to the next
    count for the identity of the first of the two, and for nobody when
    that identity is the sentinel. *)
Fixpoint specAttributedSeconds (samples : list (Z * string)) : Z :=
  match samples with
  | [] => 0
  | (t1, a) :: rest =>
      match rest with
      | [] => 0
      | (t2, _) :: _ =>
          (if bool_decide (a = Unknown) then 0 else (t2 - t1) / 1000)
          + specAttributedSeconds rest
      end
  end.

(** The same measure for one application. *)
Fixpoint specSecondsOf (name : string) (samples : list (Z * string)) : Z :=
  match samples with
  | [] => 0
  | (t1, a) :: rest =>
      match rest with
      | [] => 0
      | (t2, _) :: _ =>
          (if bool_decide (a = name) then (t2 - t1) / 1000 else 0)
          + specSecondsOf name rest
      end
  end.

(** ** Concrete sessions used by the examples below *)

Module Scenario.

(** The lower-casing of the examples: their names are ASCII. *)
Definition asciiNames : Js.Lowercase :=
  {| Js.toLowerCase := Js.asciiLowerCase; Js.toLowerCase_empty := eq_refl |}.

#[local] Existing Instance asciiNames.

Definition env0 : CaptureEnv :=
  {| activeWin := WinFound "Editor" "main.ts"; t_flush := 0; t_since := 0;
     t_stamp := 0; uuid := "id-0"; io := Captured "jpeg-0" |}.

(** A new recorder in an empty world. *)
Definition fresh_recorder : Recorder.t * World :=
  Recorder.new 60000 "/data/recordings" None emptyWorld.

(** [start()] at time 0, then one cycle at time 0 that saw the application
    "Editor" (window inspection on). *)
Definition open_session : Recorder.t * World :=
  runUsing true [Start 0; Tick 2 env0] fresh_recorder.

(** The same two events with the program as it stands. *)
Definition shipped_session : Recorder.t * World :=
  run [Start 0; Tick 2 env0] fresh_recorder.

(** A session started at 0 and stopped after one minute. *)
Definition stopped_session : Recorder.t * World :=
  run [Start 0; Tick 2 env0; Stop 60000] fresh_recorder.

(** A recorder configured with the deny-list ["Slack"], started at 0. *)
Definition slack_recorder : Recorder.t * World :=
  Recorder.start 0
    (Recorder.new 60000 "/data/recordings" (Some ["Slack"]) emptyWorld).1
    (Recorder.new 60000 "/data/recordings" (Some ["Slack"]) emptyWorld).2.

Definition slack_env : CaptureEnv :=
  {| activeWin := WinFound "Slack for Desktop" "general"; t_flush := 30000;
     t_since := 30000; t_stamp := 30000; uuid := "id-1";
     io := Captured "jpeg-1" |}.

(** The cycles of the pause and resume example: application "Editor" seen
    at [t0] and again 110 s later. *)
Definition env_at (t : Z) (n : string) : CaptureEnv :=
  {| activeWin := WinFound "Editor" "main.ts"; t_flush := t; t_since := t;
     t_stamp := t; uuid := n; io := Captured "jpeg" |}.

(** Three cycles, ten seconds apart: "Editor", then no identity, then
    "Mail"; and the samples they amount to. *)
Definition three_cycles : list LedgerOp :=
  [OpCapture "Editor" "main.ts" (env_at 0 "a");
   OpCapture Unknown "" (env_at 10000 "b");
   OpCapture "Mail" "Inbox" (env_at 20000 "c")].

Definition three_samples : list (Z * string) :=
  [(0, "Editor"); (10000, Unknown); (20000, "Mail")].

Definition started : Recorder.t * World :=
  Recorder.start 0 fresh_recorder.1 fresh_recorder.2.

(** A network that answers every request with success. *)
Definition okResponse : Response :=
  {| ok := true; status := 200; text := "";
     location := Some "https://upload.example/session-1";
     json_rejects := None; access_token := "token-1"; expires_in := 3600;
     file_id := Some "file-1";
     file_webViewLink := Some "https://drive.example/file-1";
     found_files := [Some "folder-1"]; answer_success := true;
     answer_message := "ok" |}.

Definition friendlyNet : Net := λ _ _, Returns okResponse.

(** A network that is down. *)
Definition deadNet : Net := λ _ _, Throws "FetchError: network is unreachable".

Definition zipOf (n : Z) : GoogleDriveUploader.ZipFile :=
  {| GoogleDriveUploader.statSize := Returns n;
     GoogleDriveUploader.readFile := Returns "PK-bytes" |}.

Definition drive : GoogleDriveUploader.St :=
  (GoogleDriveUploader.new
     {| GoogleDriveUploader.client_id := "client";
        GoogleDriveUploader.client_secret := "secret";
        GoogleDriveUploader.refresh_token := "refresh" |} "root-folder",
   {| world := emptyWorld; sent := [] |}).

(** What was sent, in short: method, URL and [uploadType]. *)
Definition shortOf (q : Request) : string * string * option string :=
  (method q, url q, snd <$> list_find (λ kv, kv.1 = "uploadType") (query q)
                    ≫= (λ kv, Some kv.2)).

(** A session with fifty screenshots, one per minute. *)
Definition fifty_ticks : list Event :=
  (λ i, Tick (2 + i) (env_at (60000 * Z.of_nat i) "shot")) <$> seq 0 50.

Definition full_session : Recorder.t * World :=
  run (Start 0 :: fifty_ticks) fresh_recorder.

Definition apiConfig : Uploader.Config :=
  {| Uploader.token := "subject-token";
     Uploader.api_url := "https://api.example";
     Uploader.subject_name := "Subject"; Uploader.project_name := "Project";
     Uploader.recording_start_date := None;
     Uploader.recording_end_date := None; Uploader.google_drive := None;
     Uploader.support_contact := None |}.

Definition driveConfig : Uploader.Config :=
  {| Uploader.token := "subject-token";
     Uploader.api_url := "https://api.example";
     Uploader.subject_name := "Subject"; Uploader.project_name := "Project";
     Uploader.recording_start_date := None;
     Uploader.recording_end_date := None;
     Uploader.google_drive :=
       Some {| Uploader.client_id := "client";
               Uploader.client_secret := "secret";
               Uploader.refresh_token := "refresh";
               Uploader.folder_id := "root-folder" |};
     Uploader.support_contact := None |}.

Definition full_app : Main.App :=
  {| Main.recorder := Some full_session.1; Main.config := Some apiConfig;
     Main.lastFailureNoticeAt := 0;
     Main.sys := {| world := full_session.2; sent := [] |};
     Main.notices := [] |}.

Definition uploadEnv : Uploader.UploadEnv :=
  {| Uploader.t_exported := 3000000; Uploader.t_period_end := 3000000;
     Uploader.t_zip := 3000000; Uploader.zip_toTimeString := "09:50:00 GMT+0900";
     Uploader.t_token := 3000000; Uploader.platform := "darwin";
     Uploader.hostname := "host"; Uploader.tmpdir := "/tmp";
     Uploader.createZipArchive := Returns 1000; Uploader.zipFile := zipOf 1000;
     Uploader.removeZipArchive := Returns tt |}.

Definition autoEnv : Main.AutoEnv :=
  {| Main.stats_flush := 3000000; Main.stats_end := 3000000;
     Main.export_flush := 3000000; Main.export_end := 3000000;
     Main.upload_env := uploadEnv; Main.stop_now := 3000000;
     Main.start_now := 3000001; Main.userData := "/data";
     Main.notice_now := 3000000; Main.notificationSupported := true;
     Main.appVersion := "1.0.0"; Main.processPlatform := "darwin" |}.

End Scenario.

(** ** Further notions used in the statements below *)

(** The path [p] holds no separator. *)
Definition slashFree (p : string) : Prop := Js.includes p "/" = false.

(** [sub] occurs in [s]: some text, then [sub], then some text. *)
Definition occursIn (sub s : string) : Prop :=
  exists pre post, s = pre +:+ sub +:+ post.

(** The usage total of the window that is open, if any, is kept under a
    plain key. *)
Definition plainWindow (r : Recorder.t) : bool :=
  match Recorder.lastWindowInfo r with
  | Some win => Js.plainKey (app win)
  | None => true
  end.

Section Suppression.
Context {lowercase : Js.Lowercase}.

(** The cycle for the identity [appName] ends at the exclusion check. *)
Definition suppressed (r : Recorder.t) (appName : string) : bool :=
  bool_decide (appName ≠ Unknown) && Recorder.isExcludedApp r appName.

(** The record a ledger operation appends to the screenshot array, if it
    appends one: a capture cycle that is not suppressed and whose
    screenshot and writes succeed. *)
Definition appended (r : Recorder.t) (o : LedgerOp) : option ScreenshotRecord :=
  match o with
  | OpCapture a ti env =>
      if suppressed r a then None
      else match io env with
           | Captured _ => Some (Recorder.recordOf a ti env r)
           | _ => None
           end
  | _ => None
  end.

End Suppression.

(** The recorder's array is allocated and every record in it is under the
    sentinel identity. *)
Definition sentinelOnly (r : Recorder.t) (w : World) : Prop :=
  (Recorder.screenshots r < fresh w)%nat /\
  Forall (λ rec, appName rec = Unknown) (readArray (Recorder.screenshots r) w).

(** No window open, nothing accounted, and only sentinel records. *)
Definition calm (r : Recorder.t) (w : World) : Prop :=
  Recorder.idle r /\ sentinelOnly r w.

(** The record a cycle of the program as it stands leaves when it lands:
    one under the sentinel identity, if its screenshot and writes
    succeed. *)
Definition landed (r : Recorder.t) (env : CaptureEnv) : option ScreenshotRecord :=
  match io env with
  | Captured _ => Some (Recorder.recordOf Unknown "" env r)
  | _ => None
  end.

(** [if (fs.existsSync(path)) fs.unlinkSync(path)] with the failures of
    [unlinkSync] made explicit: [fails path] is the error it throws for
    [path], if it throws. *)
Definition unlinkExisting (fails : string -> option string) (path : string)
    (w : World) : Outcome unit * World :=
  match files w !! path with
  | Some _ =>
      match fails path with
      | Some err => (Throws err, w)
      | None => (Returns tt, set_files (delete path (files w)) w)
      end
  | None => (Returns tt, w)
  end.

(** The [try] of [deleteScreenshot]: the image, then the thumbnail; the
    first failure is logged and ends it. *)
Definition deleteFiles (fails : string -> option string)
    (record : ScreenshotRecord) (w : World) : World :=
  match unlinkExisting fails (filePath record) w with
  | (Throws err, w1) => log ("Failed to delete screenshot files: " +:+ err) w1
  | (Returns _, w1) =>
      match unlinkExisting fails (thumbnailPath record) w1 with
      | (Throws err, w2) =>
          log ("Failed to delete screenshot files: " +:+ err) w2
      | (Returns _, w2) => w2
      end
  end.

(** [deleteScreenshot(id)] on a file system whose removals may fail. *)
Definition deleteScreenshotWith (fails : string -> option string) (i : string)
    (r : Recorder.t) (w : World) : bool * World :=
  match list_find (λ s, id s = i) (readArray (Recorder.screenshots r) w) with
  | None => (false, w)
  | Some (index, record) =>
      let w1 := deleteFiles fails record w in
      (true,
       set_arrays (alter (delete index) (Recorder.screenshots r) (arrays w1)) w1)
  end.

(** A capture cycle as the ledger sees it: the resolved name and title,
    and what the cycle read from its environment. *)
Definition Cycle : Type := string * string * CaptureEnv.

Definition opOf (c : Cycle) : LedgerOp := OpCapture c.1.1 c.1.2 c.2.

(** The seconds a run of cycles for known applications adds to the usage
    map when the window open before it (if any) is anchored at [anchor]:
    each cycle closes the window before it at its flush reading and opens
    its own at its [since] reading. *)
Fixpoint accrued (anchor : option Z) (cycles : list Cycle) : Z :=
  match cycles with
  | [] => 0
  | c :: rest =>
      match anchor with
      | Some t => (t_flush c.2 - t) / 1000
      | None => 0
      end + accrued (Some (t_since c.2)) rest
  end.

(** The anchor after a run of cycles. *)
Definition lastAnchor (t0 : Z) (cycles : list Cycle) : Z :=
  foldl (λ _ c, t_since c.2) t0 cycles.

(** At most the recorder's own current timer is pending. *)
Definition armedOnce (r : Recorder.t) (w : World) : Prop :=
  timers w ⊆ match Recorder.timer r with Some h => {[h]} | None => ∅ end.

Definition isStart (e : Event) : bool :=
  match e with Start _ => true | _ => false end.

(** ** The requests of the storage transport, by name *)

(** The request [getAccessToken] sends for the uploader [this]. *)
Definition tokenRequest (this : GoogleDriveUploader.t) : Request :=
  {| method := "POST"; url := GoogleDriveUploader.TOKEN_URL; query := [];
     headers := [("Content-Type", "application/x-www-form-urlencoded")];
     body := UrlEncoded
       [("client_id",
         GoogleDriveUploader.client_id (GoogleDriveUploader.config this));
        ("client_secret",
         GoogleDriveUploader.client_secret (GoogleDriveUploader.config this));
        ("refresh_token",
         GoogleDriveUploader.refresh_token (GoogleDriveUploader.config this));
        ("grant_type", "refresh_token")] |}.

(** The look-up [getOrCreateFolder] sends first. *)
Definition searchRequest (folderName : string) (parentId : option string)
    (token : string) : Request :=
  {| method := "GET"; url := GoogleDriveUploader.FILES_URL;
     query := [("q", "name='" +:+ folderName +:+ "' and '"
                     +:+ default "undefined" parentId
                     +:+ "' in parents and mimeType='"
                     +:+ GoogleDriveUploader.FOLDER_MIME
                     +:+ "' and trashed=false");
               ("fields", "files(id,name)")];
     headers := [("Authorization", "Bearer " +:+ token)];
     body := NoBody |}.

(** The creation it sends when the look-up found nothing. *)
Definition createRequest (folderName : string) (parentId : option string)
    (token : string) : Request :=
  {| method := "POST"; url := GoogleDriveUploader.FILES_URL; query := [];
     headers := [("Authorization", "Bearer " +:+ token);
                 ("Content-Type", "application/json")];
     body := JsonBody (JObj [("name", JStr folderName);
                             ("mimeType", JStr GoogleDriveUploader.FOLDER_MIME);
                             ("parents", JArr [idJson parentId])]) |}.

(** The system after one more request. *)
Definition afterSending (q : Request) (s : Sys) : Sys :=
  {| world := world s; sent := sent s ++ [q] |}.

(** ** The parts of [uploadToGoogleDrive], by name *)

(** The uploader object it creates. *)
Definition driveOf (gd : Uploader.GoogleDriveConfig) : GoogleDriveUploader.t :=
  GoogleDriveUploader.new
    {| GoogleDriveUploader.client_id := Uploader.client_id gd;
       GoogleDriveUploader.client_secret := Uploader.client_secret gd;
       GoogleDriveUploader.refresh_token := Uploader.refresh_token gd |}
    (Uploader.folder_id gd).

(** The name it gives the archive. *)
Definition archiveName (env : Uploader.UploadEnv) : string :=
  Js.beforeFirst "T" (Js.toISOString (Uploader.t_zip env)) +:+ "_"
  +:+ Js.replace_colon (Js.beforeFirst " " (Uploader.zip_toTimeString env))
  +:+ ".zip".

(** Its [await gdrive.uploadZip(...)], on the system as it is once the
    archive of [size] bytes is built. *)
Definition transferOf (net : Net) (env : Uploader.UploadEnv)
    (config : Uploader.Config) (gd : Uploader.GoogleDriveConfig) (size : Z)
    (s : Sys) : Outcome GoogleDriveUploader.UploadResult * Sys :=
  Uploader.withUploader (driveOf gd)
    (GoogleDriveUploader.uploadZip net (Uploader.t_token env)
       (Uploader.zipFile env) (archiveName env)
       (Uploader.project_name config) (Some (Uploader.subject_name config)))
    (sysLog "Uploading to Google Drive..."
       (sysLog ("ZIP created: " +:+ Js.numberToString size +:+ " bytes")
          (sysLog "Creating ZIP archive..." s))).

(** The record [uploadToApi] would attach for [shot] when its image is
    still on disk under the path the record holds. *)
Definition attachedAsRecorded (w : World) (shot : ScreenshotRecord)
  : option (string * string) :=
  match files w !! filePath shot with
  | Some _ => Some (Js.basename (filePath shot), filePath shot)
  | None => None
  end.

(** ** The manual upload (index.ts, [ipcMain.handle('upload-data', ...)]) *)

Module Handlers.

(** What the handler answers: [{ success, error?, result? }]. *)
Record UploadReply := {
  success : bool;
  error : option string;
  result : option Uploader.Answer;
}.

Section UploadData.
Variable net : Net.
Variable env : Main.AutoEnv.

(** The handler reads the clock of [recorder.exportData()], the upload
    environment, the version and the platform from [env]. *)
Definition uploadData (a : Main.App) : UploadReply * Main.App :=
  match Main.config a, Main.recorder a with
  | Some c, Some r =>
      let '(data, r1) :=
        Recorder.exportData (Main.export_flush env) (Main.export_end env) r
          (world (Main.sys a)) in
      let a1 := Main.set_recorder (Some r1) a in
      let '(outcome, s2) :=
        Uploader.upload net (Main.upload_env env) c data (Main.sys a1) in
      let a2 := Main.set_sys s2 a1 in
      let count := RecordingStats.totalScreenshots (ExportData.stats data) in
      match outcome with
      | Returns answer =>
          if Uploader.success answer
          then ({| success := true; error := None; result := Some answer |}, a2)
          else ({| success := false; error := Some (Uploader.message answer);
                   result := None |},
                Main.notifyUploadFailure net env "manual"
                  (Uploader.message answer) count a2)
      | Throws err =>
          ({| success := false; error := Some err; result := None |},
           Main.notifyUploadFailure net env "manual" err count a2)
      end
  | _, _ =>
      ({| success := false; error := Some "設定が読み込まれていません";
          result := None |}, a)
  end.

End UploadData.

Section RemoteStop.
Variable net : Net.
Variable env : Main.AutoEnv.

(** The final upload of the remote-stop poll: the block
    [if (recorder) { ... await uploader.upload(exportData) }]. *)
Definition finalUpload (c : Uploader.Config) (a : Main.App)
  : Outcome unit * Main.App :=
  match Main.recorder a with
  | Some r =>
      let '(data, r1) :=
        Recorder.exportData (Main.export_flush env) (Main.export_end env) r
          (world (Main.sys a)) in
      let a1 := Main.set_recorder (Some r1) a in
      let '(outcome, s2) :=
        Uploader.upload net (Main.upload_env env) c data (Main.sys a1) in
      (match outcome with
       | Returns _ => Returns tt
       | Throws err => Throws err
       end, Main.set_sys s2 a1)
  | None => (Returns tt, a)
  end.

(** The remote-stop poll from the point where the status answer has been
    read with [should_stop] set ([message] is its [message]), inside the
    [try] of the poll. The message box is recorded among the notices by
    its title and message. The [bool] tells whether [app.exit(0)] was
    reached. *)
Definition stopOrdered (message : option string) (a : Main.App)
  : Main.App * bool :=
  match Main.config a with
  | None => (a, false)
  | Some c =>
      let a0 := Main.appLog ("リモート停止命令を受信: "
                             +:+ default "undefined" message) a in
      match finalUpload c a0 with
      | (Throws _, a2) =>
          (Main.appLog "リモートステータスチェック失敗（ネットワーク）" a2,
           false)
      | (Returns _, a2) =>
          let a3 :=
            {| Main.recorder := Main.recorder a2; Main.config := Main.config a2;
               Main.lastFailureNoticeAt := Main.lastFailureNoticeAt a2;
               Main.sys := Main.sys a2;
               Main.notices := Main.notices a2
                 ++ [("調査完了", "業務改善チェックが完了しました")] |} in
          match Main.recorder a3 with
          | Some r =>
              let '(r1, w1) :=
                Recorder.stop (Main.stop_now env) r (world (Main.sys a3)) in
              (Main.set_recorder (Some r1) (Main.set_world w1 a3), true)
          | None => (a3, true)
          end
      end
  end.

(** The outcome of that final upload, when the order gets that far. *)
Definition finalOutcome (message : option string) (a : Main.App)
  : option (Outcome unit) :=
  match Main.config a with
  | None => None
  | Some c =>
      Some (finalUpload c
              (Main.appLog ("リモート停止命令を受信: "
                            +:+ default "undefined" message) a)).1
  end.

End RemoteStop.

(** The session of recorder [r] has been stopped in [a']: the current
    recorder is the same object, not recording, with no timer of its
    own; its array and the files are those of [a]; only its own timer
    was cleared. *)
Definition stopped (r : Recorder.t) (a a' : Main.App) : Prop :=
  exists r',
    Main.recorder a' = Some r' /\
    Recorder.screenshots r' = Recorder.screenshots r /\
    Recorder.recording r' = false /\
    Recorder.timer r' = None /\
    arrays (world (Main.sys a')) = arrays (world (Main.sys a)) /\
    files (world (Main.sys a')) = files (world (Main.sys a)) /\
    timers (world (Main.sys a'))
    = timers (world (Main.sys a))
      ∖ match Recorder.timer r with Some h => {[h]} | None => ∅ end.

End Handlers.

(** ** Further concrete values for the examples *)

Module Sample.

#[local] Existing Instance Scenario.asciiNames.

(** Two cycles for known applications, twenty seconds apart. *)
Definition two_cycles : list Cycle :=
  [("Editor", "main.ts", Scenario.env_at 0 "a");
   ("Mail", "Inbox", Scenario.env_at 20000 "c")].

(** A started recorder that was then paused. *)
Definition paused_session : Recorder.t * World :=
  Recorder.pause 1000 Scenario.started.1 Scenario.started.2.

(** Events after a first [start()], none of them a [start()]. *)
Definition later_events : list Event :=
  [Tick 2 Scenario.env0; Pause 5000; Tick 3 Scenario.env0; Resume;
   GetStats 7000 7000; Stop 9000; Tick 4 Scenario.env0].

(** Callbacks after a stop: a timer that fires, a cycle in flight that
    lands, a callback that runs undisturbed, a landing with nothing left
    in flight. *)
Definition late_steps : list Step :=
  [Fire 2 Scenario.env0; Land 0; Call (Tick 3 Scenario.env0); Land 0].

(** One cycle in flight, started at two minutes. *)
Definition in_flight : list CaptureEnv := [Scenario.env_at 120000 "late"].

(** A storage service with no folders yet: look-ups find nothing, every
    other request is accepted. *)
Definition emptyDriveNet : Net :=
  λ _ q,
    if bool_decide (method q = "GET")
    then Returns {| ok := true; status := 200; text := ""; location := None;
                    json_rejects := None; access_token := ""; expires_in := 0;
                    file_id := None; file_webViewLink := None;
                    found_files := []; answer_success := false;
                    answer_message := "" |}
    else Returns Scenario.okResponse.

(** A token endpoint that refuses. *)
Definition refusedResponse : Response :=
  {| ok := false; status := 401; text := "invalid_grant"; location := None;
     json_rejects := None; access_token := ""; expires_in := 0;
     file_id := None; file_webViewLink := None; found_files := [];
     answer_success := false; answer_message := "" |}.

Definition refusingNet : Net := λ _ _, Returns refusedResponse.

(** An upload environment whose archive step fails. *)
Definition brokenArchive : Uploader.UploadEnv :=
  {| Uploader.t_exported := 3000000; Uploader.t_period_end := 3000000;
     Uploader.t_zip := 3000000; Uploader.zip_toTimeString := "09:50:00 GMT+0900";
     Uploader.t_token := 3000000; Uploader.platform := "darwin";
     Uploader.hostname := "host"; Uploader.tmpdir := "/tmp";
     Uploader.createZipArchive := Throws "Error: ENOSPC: no space left on device";
     Uploader.zipFile := Scenario.zipOf 1000;
     Uploader.removeZipArchive := Returns tt |}.

(** An upload environment in which the temporary archive cannot be
    removed. *)
Definition stuckArchive : Uploader.UploadEnv :=
  {| Uploader.t_exported := 3000000; Uploader.t_period_end := 3000000;
     Uploader.t_zip := 3000000; Uploader.zip_toTimeString := "09:50:00 GMT+0900";
     Uploader.t_token := 3000000; Uploader.platform := "darwin";
     Uploader.hostname := "host"; Uploader.tmpdir := "/tmp";
     Uploader.createZipArchive := Returns 1000;
     Uploader.zipFile := Scenario.zipOf 1000;
     Uploader.removeZipArchive := Throws "Error: EPERM: operation not permitted" |}.

Definition driveOnly : Uploader.GoogleDriveConfig :=
  {| Uploader.client_id := "client"; Uploader.client_secret := "secret";
     Uploader.refresh_token := "refresh"; Uploader.folder_id := "root-folder" |}.

Definition emptySys : Sys := {| world := emptyWorld; sent := [] |}.

(** The environment of the trigger with the notice clock at [t]. *)
Definition noticeAt (t : Z) : Main.AutoEnv :=
  {| Main.stats_flush := 3000000; Main.stats_end := 3000000;
     Main.export_flush := 3000000; Main.export_end := 3000000;
     Main.upload_env := Scenario.uploadEnv; Main.stop_now := 3000000;
     Main.start_now := 3000001; Main.userData := "/data";
     Main.notice_now := t; Main.notificationSupported := true;
     Main.appVersion := "1.0.0"; Main.processPlatform := "darwin" |}.

(** The full application, with a support contact as typed into the
    configuration. *)
Definition withContact (contact : string) : Main.App :=
  Main.set_config
    (Some {| Uploader.token := Uploader.token Scenario.apiConfig;
             Uploader.api_url := Uploader.api_url Scenario.apiConfig;
             Uploader.subject_name := Uploader.subject_name Scenario.apiConfig;
             Uploader.project_name := Uploader.project_name Scenario.apiConfig;
             Uploader.recording_start_date :=
               Uploader.recording_start_date Scenario.apiConfig;
             Uploader.recording_end_date :=
               Uploader.recording_end_date Scenario.apiConfig;
             Uploader.google_drive := Uploader.google_drive Scenario.apiConfig;
             Uploader.support_contact := Some contact |})
    Scenario.full_app.

(** An application whose session has just been started. *)
Definition young_app : Main.App :=
  {| Main.recorder := Some Scenario.started.1;
     Main.config := Some Scenario.apiConfig;
     Main.lastFailureNoticeAt := 0;
     Main.sys := {| world := Scenario.started.2; sent := [] |};
     Main.notices := [] |}.

End Sample.

(** * Properties *)

(** ** The string helpers on known values *)

Example toISOString_epoch : Js.toISOString 0 = "1970-01-01T00:00:00.000Z".
Proof. reflexivity. Qed.

Example toISOString_2023 : Js.toISOString 1700000000123 = "2023-11-14T22:13:20.123Z".
Proof. vm_compute. reflexivity. Qed.

Example toISOString_leap : Js.toISOString 951782400000 = "2000-02-29T00:00:00.000Z".
Proof. vm_compute. reflexivity. Qed.

Example toISOString_before_epoch : Js.toISOString (-1) = "1969-12-31T23:59:59.999Z".
Proof. vm_compute. reflexivity. Qed.

Example basename_examples :
  Js.basename "/data/rec/screenshots/a.jpg" = "a.jpg" /\
  Js.basename "/a/b/" = "b" /\ Js.basename "///" = "" /\ Js.basename "plain" = "plain".
Proof. vm_compute. auto. Qed.

Example includes_examples :
  Js.includes "slack for desktop" "slack" = true /\
  Js.includes "finder" "slack" = false /\ Js.includes "abc" "" = true.
Proof. vm_compute. auto. Qed.


(** ** Basic facts about the ledger *)

Section Ledger.

Import Recorder.

Implicit Types (r : Recorder.t) (w : World) (usage : gmap string Z).

Lemma sumValues_empty : sumValues ∅ = 0.
Proof. unfold sumValues. apply map_fold_empty. Qed.

Lemma sumValues_insert_fresh usage k v :
  usage !! k = None -> sumValues (<[k := v]> usage) = sumValues usage + v.
Proof.
  intros Hk. unfold sumValues.
  rewrite map_fold_insert_L; [done | | done].
  intros; cbn beta; lia.
Qed.

Lemma sumValues_insert usage k v :
  sumValues (<[k := v]> usage) = sumValues usage - default 0 (usage !! k) + v.
Proof.
  destruct (usage !! k) as [old|] eqn:Hk; simpl.
  - rewrite <- (insert_delete_eq usage k v).
    rewrite sumValues_insert_fresh by apply lookup_delete_eq.
    unfold sumValues.
    rewrite (map_fold_delete_L _ _ k old usage); [cbn beta; lia | | done].
    intros; cbn beta; lia.
  - rewrite sumValues_insert_fresh by done. lia.
Qed.

Lemma updateWindowDuration_sum now r :
  sumValues (appUsage (updateWindowDuration now r))
  = sumValues (appUsage r) + openSeconds now r.
Proof.
  unfold updateWindowDuration, openSeconds.
  destruct (lastWindowInfo r) as [win|]; simpl; [|lia].
  rewrite sumValues_insert. lia.
Qed.

(** A flush leaves the anchor where it was. *)
Lemma updateWindowDuration_anchor now r :
  lastWindowInfo (updateWindowDuration now r) = lastWindowInfo r.
Proof.
  unfold updateWindowDuration.
  destruct (lastWindowInfo r) eqn:E; simpl; congruence.
Qed.

Lemma updateWindowDuration_closed now r :
  lastWindowInfo r = None -> updateWindowDuration now r = r.
Proof. intros H. unfold updateWindowDuration. by rewrite H. Qed.

Lemma updateWindowDuration_frame now r :
  let r' := updateWindowDuration now r in
  options r' = options r /\ timer r' = timer r /\ recording r' = recording r /\
  paused r' = paused r /\ screenshots r' = screenshots r /\
  startTime r' = startTime r.
Proof. unfold updateWindowDuration. by destruct (lastWindowInfo r). Qed.

End Ledger.

(** ** Reading the statistics *)

Section Stats.

Import Recorder.

#[local] Existing Instance Scenario.asciiNames.

Implicit Types (r : Recorder.t) (w : World).

(** What a second [getStats()] reports, in terms of the first: the open
    window's whole time since its anchor is added again. *)
Lemma getStats_total t_flush t_end r w :
  RecordingStats.totalActiveSeconds (getStats t_flush t_end r w).1
  = sumValues (appUsage r) + openSeconds t_flush r.
Proof. simpl. apply updateWindowDuration_sum. Qed.

Lemma getStats_anchor t_flush t_end r w :
  lastWindowInfo (getStats t_flush t_end r w).2 = lastWindowInfo r.
Proof. simpl. apply updateWindowDuration_anchor. Qed.

(** The flush of [getStats()] does not move the anchor (the two lemmas
    above). Were the window inspection switched on, a session with an open
    window, anchored at time 0, would report 5 active seconds at 5000 ms
    and 10 at a second read at the very same clock reading. As the source
    stands no window is ever open. *)
Example getStats_twice_with_inspection_on :
  let '(r, w) := Scenario.open_session in
  let '(s1, r1) := getStats 5000 5000 r w in
  let '(s2, r2) := getStats 5000 5000 r1 w in
  lastWindowInfo r = Some {| app := "Editor"; title := "main.ts"; since := 0 |} /\
  lastWindowInfo r1 = lastWindowInfo r /\
  RecordingStats.totalActiveSeconds s1 = 5 /\
  RecordingStats.totalActiveSeconds s2 = 10.
Proof. vm_compute. auto. Qed.

(** C5 (counterexample). A session stopped at 60000 ms: [getStats()] read
    at 61000 ms and again at 62000 ms returns two different [endTime]
    values, and neither is the time of the stop. *)
Lemma endTime_not_fixed_at_stop :
  let '(r, w) := Scenario.stopped_session in
  let '(s1, r1) := getStats 61000 61000 r w in
  let '(s2, r2) := getStats 62000 62000 r1 w in
  recording r = false /\
  RecordingStats.endTime s1 = Some "1970-01-01T00:01:01.000Z" /\
  RecordingStats.endTime s2 = Some "1970-01-01T00:01:02.000Z" /\
  RecordingStats.endTime s1 <> RecordingStats.endTime s2 /\
  RecordingStats.endTime s1 <> Some (Js.toISOString 60000).
Proof. vm_compute. repeat split; congruence. Qed.

(** C5 (amended). [endTime] is null exactly while the [recording] flag is
    set; otherwise, and in particular in every [getStats()] after [stop()],
    it is the ISO rendering of the clock read by that very call. The
    recorder stores no end time. *)
Theorem endTime_is_time_of_call t_flush t_end now r w w' :
  RecordingStats.endTime (getStats t_flush t_end r w).1
  = (if recording r then None else Some (Js.toISOString t_end)) /\
  RecordingStats.endTime (getStats t_flush t_end (stop now r w).1 w').1
  = Some (Js.toISOString t_end).
Proof.
  split.
  - simpl. by destruct (updateWindowDuration_frame t_flush r) as (_ & _ & -> & _).
  - simpl.
    destruct (updateWindowDuration_frame t_flush (stop now r w).1) as (_ & _ & -> & _).
    unfold stop. destruct (timer (set_recording false r)); simpl;
      by destruct (updateWindowDuration_frame now (set_timer None (set_recording false r)))
        as (_ & _ & -> & _) ||
      by destruct (updateWindowDuration_frame now (set_recording false r))
        as (_ & _ & -> & _).
Qed.

(** C9. [isRecording()] is [recording && !paused]; after [pause()] it is
    false although [recording] is untouched, and after [stop()] it is
    false too: the method gives one answer for a paused and for a stopped
    session. *)
Theorem isRecording_conflates_paused_and_stopped now r w :
  isRecording r = recording r && negb (paused r) /\
  isRecording (pause now r w).1 = false /\
  recording (pause now r w).1 = recording r /\
  isRecording (stop now r w).1 = false /\
  recording (stop now r w).1 = false.
Proof.
  unfold isRecording, pause, stop. simpl.
  destruct (updateWindowDuration_frame now (set_paused true r))
    as (_ & _ & Hrec & Hp & _).
  rewrite Hrec, Hp. simpl.
  repeat split; try by rewrite andb_false_r.
  all: destruct (timer r); simpl;
    match goal with
    | |- context [updateWindowDuration ?t ?x] =>
        destruct (updateWindowDuration_frame t x) as (_ & _ & -> & _)
    end; done.
Qed.

(** The same re-accrual on the path of the [stop-recording] handler of
    index.ts, [recorder.stop()] followed by [recorder.getStats()]: the
    window open since 0 is flushed by both, at 5000 ms. *)
Example stop_then_getStats_counts_twice :
  let '(r, w) := Scenario.open_session in
  let '(r1, w1) := stop 5000 r w in
  sumValues (appUsage r1) = 5 /\
  RecordingStats.totalActiveSeconds (getStats 5000 5000 r1 w1).1 = 10.
Proof. vm_compute. auto. Qed.

End Stats.

(** ** One capture cycle *)

Section Capture.

Import Recorder.

Context {lowercase : Js.Lowercase}.

Implicit Types (r : Recorder.t) (w : World) (env : CaptureEnv).

(** The program as it stands resolves the sentinel in every cycle. *)
Lemma capture_resolves_unknown env r w :
  capture env r w = captureResolved Unknown "" env r w.
Proof. reflexivity. Qed.

(** With the window inspection on, a cycle that found a window works with
    the name and title found. *)
Lemma captureUsing_found env r w owner_name title :
  activeWin env = WinFound owner_name title ->
  captureUsing true env r w = captureResolved owner_name title env r w.
Proof. intros H. unfold captureUsing, resolveWindow. by rewrite H. Qed.

(** C6. A cycle whose identity is the sentinel leaves the recorder object
    as it was, [lastWindowInfo] and [appUsage] included, and a cycle whose
    screenshot and writes succeed still appends its record to the
    screenshot array; a cycle that fails appends nothing. *)
Theorem unknown_capture_skips_bookkeeping windowTitle env r w l :
  arrays w !! screenshots r = Some l ->
  (captureResolved Unknown windowTitle env r w).1 = r /\
  (forall img, io env = Captured img ->
     arrays (captureResolved Unknown windowTitle env r w).2 !! screenshots r
     = Some (l ++ [recordOf Unknown windowTitle env r])) /\
  ((forall img, io env <> Captured img) ->
     arrays (captureResolved Unknown windowTitle env r w).2 = arrays w).
Proof.
  intros Hl. unfold captureResolved.
  rewrite bool_decide_eq_false_2 by (intros H; by apply H). simpl.
  repeat split.
  - by destruct (io env).
  - intros img ->. simpl. rewrite lookup_alter_eq. simpl. by rewrite Hl.
  - intros Hno. destruct (io env) as [ | | |img]; try done.
    by destruct (Hno img).
Qed.

End Capture.

Section CaptureExamples.

Import Recorder.

#[local] Existing Instance Scenario.asciiNames.

Lemma isExcludedApp_slack :
  isExcludedApp Scenario.slack_recorder.1 "Slack for Desktop" = true.
Proof. vm_compute. reflexivity. Qed.

Lemma unknown_capture_skips_bookkeeping_witness :
  let r := Scenario.shipped_session.1 in
  let w := Scenario.shipped_session.2 in
  (captureResolved Unknown "" Scenario.slack_env r w).1 = r /\
  (forall img, io Scenario.slack_env = Captured img ->
     arrays (captureResolved Unknown "" Scenario.slack_env r w).2 !! screenshots r
     = Some (readArray (screenshots r) w
             ++ [recordOf Unknown "" Scenario.slack_env r])) /\
  ((forall img, io Scenario.slack_env <> Captured img) ->
     arrays (captureResolved Unknown "" Scenario.slack_env r w).2 = arrays w).
Proof.
  apply (unknown_capture_skips_bookkeeping "" Scenario.slack_env
           Scenario.shipped_session.1 Scenario.shipped_session.2).
  vm_compute. reflexivity.
Defined.

(** With the window inspection on, the whole cycle for a foreground
    "Slack for Desktop" is that suppressed one; with the program as it
    stands the identity is never resolved, the deny-list is not consulted
    and the screenshot is taken. *)
Example slack_cycle_inspection_on :
  captureUsing true Scenario.slack_env
    Scenario.slack_recorder.1 Scenario.slack_recorder.2
  = (Scenario.slack_recorder.1,
     log "Excluded app: Slack for Desktop" Scenario.slack_recorder.2).
Proof. reflexivity. Qed.

Example slack_cycle_as_shipped :
  let s' := capture Scenario.slack_env
              Scenario.slack_recorder.1 Scenario.slack_recorder.2 in
  length (readArray (screenshots s'.1) s'.2) = 1%nat /\
  appName <$> readArray (screenshots s'.1) s'.2 = ["Unknown"].
Proof. vm_compute. auto. Qed.

End CaptureExamples.

(** ** Accounting over several operations *)

Section Accounting.

Import Recorder.

Context {lowercase : Js.Lowercase}.

Implicit Types (r : Recorder.t) (w : World) (env : CaptureEnv).

(** The recorder a cycle leaves behind when it resolved an application
    that is not on the deny-list: flush, then re-anchor. *)
Lemma captureResolved_known a ti env r w :
  a <> Unknown -> isExcludedApp r a = false ->
  (captureResolved a ti env r w).1
  = set_lastWindowInfo (Some {| app := a; title := ti; since := t_since env |})
      (updateWindowDuration (t_flush env) r).
Proof.
  intros Ha Hex. unfold captureResolved.
  rewrite bool_decide_eq_true_2 by done. rewrite Hex. simpl.
  by destruct (io env).
Qed.

(** C4. From a ledger with no open window and no time yet for application
    [A], a name that is not on the deny-list and under which the usage
    object holds own properties only: [A] captured with anchor [t0],
    [pause()] ten seconds later, [resume()], and [A] captured again (at
    [t0] + 110 s or at any other time) leave exactly 10 seconds for [A];
    the gap between the pause and the second capture is in no total, and
    the second capture opens a new window of its own. *)
Theorem pause_resume_gap_excluded A title1 title2 env1 env2 r w t0 :
  A <> Unknown ->
  Js.plainKey A = true ->
  isExcludedApp r A = false ->
  lastWindowInfo r = None ->
  appUsage r !! A = None ->
  t_since env1 = t0 ->
  let s1 := captureResolved A title1 env1 r w in
  let s2 := pause (t0 + 10000) s1.1 s1.2 in
  let s3 := resume s2.1 s2.2 in
  let s4 := captureResolved A title2 env2 s3.1 s3.2 in
  appUsage s4.1 !! A = Some 10 /\
  sumValues (appUsage s4.1) = sumValues (appUsage r) + 10 /\
  lastWindowInfo s4.1
  = Some {| app := A; title := title2; since := t_since env2 |}.
Proof.
  intros HA _ Hex Hclosed Hfresh Ht0 s1 s2 s3 s4.
  assert (Hs1 : s1.1 = set_lastWindowInfo
                  (Some {| app := A; title := title1; since := t0 |}) r).
  { subst s1. rewrite captureResolved_known by done.
    rewrite updateWindowDuration_closed by done. by rewrite Ht0. }
  assert (Hs3 : s3.1 = set_lastWindowInfo None (set_paused false
                  (set_appUsage (<[A := 10]> (appUsage r)) (set_paused true
                     (set_lastWindowInfo
                        (Some {| app := A; title := title1; since := t0 |}) r))))).
  { subst s3 s2. simpl. rewrite Hs1. unfold updateWindowDuration. simpl.
    rewrite Hfresh. simpl. replace (t0 + 10000 - t0) with 10000 by lia.
    reflexivity. }
  assert (Hs4 : s4.1 = set_lastWindowInfo
                  (Some {| app := A; title := title2; since := t_since env2 |})
                  s3.1).
  { subst s4. rewrite captureResolved_known; [| done | by rewrite Hs3].
    rewrite updateWindowDuration_closed; [done | by rewrite Hs3]. }
  rewrite Hs4, Hs3. simpl. repeat split.
  - apply lookup_insert_eq.
  - rewrite sumValues_insert, Hfresh. simpl. lia.
Qed.

(** The recorder object an operation leaves behind does not depend on the
    world it ran in. *)
Lemma applyOp_recorder o r w w' : (applyOp (r, w) o).1 = (applyOp (r, w') o).1.
Proof.
  destruct o as [a ti env| | | |]; simpl; try done.
  - unfold captureResolved.
    destruct (bool_decide (a ≠ Unknown) && isExcludedApp r a); [done|].
    by destruct (io env).
  - unfold stop. by destruct (timer (set_recording false r)).
Qed.

Lemma applyOps_cons o os s : applyOps (o :: os) s = applyOps os (applyOp s o).
Proof. reflexivity. Qed.

Lemma applyOps_recorder os r w w' :
  (applyOps os (r, w)).1 = (applyOps os (r, w')).1.
Proof.
  revert r w w'. induction os as [|o os IH]; intros r w w'; [done|].
  rewrite !applyOps_cons.
  pose proof (applyOp_recorder o r w w') as Ho.
  destruct (applyOp (r, w) o) as [r1 w1], (applyOp (r, w') o) as [r2 w2].
  simpl in Ho. subst r2. apply IH.
Qed.

Lemma unknown_cycle_recorder ti env r w :
  (captureResolved Unknown ti env r w).1 = r.
Proof.
  unfold captureResolved.
  rewrite bool_decide_eq_false_2 by (intros H; by apply H). simpl.
  by destruct (io env).
Qed.

Lemma applyOps_drop_unknown os r w :
  (applyOps os (r, w)).1 = (applyOps (List.filter attributed os) (r, w)).1.
Proof.
  revert r w. induction os as [|o os IH]; intros r w; [done|].
  cbn [List.filter]. destruct (attributed o) eqn:Ho.
  - rewrite !applyOps_cons. destruct (applyOp (r, w) o) as [r1 w1]. apply IH.
  - destruct o as [a ti env| | | |]; try discriminate. simpl in Ho.
    apply bool_decide_eq_false in Ho.
    assert (a = Unknown) as -> by (destruct (decide (a = Unknown)); [done | by destruct Ho]).
    rewrite applyOps_cons. cbn [applyOp].
    pose proof (unknown_cycle_recorder ti env r w) as Hr.
    destruct (captureResolved Unknown ti env r w) as [r1 w1]. simpl in Hr. subst r1.
    rewrite <- IH. apply applyOps_recorder.
Qed.

(** As the program stands, no window is ever open and no usage is ever
    recorded, whatever happens to the recorder. *)
Lemma step_idle e r w : idle r -> idle (stepUsing USE_ACTIVE_WIN (r, w) e).1.
Proof.
  intros [Hw Hu]. unfold idle.
  destruct e as [now|now|now| |h env|tf te| |i|tf te]; simpl.
  - unfold start, scheduleCapture. simpl. done.
  - unfold stop. destruct (timer (set_recording false r)); simpl;
      rewrite updateWindowDuration_closed; done.
  - rewrite updateWindowDuration_closed; done.
  - done.
  - unfold tickUsing. destruct (bool_decide (h ∈ timers w)); [|done].
    destruct (paused r) eqn:Hp.
    + unfold scheduleCapture. by destruct (recording r).
    + change (captureUsing USE_ACTIVE_WIN env r (clearTimeout h w))
        with (captureResolved Unknown "" env r (clearTimeout h w)).
      pose proof (unknown_cycle_recorder "" env r (clearTimeout h w)) as Hr.
      destruct (captureResolved Unknown "" env r (clearTimeout h w)) as [r1 w1].
      simpl in Hr. subst r1. unfold scheduleCapture. by destruct (recording r).
  - rewrite updateWindowDuration_closed; done.
  - done.
  - done.
  - rewrite updateWindowDuration_closed; done.
Qed.

Lemma run_idle es r w : idle r -> idle (run es (r, w)).1.
Proof.
  revert r w. induction es as [|e es IH]; intros r w Hi; [done|].
  unfold run, runUsing in *. cbn [foldl].
  pose proof (step_idle e r w Hi) as H1.
  destruct (stepUsing USE_ACTIVE_WIN (r, w) e) as [r1 w1]. by apply IH.
Qed.

(** ** The program as it stands: every cycle is under the sentinel *)

(** What a cycle of the program as it stands does when it lands: the
    recorder object is as it was, and the record, if any, is pushed. *)
Lemma capture_lands env r w :
  (capture env r w).1 = r /\
  timers (capture env r w).2 = timers w /\
  fresh (capture env r w).2 = fresh w /\
  arrays (capture env r w).2
  = match landed r env with
    | Some rec => alter (λ xs, xs ++ [rec]) (screenshots r) (arrays w)
    | None => arrays w
    end.
Proof.
  unfold landed.
  change (capture env r w) with (captureResolved Unknown "" env r w).
  unfold captureResolved.
  rewrite bool_decide_eq_false_2 by (intros Hne; by apply Hne). simpl.
  by destruct (io env).
Qed.

Lemma scheduleCapture_frame r w :
  let s := scheduleCapture r w in
  lastWindowInfo s.1 = lastWindowInfo r /\ appUsage s.1 = appUsage r /\
  screenshots s.1 = screenshots r /\ recording s.1 = recording r /\
  paused s.1 = paused r /\ options s.1 = options r /\
  startTime s.1 = startTime r /\
  arrays s.2 = arrays w /\ files s.2 = files w /\ console s.2 = console w /\
  (fresh w <= fresh s.2)%nat.
Proof.
  unfold scheduleCapture. destruct (recording r) eqn:Hrec; simpl;
    rewrite ?Hrec; repeat apply conj; try done; lia.
Qed.

Lemma calm_frame r w r' w' :
  calm r w ->
  lastWindowInfo r' = lastWindowInfo r -> appUsage r' = appUsage r ->
  screenshots r' = screenshots r ->
  arrays w' = arrays w -> (fresh w <= fresh w')%nat ->
  calm r' w'.
Proof.
  intros [[Hw Hu] [Hlt Hall]] Hw' Hu' Hs' Ha' Hf'.
  repeat split.
  - by rewrite Hw'.
  - by rewrite Hu'.
  - rewrite Hs'. lia.
  - unfold readArray in *. by rewrite Hs', Ha'.
Qed.

Lemma new_calm intervalMs dataDir excludedApps w0 :
  calm (new intervalMs dataDir excludedApps w0).1
       (new intervalMs dataDir excludedApps w0).2.
Proof.
  unfold new, newArray, calm, idle, sentinelOnly, readArray. simpl.
  rewrite lookup_insert_eq. simpl. repeat split; [lia | constructor].
Qed.

Lemma capture_calm env r w :
  calm r w -> calm (capture env r w).1 (capture env r w).2.
Proof.
  intros Hc. destruct (capture_lands env r w) as (Hr & _ & Hf & Ha).
  destruct Hc as [Hi [Hlt Hall]]. rewrite Hr.
  split; [done|]. split; [by rewrite Hf|].
  unfold readArray in *. rewrite Ha. unfold landed.
  destruct (io env); try done.
  rewrite lookup_alter_eq.
  destruct (arrays w !! screenshots r) as [l|]; simpl in *; [|constructor].
  apply Forall_app. split; [done|]. by constructor.
Qed.

Lemma step_calm e r w :
  calm r w ->
  calm (stepUsing USE_ACTIVE_WIN (r, w) e).1 (stepUsing USE_ACTIVE_WIN (r, w) e).2.
Proof.
  intros Hc. pose proof Hc as [[Hw Hu] [Hlt Hall]].
  destruct e as [now|now|now| |h env|tf te| |i|tf te]; simpl.
  - unfold start, newArray, scheduleCapture, setTimeout, calm, idle,
      sentinelOnly, readArray. simpl.
    rewrite lookup_insert_eq. simpl. repeat apply conj; [done | done | lia | constructor].
  - unfold stop. change (timer (set_recording false r)) with (timer r).
    destruct (timer r); simpl; rewrite updateWindowDuration_closed by done;
      by eapply calm_frame.
  - unfold pause. simpl. rewrite updateWindowDuration_closed by done.
    by eapply calm_frame.
  - by eapply calm_frame.
  - unfold tickUsing. destruct (bool_decide (h ∈ timers w)); [|done].
    assert (Hc0 : calm r (clearTimeout h w)) by (by eapply calm_frame).
    destruct (paused r).
    + destruct (scheduleCapture_frame r (clearTimeout h w))
        as (A1 & A2 & A3 & _ & _ & _ & _ & A4 & _ & _ & A5).
      by eapply calm_frame.
    + pose proof (capture_calm env r (clearTimeout h w) Hc0) as Hc1.
      change (captureUsing USE_ACTIVE_WIN env r (clearTimeout h w))
        with (capture env r (clearTimeout h w)).
      destruct (capture env r (clearTimeout h w)) as [r1 w1]. simpl in Hc1.
      destruct (scheduleCapture_frame r1 w1)
        as (A1 & A2 & A3 & _ & _ & _ & _ & A4 & _ & _ & A5).
      by eapply calm_frame.
  - rewrite updateWindowDuration_closed by done. done.
  - unfold getScreenshots, newArray. simpl. split; [done|].
    split; simpl; [lia|]. unfold readArray in *. simpl.
    rewrite lookup_insert_ne by lia. done.
  - unfold deleteScreenshot.
    destruct (list_find _ _) as [[index record]|]; [|done]. simpl.
    split; [done|]. split; [done|]. unfold readArray in *. simpl.
    rewrite lookup_alter_eq.
    destruct (arrays w !! screenshots r) as [l|]; simpl in *; [|constructor].
    by apply Forall_delete.
  - unfold exportData. simpl. rewrite updateWindowDuration_closed by done. done.
Qed.

Lemma stepFlying_calm x (s : InFlight) :
  calm s.1.1 s.1.2 -> calm (stepFlying s x).1.1 (stepFlying s x).1.2.
Proof.
  destruct s as [[r w] flying]. simpl. intros Hc.
  destruct x as [e|h env|i]; simpl.
  - by apply step_calm.
  - destruct (bool_decide (h ∈ timers w)); [|done].
    assert (Hc0 : calm r (clearTimeout h w)) by (by eapply calm_frame).
    destruct (paused r); [|done].
    destruct (scheduleCapture_frame r (clearTimeout h w))
      as (A1 & A2 & A3 & _ & _ & _ & _ & A4 & _ & _ & A5).
    destruct (scheduleCapture r (clearTimeout h w)) as [r1 w1].
    by eapply calm_frame.
  - destruct (flying !! i) as [env|]; [|done].
    pose proof (capture_calm env r w Hc) as Hc1.
    destruct (capture env r w) as [r1 w1]. simpl in Hc1.
    destruct (scheduleCapture_frame r1 w1)
      as (A1 & A2 & A3 & _ & _ & _ & _ & A4 & _ & _ & A5).
    destruct (scheduleCapture r1 w1) as [r2 w2].
    by eapply calm_frame.
Qed.

Lemma runFlying_calm xs (s : InFlight) :
  calm s.1.1 s.1.2 -> calm (runFlying xs s).1.1 (runFlying xs s).1.2.
Proof.
  revert s. induction xs as [|x xs IH]; intros s Hc; [done|].
  unfold runFlying in *. cbn [foldl]. apply IH. by apply stepFlying_calm.
Qed.

Lemma specAttributedSeconds_sentinel (samples : list (Z * string)) :
  Forall (λ p, p.2 = Unknown) samples -> specAttributedSeconds samples = 0.
Proof.
  induction 1 as [|[t1 a] rest Ha Hrest IH]; [done|].
  simpl in Ha. subst a.
  change (specAttributedSeconds ((t1, Unknown) :: rest))
    with (match rest with
          | [] => 0
          | (t2, _) :: _ =>
              (if bool_decide (Unknown = Unknown) then 0 else (t2 - t1) / 1000)
              + specAttributedSeconds rest
          end).
  destruct rest as [|[t2 b] rest']; [done|].
  rewrite bool_decide_eq_true_2 by done. rewrite IH. done.
Qed.


(** C3. In every state the program can reach, the usage totals hold what
    was attributed to known applications, which is nothing: every cycle
    works under the sentinel identity, every record kept carries it, no
    window is open, no application has a total and the sum of the totals
    is 0, which is what the specification's measure gives for samples
    that are all under the sentinel, whatever their times. The time under
    the sentinel is in nobody's total. *)
Theorem unattributed_time_is_dropped xs intervalMs dataDir excludedApps w0 :
  let s := runFlying xs (Recorder.new intervalMs dataDir excludedApps w0, []) in
  (forall env r w, capture env r w = captureResolved Unknown "" env r w) /\
  Forall (λ rec, appName rec = Unknown) (readArray (screenshots s.1.1) s.1.2) /\
  lastWindowInfo s.1.1 = None /\
  (forall name, appUsage s.1.1 !! name = None) /\
  sumValues (appUsage s.1.1) = 0 /\
  (forall samples, Forall (λ p, p.2 = Unknown) samples ->
     sumValues (appUsage s.1.1) = specAttributedSeconds samples).
Proof.
  intros s.
  assert (Hc : calm s.1.1 s.1.2).
  { subst s. apply runFlying_calm. apply new_calm. }
  destruct Hc as [[Hw Hu] [_ Hall]].
  repeat apply conj; try done.
  - intros name. by rewrite Hu.
  - by rewrite Hu, sumValues_empty.
  - intros samples Hs. rewrite Hu, sumValues_empty.
    by rewrite specAttributedSeconds_sentinel.
Qed.

End Accounting.

Section AccountingExamples.

Import Recorder.

#[local] Existing Instance Scenario.asciiNames.

Lemma pause_resume_gap_excluded_witness :
  let r := Scenario.started.1 in
  let w := Scenario.started.2 in
  let s1 := captureResolved "Editor" "main.ts" (Scenario.env_at 5000 "a") r w in
  let s2 := pause (5000 + 10000) s1.1 s1.2 in
  let s3 := resume s2.1 s2.2 in
  let s4 := captureResolved "Editor" "main.ts"
              (Scenario.env_at (5000 + 110000) "b") s3.1 s3.2 in
  appUsage s4.1 !! "Editor" = Some 10 /\
  sumValues (appUsage s4.1) = sumValues (appUsage r) + 10 /\
  lastWindowInfo s4.1
  = Some {| app := "Editor"; title := "main.ts";
            since := t_since (Scenario.env_at (5000 + 110000) "b") |}.
Proof.
  apply (pause_resume_gap_excluded "Editor" "main.ts" "main.ts"
           (Scenario.env_at 5000 "a") (Scenario.env_at (5000 + 110000) "b")
           Scenario.started.1 Scenario.started.2 5000).
  - apply (bool_decide_unpack _). vm_compute. exact I.
  - reflexivity.
  - vm_compute. reflexivity.
  - vm_compute. reflexivity.
  - vm_compute. reflexivity.
  - reflexivity.
Defined.

(** Were the window inspection switched on, an interval under the
    sentinel would stay with the window that was open: "Editor" seen at
    0 s, no identity at 10 s, "Mail" at 20 s would leave "Editor" with 20
    seconds, where the specification's measure gives it 10. As the source
    stands no cycle resolves an application. *)
Example unknown_interval_with_inspection_on :
  let s := applyOps Scenario.three_cycles Scenario.started in
  appUsage s.1 !! "Editor" = Some 20 /\
  sumValues (appUsage s.1) = 20 /\
  specSecondsOf "Editor" Scenario.three_samples = 10 /\
  specAttributedSeconds Scenario.three_samples = 10.
Proof. vm_compute. repeat split; congruence. Qed.

(** A statistics read between [pause()] and [resume()] is outside the
    scenario of C4; it flushes the window that [pause()] left anchored and
    so counts paused time: "Editor" seen at 0, pause at 10 s, a read at
    60 s, resume, "Editor" seen at 110 s. *)
Example getStats_while_paused_counts_the_gap :
  let s := applyOps [OpCapture "Editor" "main.ts" (Scenario.env_at 0 "a");
                     OpPause 10000; OpGetStats 60000 60000; OpResume;
                     OpCapture "Editor" "main.ts" (Scenario.env_at 110000 "b")]
             Scenario.started in
  appUsage s.1 !! "Editor" = Some 70.
Proof. vm_compute. reflexivity. Qed.

End AccountingExamples.

(** ** Handing the screenshots out *)

Section Handout.

Import Recorder.

#[local] Existing Instance Scenario.asciiNames.

Implicit Types (r : Recorder.t) (w : World).

(** C10. [getScreenshots()] builds a new array object, other than the
    recorder's, whose records are the recorder's with [filePath] and
    [thumbnailPath] cut down to their base names, and leaves the
    recorder's array as it was. [exportData()] redacts nothing and copies
    nothing: the reference it returns is the recorder's own array, so what
    is read through it, now or after later pushes and deletions, is what
    the recorder holds, full paths included. *)
Theorem redaction_only_in_getScreenshots t_flush t_end r w :
  (screenshots r < fresh w)%nat ->
  let g := getScreenshots r w in
  let e := exportData t_flush t_end r w in
  g.1 <> screenshots r /\
  readArray g.1 g.2 = redact <$> readArray (screenshots r) w /\
  filePath <$> readArray g.1 g.2
  = (λ s, Js.basename (filePath s)) <$> readArray (screenshots r) w /\
  thumbnailPath <$> readArray g.1 g.2
  = (λ s, Js.basename (thumbnailPath s)) <$> readArray (screenshots r) w /\
  readArray (screenshots r) g.2 = readArray (screenshots r) w /\
  ExportData.screenshots e.1 = screenshots r /\
  screenshots e.2 = screenshots r /\
  (forall w2, readArray (ExportData.screenshots e.1) w2
              = readArray (screenshots e.2) w2).
Proof.
  intros Hwf g e.
  assert (Hg1 : g.1 = fresh w) by reflexivity.
  assert (Hread : readArray g.1 g.2 = redact <$> readArray (screenshots r) w).
  { subst g. unfold getScreenshots, newArray, readArray. simpl.
    by rewrite lookup_insert_eq. }
  assert (He : ExportData.screenshots e.1 = screenshots r /\
               screenshots e.2 = screenshots r).
  { subst e. unfold exportData, getStats. simpl.
    by destruct (updateWindowDuration_frame t_flush r) as (_ & _ & _ & _ & -> & _). }
  destruct He as [He1 He2].
  repeat apply conj.
  - rewrite Hg1. lia.
  - exact Hread.
  - rewrite Hread, <- list_fmap_compose. done.
  - rewrite Hread, <- list_fmap_compose. done.
  - subst g. unfold getScreenshots, newArray, readArray. simpl.
    rewrite lookup_insert_ne by lia. done.
  - exact He1.
  - exact He2.
  - intros w2. by rewrite He1, He2.
Qed.

Lemma redaction_only_in_getScreenshots_witness :
  let r := Scenario.shipped_session.1 in
  let w := Scenario.shipped_session.2 in
  let g := getScreenshots r w in
  let e := exportData 1000 1000 r w in
  g.1 <> screenshots r /\
  readArray g.1 g.2 = redact <$> readArray (screenshots r) w /\
  filePath <$> readArray g.1 g.2
  = (λ s, Js.basename (filePath s)) <$> readArray (screenshots r) w /\
  thumbnailPath <$> readArray g.1 g.2
  = (λ s, Js.basename (thumbnailPath s)) <$> readArray (screenshots r) w /\
  readArray (screenshots r) g.2 = readArray (screenshots r) w /\
  ExportData.screenshots e.1 = screenshots r /\
  screenshots e.2 = screenshots r /\
  (forall w2, readArray (ExportData.screenshots e.1) w2
              = readArray (screenshots e.2) w2).
Proof.
  apply (redaction_only_in_getScreenshots 1000 1000
           Scenario.shipped_session.1 Scenario.shipped_session.2).
  vm_compute. lia.
Defined.

(** The two handouts on a session with one screenshot: the paths each one
    shows, and what each shows after one more cycle has pushed a record. *)
Example handouts_after_one_capture :
  let r := Scenario.shipped_session.1 in
  let w := Scenario.shipped_session.2 in
  let g := getScreenshots r w in
  let e := exportData 1000 1000 r g.2 in
  let s' := capture (Scenario.env_at 60000 "id-1") e.2 g.2 in
  filePath <$> readArray g.1 g.2 = ["1970-01-01T00-00-00-000Z.jpg"] /\
  thumbnailPath <$> readArray g.1 g.2 = ["1970-01-01T00-00-00-000Z.jpg"] /\
  filePath <$> readArray (ExportData.screenshots e.1) g.2
  = ["/data/recordings/screenshots/1970-01-01T00-00-00-000Z.jpg"] /\
  thumbnailPath <$> readArray (ExportData.screenshots e.1) g.2
  = ["/data/recordings/thumbnails/1970-01-01T00-00-00-000Z.jpg"] /\
  length (readArray g.1 s'.2) = 1%nat /\
  filePath <$> readArray (ExportData.screenshots e.1) s'.2
  = ["/data/recordings/screenshots/1970-01-01T00-00-00-000Z.jpg";
     "/data/recordings/screenshots/1970-01-01T00-01-00-000Z.jpg"].
Proof. vm_compute. repeat split. Qed.

End Handout.

(** ** Asynchronous computations that keep a relation *)

Section Keeps.

Context {S : Type} (R : relation S) `{!PreOrder R}.

Lemma keeps_ret {A} (a : A) : Async.keeps R (Async.ret a).
Proof. intros s. simpl. reflexivity. Qed.

Lemma keeps_throw {A} err : Async.keeps R (@Async.throw S A err).
Proof. intros s. simpl. reflexivity. Qed.

Lemma keeps_get : Async.keeps R (@Async.get S).
Proof. intros s. simpl. reflexivity. Qed.

Lemma keeps_await {A} (o : Outcome A) : Async.keeps R (@Async.await S A o).
Proof. intros s. simpl. reflexivity. Qed.

Lemma keeps_modify (f : S -> S) :
  (forall s, R s (f s)) -> Async.keeps R (Async.modify f).
Proof. intros Hf s. apply Hf. Qed.

Lemma keeps_bind {A B} (m : @Async.M S A) (k : A -> @Async.M S B) :
  Async.keeps R m -> (forall a, Async.keeps R (k a)) ->
  Async.keeps R (Async.bind m k).
Proof.
  intros Hm Hk s. unfold Async.bind. specialize (Hm s).
  destruct (m s) as [[a|err] s1]; simpl in *; [|done].
  etransitivity; [exact Hm | apply Hk].
Qed.

Lemma keeps_try {A} (m : @Async.M S A) handler :
  Async.keeps R m -> (forall err, Async.keeps R (handler err)) ->
  Async.keeps R (Async.try m handler).
Proof.
  intros Hm Hk s. unfold Async.try. specialize (Hm s).
  destruct (m s) as [[a|err] s1]; simpl in *; [done|].
  etransitivity; [exact Hm | apply Hk].
Qed.

End Keeps.

#[local] Instance sentMore_preorder P : PreOrder (sentMore P).
Proof.
  split.
  - intros s. exists []. by rewrite app_nil_r.
  - intros s1 s2 s3 (qs & H1 & HP) (qs' & H2 & HP').
    exists (qs ++ qs'). rewrite H2, H1, app_assoc. split; [done|].
    by apply Forall_app.
Qed.

#[local] Instance storeKept_preorder : PreOrder storeKept.
Proof.
  split.
  - intros s. by repeat split.
  - intros s1 s2 s3 (A1 & F1 & T1 & N1) (A2 & F2 & T2 & N2).
    repeat split; congruence.
Qed.

#[local] Instance onSys_preorder (R : relation Sys) `{!PreOrder R} :
  PreOrder (GoogleDriveUploader.onSys R).
Proof.
  split.
  - intros st. unfold GoogleDriveUploader.onSys. reflexivity.
  - intros s1 s2 s3 H1 H2. unfold GoogleDriveUploader.onSys in *.
    by etransitivity.
Qed.

(** The two relations under one more request and one more logged line. *)
Lemma sentMore_send P s q :
  P q -> sentMore P s {| world := world s; sent := sent s ++ [q] |}.
Proof. intros Hq. exists [q]. simpl. auto. Qed.

Lemma sentMore_log P line s : sentMore P s (sysLog line s).
Proof. exists []. simpl. by rewrite app_nil_r. Qed.

Lemma storeKept_send s q :
  storeKept s {| world := world s; sent := sent s ++ [q] |}.
Proof. by repeat split. Qed.

Lemma storeKept_log line s : storeKept s (sysLog line s).
Proof. by repeat split. Qed.

(** ** The transfer to the remote storage *)

Section Transfer.

Import GoogleDriveUploader.

Variable net : Net.

Implicit Types (st : St) (q : Request).

(** The methods of the uploader keep any relation on the system that
    holds across sending one of their preliminary requests and across
    logging a line. *)
Section Preliminaries.

Context (R : relation Sys) `{!PreOrder R}.
Hypothesis R_send : forall s q,
  preliminary q -> R s {| world := world s; sent := sent s ++ [q] |}.
Hypothesis R_log : forall line s, R s (sysLog line s).

Lemma fetch_keeps q : preliminary q -> Async.keeps (onSys R) (fetch net q).
Proof. intros Hq [this s]. unfold onSys. simpl. by apply R_send. Qed.

Lemma json_keeps resp : Async.keeps (onSys R) (@json resp).
Proof.
  unfold json. destruct (json_rejects resp);
    [apply keeps_throw | apply keeps_ret]; apply _.
Qed.

Lemma consoleLog_keeps line : Async.keeps (onSys R) (consoleLog line).
Proof. apply keeps_modify. intros [this s]. apply R_log. Qed.

Lemma getAccessToken_keeps now_ms :
  Async.keeps (onSys R) (getAccessToken net now_ms).
Proof.
  unfold getAccessToken.
  apply keeps_bind; [apply _ | apply keeps_get; apply _ |]. intros st.
  destruct (tokenStillValid _ _); [apply keeps_ret; apply _|].
  apply keeps_bind; [apply _ | by apply fetch_keeps |]. intros resp.
  destruct (negb (ok resp)); [apply keeps_throw; apply _|].
  apply keeps_bind; [apply _ | apply json_keeps |]. intros data.
  apply keeps_bind; [apply _ | | intros; apply keeps_ret; apply _].
  apply keeps_modify. intros [this s]. unfold onSys. simpl. reflexivity.
Qed.

Lemma getOrCreateFolder_keeps folderName parentId token :
  Async.keeps (onSys R) (getOrCreateFolder net folderName parentId token).
Proof.
  unfold getOrCreateFolder.
  apply keeps_bind; [apply _ | by apply fetch_keeps |]. intros resp.
  destruct (negb (ok resp)); [apply keeps_throw; apply _|].
  apply keeps_bind; [apply _ | apply json_keeps |]. intros found.
  destruct (found_files found); [|apply keeps_ret; apply _].
  apply keeps_bind; [apply _ | by apply fetch_keeps |]. intros created.
  destruct (negb (ok created)); [apply keeps_throw; apply _|].
  apply keeps_bind; [apply _ | apply json_keeps |]. intros result.
  apply keeps_bind; [apply _ | apply consoleLog_keeps |]. intros _.
  apply keeps_ret; apply _.
Qed.

Lemma resolveTarget_keeps now_ms projectName subjectName :
  Async.keeps (onSys R) (resolveTarget net now_ms projectName subjectName).
Proof.
  unfold resolveTarget.
  apply keeps_bind; [apply _ | apply getAccessToken_keeps |]. intros token.
  apply keeps_bind; [apply _ | apply keeps_get; apply _ |]. intros st.
  apply keeps_bind; [apply _ | apply getOrCreateFolder_keeps |]. intros project.
  apply keeps_bind; [apply _ | | intros; apply keeps_ret; apply _].
  destruct subjectName as [name|]; [|apply keeps_ret; apply _].
  destruct (bool_decide (name = "")); [apply keeps_ret; apply _|].
  apply getOrCreateFolder_keeps.
Qed.

End Preliminaries.

Lemma resolveTarget_preliminary now_ms projectName subjectName st :
  exists qs,
    sent (resolveTarget net now_ms projectName subjectName st).2.2
    = sent st.2 ++ qs /\ Forall preliminary qs.
Proof.
  apply (resolveTarget_keeps (sentMore preliminary)).
  - intros s q Hq. by apply sentMore_send.
  - intros line s. apply sentMore_log.
Qed.

(** Below the limit: one request, the multipart one. *)
Lemma transfer_small token metadata fileSize fileBuffer st :
  fileSize < 5 * 1024 * 1024 ->
  sent (transfer net token metadata fileSize fileBuffer st).2.2
  = sent st.2 ++ [multipartRequest token metadata fileBuffer] /\
  (forall res,
     (transfer net token metadata fileSize fileBuffer st).1 = Returns res ->
     exists resp, res = successFrom resp).
Proof.
  intros Hlt. unfold transfer.
  replace (fileSize <? SIMPLE_UPLOAD_LIMIT) with true
    by (symmetry; apply Z.ltb_lt; unfold SIMPLE_UPLOAD_LIMIT; lia).
  destruct st as [this s]. unfold Async.bind, fetch. simpl.
  destruct (net (sent s) _) as [resp|err]; simpl; [|split; [done|discriminate]].
  destruct (ok resp); simpl; [|split; [done|discriminate]].
  unfold json. destruct (json_rejects resp); simpl; [split; [done|discriminate]|].
  split; [done|]. intros res [= <-]. by exists resp.
Qed.

(** At or above the limit: the initiating request, then, when it was
    answered with an upload URL, the request that streams the bytes. *)
Lemma transfer_large token metadata fileSize fileBuffer st :
  5 * 1024 * 1024 <= fileSize ->
  (sent (transfer net token metadata fileSize fileBuffer st).2.2
   = sent st.2 ++ [initiateRequest token metadata fileSize] /\
   exists err, (transfer net token metadata fileSize fileBuffer st).1 = Throws err)
  \/
  (exists uploadUrl,
     sent (transfer net token metadata fileSize fileBuffer st).2.2
     = sent st.2 ++ [initiateRequest token metadata fileSize;
                     streamRequest uploadUrl fileSize fileBuffer] /\
     forall res,
       (transfer net token metadata fileSize fileBuffer st).1 = Returns res ->
       exists resp, res = successFrom resp).
Proof.
  intros Hge. unfold transfer.
  replace (fileSize <? SIMPLE_UPLOAD_LIMIT) with false
    by (symmetry; apply Z.ltb_ge; unfold SIMPLE_UPLOAD_LIMIT; lia).
  destruct st as [this s]. unfold Async.bind, fetch. simpl.
  destruct (net (sent s) _) as [init|err]; simpl; [|left; eauto].
  destruct (ok init); simpl; [|left; eauto].
  destruct (location init) as [uploadUrl|]; simpl; [|left; eauto].
  destruct (bool_decide (uploadUrl = "")); simpl; [left; eauto|].
  right. exists uploadUrl. rewrite <- app_assoc. simpl.
  destruct (net _ _) as [resp|err]; simpl; [|split; [done|discriminate]].
  destruct (ok resp); simpl; [|split; [done|discriminate]].
  unfold json. destruct (json_rejects resp); simpl; [split; [done|discriminate]|].
  split; [done|]. intros res [= <-]. by exists resp.
Qed.

Local Ltac settle :=
  repeat (apply conj || intro); simpl in *; eauto 10;
  try discriminate; try lia.

(** What [uploadZip] returns when its [try] has thrown [err]. *)
Lemma uploadZip_caught now_ms zip fileName projectName subjectName st err st1 :
  uploadZipBody net now_ms zip fileName projectName subjectName st
  = (Throws err, st1) ->
  (uploadZip net now_ms zip fileName projectName subjectName st).1
  = Returns {| success := false; fileId := None; webViewLink := None;
               error := Some err |} /\
  sent (uploadZip net now_ms zip fileName projectName subjectName st).2.2
  = sent st1.2.
Proof.
  intros Hbody. unfold uploadZip, Async.try. rewrite Hbody.
  by destruct st1 as [this s].
Qed.

Lemma uploadZip_returned now_ms zip fileName projectName subjectName st res st1 :
  uploadZipBody net now_ms zip fileName projectName subjectName st
  = (Returns res, st1) ->
  uploadZip net now_ms zip fileName projectName subjectName st = (Returns res, st1).
Proof. intros Hbody. unfold uploadZip, Async.try. by rewrite Hbody. Qed.

Local Ltac leaf :=
  eexists; split; [reflexivity|];
  cbn [sent sysLog world success fileId webViewLink error successFrom fst snd].

(** C8. Once the token and the folder are there and the archive has been
    read, [uploadZip] picks the transfer by the size of the file. Below
    5 * 1024 * 1024 bytes it sends the single multipart request and
    nothing else. At that size or more it sends the initiating request
    and, when that is answered with an upload URL, the streaming [PUT] to
    that URL and nothing else; the multipart request is not sent. On
    either path the call resolves, with success exactly when the last
    request was answered well, and a successful result has one shape:
    [success] true, [fileId] and [webViewLink] as that answer gave them,
    no [error]. *)
Theorem uploadZip_selects_transfer_by_size
    now_ms zip fileName projectName subjectName st
    token folder st1 fileSize fileBuffer :
  resolveTarget net now_ms projectName subjectName st
  = (Returns (token, folder), st1) ->
  statSize zip = Returns fileSize ->
  readFile zip = Returns fileBuffer ->
  let metadata := JObj [("name", JStr fileName);
                        ("parents", JArr [idJson folder])] in
  let small := multipartRequest token metadata fileBuffer in
  let init := initiateRequest token metadata fileSize in
  let out := uploadZip net now_ms zip fileName projectName subjectName st in
  exists res,
    out.1 = Returns res /\
    (fileSize < 5 * 1024 * 1024 ->
       sent out.2.2 = sent st1.2 ++ [small] /\
       (forall resp, net (sent st1.2) small = Returns resp ->
          ok resp = true -> json_rejects resp = None ->
          res = successFrom resp) /\
       (success res = true ->
          exists resp, net (sent st1.2) small = Returns resp /\
                       ok resp = true /\ res = successFrom resp)) /\
    (5 * 1024 * 1024 <= fileSize ->
       exists rest,
         sent out.2.2 = sent st1.2 ++ init :: rest /\
         (rest = [] \/
          exists uploadUrl, rest = [streamRequest uploadUrl fileSize fileBuffer]) /\
         (forall initResp uploadUrl,
            net (sent st1.2) init = Returns initResp ->
            ok initResp = true -> location initResp = Some uploadUrl ->
            uploadUrl <> "" ->
            rest = [streamRequest uploadUrl fileSize fileBuffer] /\
            forall resp,
              net (sent st1.2 ++ [init])
                  (streamRequest uploadUrl fileSize fileBuffer) = Returns resp ->
              ok resp = true -> json_rejects resp = None ->
              res = successFrom resp) /\
         (success res = true ->
            exists initResp uploadUrl resp,
              net (sent st1.2) init = Returns initResp /\
              location initResp = Some uploadUrl /\
              net (sent st1.2 ++ [init])
                  (streamRequest uploadUrl fileSize fileBuffer) = Returns resp /\
              ok resp = true /\ res = successFrom resp)) /\
    (success res = true -> exists resp, res = successFrom resp) /\
    (success res = false ->
       fileId res = None /\ webViewLink res = None /\
       exists err, error res = Some err).
Proof.
  intros Htarget Hstat Hread metadata small init out.
  assert (Hbody : uploadZipBody net now_ms zip fileName projectName subjectName st
                  = transfer net token metadata fileSize fileBuffer st1).
  { unfold uploadZipBody, Async.bind, Async.await.
    by rewrite Htarget, Hstat, Hread. }
  subst out. unfold uploadZip, Async.try. rewrite Hbody. clear Hbody.
  destruct st1 as [this s1]. unfold transfer.
  destruct (fileSize <? SIMPLE_UPLOAD_LIMIT) eqn:Hsize.
  - apply Z.ltb_lt in Hsize. unfold SIMPLE_UPLOAD_LIMIT in Hsize.
    unfold Async.bind, fetch, json, Async.ret, Async.throw, consoleLog,
      Async.modify. cbv beta iota. fold small.
    assert (Hlarge : forall P : Prop, 5 * 1024 * 1024 <= fileSize -> P)
      by (intros P Hge; lia).
    destruct (net (sent s1) small) as [resp|err] eqn:Hnet.
    2:{ leaf. repeat apply conj; [|apply Hlarge|done|eauto].
        intros _. repeat apply conj; [done | intros; congruence | done]. }
    destruct (ok resp) eqn:Hok; cbn [negb]; cbv beta iota.
    2:{ leaf. repeat apply conj; [|apply Hlarge|done|eauto].
        intros _. repeat apply conj; [done | intros; congruence | done]. }
    destruct (json_rejects resp) eqn:Hjson; cbv beta iota.
    + leaf. repeat apply conj; [|apply Hlarge|done|eauto].
      intros _. repeat apply conj; [done | intros; congruence | done].
    + leaf. repeat apply conj; [|apply Hlarge|eauto|done].
      intros _. repeat apply conj; [done | |].
      * intros resp' Hr _ _. by assert (resp' = resp) as -> by congruence.
      * intros _. by exists resp.
  - apply Z.ltb_ge in Hsize. unfold SIMPLE_UPLOAD_LIMIT in Hsize.
    unfold Async.bind, fetch, json, Async.ret, Async.throw, consoleLog,
      Async.modify. cbv beta iota. fold init.
    assert (Hsmall : forall P : Prop, fileSize < 5 * 1024 * 1024 -> P)
      by (intros P Hlt; lia).
    destruct (net (sent s1) init) as [initResp|err] eqn:Hnet.
    2:{ leaf. repeat apply conj; [apply Hsmall| |done|eauto].
        intros _. exists [].
        repeat apply conj; [done | by left | intros; congruence | done]. }
    destruct (ok initResp) eqn:Hok; cbn [negb]; cbv beta iota.
    2:{ leaf. repeat apply conj; [apply Hsmall| |done|eauto].
        intros _. exists [].
        repeat apply conj; [done | by left | intros; congruence | done]. }
    destruct (location initResp) as [uploadUrl|] eqn:Hloc; cbv beta iota.
    2:{ leaf. repeat apply conj; [apply Hsmall| |done|eauto].
        intros _. exists [].
        repeat apply conj; [done | by left | intros; congruence | done]. }
    destruct (bool_decide (uploadUrl = "")) eqn:Hempty; cbv beta iota.
    { apply bool_decide_eq_true in Hempty.
      leaf. repeat apply conj; [apply Hsmall| |done|eauto].
      intros _. exists [].
      repeat apply conj; [done | by left | intros; congruence | done]. }
    apply bool_decide_eq_false in Hempty.
    cbn [fst snd sent world].
    set (stream := streamRequest uploadUrl fileSize fileBuffer).
    assert (Hstream : forall i u,
              net (sent s1) init = Returns i -> location i = Some u ->
              streamRequest u fileSize fileBuffer = stream).
    { intros i u Hi Hu. subst stream. congruence. }
    destruct (net (sent s1 ++ [init]) stream) as [resp|err] eqn:Hnet2.
    2:{ leaf. rewrite <- app_assoc.
        repeat apply conj; [apply Hsmall| |done|eauto].
        intros _. exists [stream].
        repeat apply conj; [done | right; by exists uploadUrl | | done].
        intros i u Hi _ Hu _. rewrite (Hstream i u Hi Hu).
        split; [done|]. intros; congruence. }
    destruct (ok resp) eqn:Hok2; cbn [negb]; cbv beta iota.
    2:{ leaf. rewrite <- app_assoc.
        repeat apply conj; [apply Hsmall| |done|eauto].
        intros _. exists [stream].
        repeat apply conj; [done | right; by exists uploadUrl | | done].
        intros i u Hi _ Hu _. rewrite (Hstream i u Hi Hu).
        split; [done|]. intros; congruence. }
    destruct (json_rejects resp) eqn:Hjson; cbv beta iota.
    + leaf. rewrite <- app_assoc.
      repeat apply conj; [apply Hsmall| |done|eauto].
      intros _. exists [stream].
      repeat apply conj; [done | right; by exists uploadUrl | | done].
      intros i u Hi _ Hu _. rewrite (Hstream i u Hi Hu).
      split; [done|]. intros; congruence.
    + leaf. rewrite <- app_assoc.
      repeat apply conj; [apply Hsmall| |eauto|done].
      intros _. exists [stream].
      repeat apply conj; [done | right; by exists uploadUrl | |].
      * intros i u Hi _ Hu _. rewrite (Hstream i u Hi Hu).
        split; [done|]. intros resp' Hr _ _.
        by assert (resp' = resp) as -> by congruence.
      * intros _. by exists initResp, uploadUrl, resp.
Qed.

(** [uploadZip] keeps any relation on the system that holds across any
    request and any logged line. *)
Section AnyRequest.

Context (R : relation Sys) `{!PreOrder R}.
Hypothesis R_send : forall s q,
  R s {| world := world s; sent := sent s ++ [q] |}.
Hypothesis R_log : forall line s, R s (sysLog line s).

Lemma fetch_keeps_any q : Async.keeps (onSys R) (fetch net q).
Proof. intros [this s]. unfold onSys. simpl. apply R_send. Qed.

Lemma transfer_keeps token metadata fileSize fileBuffer :
  Async.keeps (onSys R) (transfer net token metadata fileSize fileBuffer).
Proof.
  unfold transfer. destruct (fileSize <? SIMPLE_UPLOAD_LIMIT).
  - apply keeps_bind; [apply _ | apply fetch_keeps_any |]. intros resp.
    destruct (negb (ok resp)); [apply keeps_throw; apply _|].
    apply keeps_bind; [apply _ | by apply json_keeps |]. intros result.
    apply keeps_ret; apply _.
  - apply keeps_bind; [apply _ | apply fetch_keeps_any |]. intros init.
    destruct (negb (ok init)); [apply keeps_throw; apply _|].
    destruct (location init) as [uploadUrl|]; [|apply keeps_throw; apply _].
    destruct (bool_decide (uploadUrl = "")); [apply keeps_throw; apply _|].
    apply keeps_bind; [apply _ | apply fetch_keeps_any |]. intros resp.
    destruct (negb (ok resp)); [apply keeps_throw; apply _|].
    apply keeps_bind; [apply _ | by apply json_keeps |]. intros result.
    apply keeps_ret; apply _.
Qed.

Lemma uploadZip_keeps now_ms zip fileName projectName subjectName :
  Async.keeps (onSys R)
    (uploadZip net now_ms zip fileName projectName subjectName).
Proof.
  unfold uploadZip. apply keeps_try; [apply _ | |].
  - unfold uploadZipBody.
    apply keeps_bind; [apply _ | by apply resolveTarget_keeps |]. intros target.
    apply keeps_bind; [apply _ | apply keeps_await; apply _ |]. intros fileSize.
    apply keeps_bind; [apply _ | apply keeps_await; apply _ |]. intros fileBuffer.
    apply transfer_keeps.
  - intros err.
    apply keeps_bind; [apply _ | by apply consoleLog_keeps |]. intros _.
    apply keeps_ret; apply _.
Qed.

End AnyRequest.

End Transfer.

Section TransferExamples.

Import GoogleDriveUploader.

Lemma uploadZip_selects_transfer_by_size_witness :
  let st := Scenario.drive in
  let zip := Scenario.zipOf (6 * 1024 * 1024) in
  let st1 := (resolveTarget Scenario.friendlyNet 3000000 "Project"
                (Some "Subject") st).2 in
  let metadata := JObj [("name", JStr "a.zip");
                        ("parents", JArr [idJson (Some "folder-1")])] in
  let small := multipartRequest "token-1" metadata "PK-bytes" in
  let init := initiateRequest "token-1" metadata (6 * 1024 * 1024) in
  let out := uploadZip Scenario.friendlyNet 3000000 zip "a.zip" "Project"
               (Some "Subject") st in
  exists res,
    out.1 = Returns res /\
    (6 * 1024 * 1024 < 5 * 1024 * 1024 ->
       sent out.2.2 = sent st1.2 ++ [small] /\
       (forall resp, Scenario.friendlyNet (sent st1.2) small = Returns resp ->
          ok resp = true -> json_rejects resp = None ->
          res = successFrom resp) /\
       (success res = true ->
          exists resp, Scenario.friendlyNet (sent st1.2) small = Returns resp /\
                       ok resp = true /\ res = successFrom resp)) /\
    (5 * 1024 * 1024 <= 6 * 1024 * 1024 ->
       exists rest,
         sent out.2.2 = sent st1.2 ++ init :: rest /\
         (rest = [] \/
          exists uploadUrl,
            rest = [streamRequest uploadUrl (6 * 1024 * 1024) "PK-bytes"]) /\
         (forall initResp uploadUrl,
            Scenario.friendlyNet (sent st1.2) init = Returns initResp ->
            ok initResp = true -> location initResp = Some uploadUrl ->
            uploadUrl <> "" ->
            rest = [streamRequest uploadUrl (6 * 1024 * 1024) "PK-bytes"] /\
            forall resp,
              Scenario.friendlyNet (sent st1.2 ++ [init])
                (streamRequest uploadUrl (6 * 1024 * 1024) "PK-bytes")
              = Returns resp ->
              ok resp = true -> json_rejects resp = None ->
              res = successFrom resp) /\
         (success res = true ->
            exists initResp uploadUrl resp,
              Scenario.friendlyNet (sent st1.2) init = Returns initResp /\
              location initResp = Some uploadUrl /\
              Scenario.friendlyNet (sent st1.2 ++ [init])
                (streamRequest uploadUrl (6 * 1024 * 1024) "PK-bytes")
              = Returns resp /\
              ok resp = true /\ res = successFrom resp)) /\
    (success res = true -> exists resp, res = successFrom resp) /\
    (success res = false ->
       fileId res = None /\ webViewLink res = None /\
       exists err, error res = Some err).
Proof.
  apply (uploadZip_selects_transfer_by_size Scenario.friendlyNet 3000000
           (Scenario.zipOf (6 * 1024 * 1024)) "a.zip" "Project"
           (Some "Subject") Scenario.drive "token-1" (Some "folder-1")
           (resolveTarget Scenario.friendlyNet 3000000 "Project"
              (Some "Subject") Scenario.drive).2
           (6 * 1024 * 1024) "PK-bytes").
  - vm_compute. reflexivity.
  - reflexivity.
  - reflexivity.
Defined.

(** The requests [uploadZip] sends to a network that accepts everything,
    for a file one byte short of the limit and for a file of exactly the
    limit, and what it returns. *)
Example uploadZip_just_below_limit :
  let out := uploadZip Scenario.friendlyNet 3000000
               (Scenario.zipOf (5 * 1024 * 1024 - 1))
               "a.zip" "Project" (Some "Subject") Scenario.drive in
  out.1 = Returns (successFrom Scenario.okResponse) /\
  Scenario.shortOf <$> sent out.2.2
  = [("POST", TOKEN_URL, None); ("GET", FILES_URL, None);
     ("GET", FILES_URL, None); ("POST", UPLOAD_URL, Some "multipart")].
Proof. vm_compute. auto. Qed.

Example uploadZip_at_limit :
  let out := uploadZip Scenario.friendlyNet 3000000
               (Scenario.zipOf (5 * 1024 * 1024))
               "a.zip" "Project" (Some "Subject") Scenario.drive in
  out.1 = Returns (successFrom Scenario.okResponse) /\
  Scenario.shortOf <$> sent out.2.2
  = [("POST", TOKEN_URL, None); ("GET", FILES_URL, None);
     ("GET", FILES_URL, None); ("POST", UPLOAD_URL, Some "resumable");
     ("PUT", "https://upload.example/session-1", None)].
Proof. vm_compute. auto. Qed.

End TransferExamples.

(** ** The export and the auto-upload trigger *)

Section ExportPipeline.

Variable net : Net.

(** [upload] keeps any relation on the system that holds across any
    request and any logged line. *)
Section UploadKeeps.

Context (R : relation Sys) `{!PreOrder R}.
Hypothesis R_send : forall s q,
  R s {| world := world s; sent := sent s ++ [q] |}.
Hypothesis R_log : forall line s, R s (sysLog line s).

Variable env : Uploader.UploadEnv.
Variable config : Uploader.Config.

Lemma upload_fetch_keeps q : Async.keeps R (Uploader.fetch net q).
Proof. intros s. apply R_send. Qed.

Lemma upload_log_keeps line : Async.keeps R (Uploader.consoleLog line).
Proof. apply keeps_modify. apply R_log. Qed.

Lemma sendMetadataToApi_keeps metadata :
  Async.keeps R (Uploader.sendMetadataToApi net config metadata).
Proof.
  unfold Uploader.sendMetadataToApi. apply keeps_try; [apply _ | |].
  - apply keeps_bind; [apply _ | apply upload_fetch_keeps |]. intros _.
    apply keeps_ret; apply _.
  - intros err. apply upload_log_keeps.
Qed.

Lemma withUploader_keeps {A} g (m : @Async.M GoogleDriveUploader.St A) :
  Async.keeps (GoogleDriveUploader.onSys R) m ->
  Async.keeps R (Uploader.withUploader g m).
Proof. intros Hm s. apply (Hm (g, s)). Qed.

Lemma uploadToGoogleDrive_keeps gd metadata dataDir :
  Async.keeps R (Uploader.uploadToGoogleDrive net env config gd metadata dataDir).
Proof.
  unfold Uploader.uploadToGoogleDrive. apply keeps_try; [apply _ | |].
  - apply keeps_bind; [apply _ | apply upload_log_keeps |]. intros _.
    apply keeps_bind; [apply _ | apply keeps_await; apply _ |]. intros size.
    apply keeps_bind; [apply _ | apply upload_log_keeps |]. intros _.
    apply keeps_bind; [apply _ | apply upload_log_keeps |]. intros _.
    apply keeps_bind; [apply _ | |].
    { apply withUploader_keeps. by apply uploadZip_keeps. }
    intros result.
    apply keeps_bind; [apply _ | apply keeps_await; apply _ |]. intros _.
    destruct (GoogleDriveUploader.success result).
    + apply keeps_bind; [apply _ | apply sendMetadataToApi_keeps |]. intros _.
      apply keeps_ret; apply _.
    + apply keeps_throw; apply _.
  - intros err.
    apply keeps_bind; [apply _ | apply upload_log_keeps |]. intros _.
    apply keeps_ret; apply _.
Qed.

Lemma uploadToApi_keeps metadata shots dataDir :
  Async.keeps R (Uploader.uploadToApi net config metadata shots dataDir).
Proof.
  unfold Uploader.uploadToApi.
  apply keeps_bind; [apply _ | apply keeps_get; apply _ |]. intros s.
  apply keeps_bind; [apply _ | apply upload_fetch_keeps |]. intros resp.
  destruct (negb (ok resp)); [apply keeps_throw; apply _|].
  destruct (json_rejects resp); [apply keeps_throw | apply keeps_ret]; apply _.
Qed.

Lemma upload_keeps data :
  Async.keeps R (Uploader.upload net env config data).
Proof.
  unfold Uploader.upload.
  apply keeps_bind; [apply _ | apply keeps_get; apply _ |]. intros s.
  destruct (Uploader.google_drive config);
    [apply uploadToGoogleDrive_keeps | apply uploadToApi_keeps].
Qed.

End UploadKeeps.

(** An upload leaves the arrays, the files and the timers alone. *)
Lemma upload_keeps_store env config data s :
  storeKept s (Uploader.upload net env config data s).2.
Proof.
  apply (upload_keeps storeKept).
  - apply storeKept_send.
  - apply storeKept_log.
Qed.

End ExportPipeline.

Section Trigger.

Import Main.

Variable net : Net.
Variable env : AutoEnv.

Implicit Types (a : App) (r : Recorder.t).

Lemma sameSession_refl r : sameSession r r.
Proof. by repeat split. Qed.

Lemma sameSession_trans r1 r2 r3 :
  sameSession r1 r2 -> sameSession r2 r3 -> sameSession r1 r3.
Proof.
  intros (A1 & B1 & C1 & D1 & E1 & F1) (A2 & B2 & C2 & D2 & E2 & F2).
  repeat split; congruence.
Qed.

Lemma sameSession_flush now r :
  sameSession r (Recorder.updateWindowDuration now r).
Proof.
  destruct (updateWindowDuration_frame now r) as (A & B & C & D & E & F).
  by repeat split.
Qed.

Lemma retained_intro r a a' r' :
  recorder a' = Some r' -> sameSession r r' -> storeKept (sys a) (sys a') ->
  retained r a a'.
Proof.
  intros Hr Hs Hk. exists r'.
  split; [done|]. split; [done|]. split; [done|].
  destruct Hs as (-> & _), Hk as (Ha & _). unfold readArray. by rewrite Ha.
Qed.

(** The failure path touches neither the recorder nor the store. *)
Lemma notifyUploadFailure_frame source error n a :
  recorder (notifyUploadFailure net env source error n a) = recorder a /\
  storeKept (sys a) (sys (notifyUploadFailure net env source error n a)).
Proof.
  unfold notifyUploadFailure.
  destruct (config a); [|by repeat split].
  destruct (net _ _); by repeat split.
Qed.

Lemma notifyUserFailure_frame message a :
  recorder (notifyUserFailure env message a) = recorder a /\
  sys (notifyUserFailure env message a) = sys a.
Proof. unfold notifyUserFailure. by destruct (_ <? _). Qed.

Lemma reportFailure_frame error st a :
  recorder (reportFailure net env error st a) = recorder a /\
  storeKept (sys a) (sys (reportFailure net env error st a)).
Proof.
  unfold reportFailure.
  destruct (notifyUserFailure_frame "自動送信に失敗しました。"
              (notifyUploadFailure net env "auto" error
                 (RecordingStats.totalScreenshots st) a)) as [-> ->].
  apply notifyUploadFailure_frame.
Qed.

(** Whatever the application state is when a failed upload settles, the
    rest of the trigger leaves its recorder and its store as they are. *)
Lemma afterUpload_failed st outcome a :
  exportFailed outcome = true ->
  recorder (afterUpload net env st outcome a) = recorder a /\
  storeKept (sys a) (sys (afterUpload net env st outcome a)).
Proof.
  intros Hfailed. unfold afterUpload.
  destruct outcome as [result|err]; simpl in Hfailed.
  - destruct (Uploader.success result); [discriminate|].
    apply reportFailure_frame.
  - unfold caught.
    destruct (reportFailure_frame err st
                (appLog ("自動アップロード失敗: " +:+ err) a)) as [-> Hk].
    split; [done|]. etransitivity; [|exact Hk]. apply storeKept_log.
Qed.

(** What the trigger does before it awaits the upload. *)
Lemma beforeUpload_retains a r :
  recorder a = Some r ->
  match beforeUpload env a with
  | Done a1 => retained r a a1
  | Uploading c st data a1 =>
      retained r a a1 /\ lastFailureNoticeAt a1 = lastFailureNoticeAt a
  end.
Proof.
  intros Hr. unfold beforeUpload. rewrite Hr.
  destruct (config a) as [c|]; [|by eapply retained_intro; [| apply sameSession_refl |]].
  simpl.
  destruct (_ <? _)%nat.
  - eapply retained_intro; [done | apply sameSession_flush | done].
  - split; [|done].
    eapply retained_intro; [done | | apply storeKept_log].
    eapply sameSession_trans; apply sameSession_flush.
Qed.

(** What the trigger does once a successful upload has settled. *)
Lemma afterUpload_succeeded st result a r :
  Uploader.success result = true ->
  recorder a = Some r ->
  retired env r a (afterUpload net env st (Returns result) a).
Proof.
  intros Hok Hr. unfold afterUpload, retired. rewrite Hok. simpl. rewrite Hr.
  unfold Recorder.stop.
  destruct (Recorder.timer (Recorder.set_recording false r)) as [h|] eqn:Ht;
    simpl in Ht; rewrite Ht; simpl.
  all: eexists; split; [reflexivity|]; simpl.
  all: unfold readArray; simpl; rewrite lookup_insert_eq; simpl.
  all: repeat apply conj; try done.
  by rewrite difference_empty_L.
Qed.

Lemma retired_transport r r2 a a1 a' :
  sameSession r r2 -> storeKept (sys a) (sys a1) ->
  retired env r2 a1 a' -> retired env r a a'.
Proof.
  intros (_ & _ & _ & Ht & _) (_ & _ & Htimers & Hfresh).
  intros (r' & H1 & H2 & H3 & H4 & H5 & H6 & H7 & H8 & H9).
  exists r'. rewrite <- Ht, <- Htimers, <- Hfresh. by repeat apply conj.
Qed.

(** C2. A run of the auto-upload trigger on a session [r]. If it ends
    before any upload, or if the upload it awaits fails (it throws, or it
    resolves with [success] false), the current recorder is still that
    session: same array with the same records, same flags, same timer;
    no file and no array has changed. Only when the upload resolves with
    [success] true is the session retired: its timer is cleared and the
    current recorder is a new one, started, with an empty array of its
    own. *)
Theorem failed_export_retains_session a r :
  recorder a = Some r ->
  match uploadOutcome net env a with
  | Some outcome =>
      if exportFailed outcome
      then retained r a (runAutoUploadCheck net env a)
      else retired env r a (runAutoUploadCheck net env a)
  | None => retained r a (runAutoUploadCheck net env a)
  end.
Proof.
  intros Hr. unfold uploadOutcome, runAutoUploadCheck.
  pose proof (beforeUpload_retains a r Hr) as Hbefore.
  destruct (beforeUpload env a) as [a1|c st data a1]; [done|].
  destruct Hbefore as [(r2 & Hr2 & Hsame & Hkept & _) _].
  pose proof (upload_keeps_store net (upload_env env) c data (sys a1)) as Hup.
  destruct (Uploader.upload net (upload_env env) c data (sys a1))
    as [outcome s2]. simpl in *.
  destruct (exportFailed outcome) eqn:Hfailed.
  - destruct (afterUpload_failed st outcome (set_sys s2 a1) Hfailed)
      as [Hrec Hk].
    eapply retained_intro; [by rewrite Hrec | done |].
    etransitivity; [exact Hkept|]. etransitivity; [exact Hup|]. exact Hk.
  - destruct outcome as [result|err]; [|discriminate]. simpl in Hfailed.
    apply negb_false_iff in Hfailed.
    eapply (retired_transport r r2 a (set_sys s2 a1)); [done | |].
    + simpl. etransitivity; [exact Hkept | exact Hup].
    + by apply afterUpload_succeeded.
Qed.

End Trigger.

Section TriggerExamples.

Import Main.

Lemma failed_export_retains_session_witness :
  match uploadOutcome Scenario.deadNet Scenario.autoEnv Scenario.full_app with
  | Some outcome =>
      if exportFailed outcome
      then retained Scenario.full_session.1 Scenario.full_app
             (runAutoUploadCheck Scenario.deadNet Scenario.autoEnv Scenario.full_app)
      else retired Scenario.autoEnv Scenario.full_session.1 Scenario.full_app
             (runAutoUploadCheck Scenario.deadNet Scenario.autoEnv Scenario.full_app)
  | None =>
      retained Scenario.full_session.1 Scenario.full_app
        (runAutoUploadCheck Scenario.deadNet Scenario.autoEnv Scenario.full_app)
  end.
Proof.
  apply (failed_export_retains_session Scenario.deadNet Scenario.autoEnv
           Scenario.full_app Scenario.full_session.1).
  reflexivity.
Defined.

(** The trigger on a session of fifty screenshots. With the network down
    the upload throws: the fifty records are still there, the session
    still records, the administrator notice was attempted and the user was
    told. With a network that accepts the upload, the current recorder is
    a new, empty one. *)
Example trigger_network_down :
  let a' := runAutoUploadCheck Scenario.deadNet Scenario.autoEnv
              Scenario.full_app in
  uploadOutcome Scenario.deadNet Scenario.autoEnv Scenario.full_app
  = Some (Throws "FetchError: network is unreachable") /\
  (Recorder.screenshots <$> recorder a')
  = Some (Recorder.screenshots Scenario.full_session.1) /\
  (Recorder.recording <$> recorder a') = Some true /\
  length (readArray (Recorder.screenshots Scenario.full_session.1)
            (world (sys a'))) = 50%nat /\
  length (notices a') = 1%nat /\
  (url <$> sent (sys a'))
  = ["https://api.example/api/recorder/upload";
     "https://api.example/api/recorder/notify"].
Proof. vm_compute. repeat split. Qed.

Example trigger_upload_accepted :
  let a' := runAutoUploadCheck Scenario.friendlyNet Scenario.autoEnv
              Scenario.full_app in
  (exportFailed <$> uploadOutcome Scenario.friendlyNet Scenario.autoEnv
                      Scenario.full_app) = Some false /\
  (Recorder.recording <$> recorder a') = Some true /\
  (Recorder.startTime <$> recorder a') = Some (Some 3000001) /\
  ((λ r, length (readArray (Recorder.screenshots r) (world (sys a'))))
     <$> recorder a') = Some 0%nat /\
  notices a' = [].
Proof. vm_compute. repeat split. Qed.

(** With remote-storage credentials configured and the network down,
    [upload] does not throw: it resolves with [success] false, and the
    session is retained all the same. *)
Example trigger_drive_unreachable :
  let a := set_config (Some Scenario.driveConfig) Scenario.full_app in
  let a' := runAutoUploadCheck Scenario.deadNet Scenario.autoEnv a in
  uploadOutcome Scenario.deadNet Scenario.autoEnv a
  = Some (Returns
            {| Uploader.success := false;
               Uploader.message :=
                 "アップロード失敗: Error: FetchError: network is unreachable" |}) /\
  (Recorder.recording <$> recorder a') = Some true /\
  length (readArray (Recorder.screenshots Scenario.full_session.1)
            (world (sys a'))) = 50%nat.
Proof. vm_compute. repeat split. Qed.

End TriggerExamples.

(** * Further properties of the code *)

(** ** Strings and paths *)

Section Strings.

Implicit Types (s p cur last : string) (c : ascii).

Lemma append_nil_l s : "" +:+ s = s.
Proof. reflexivity. Qed.

Lemma append_cons c s1 s2 : String c s1 +:+ s2 = String c (s1 +:+ s2).
Proof. reflexivity. Qed.

Lemma append_nil_r s : s +:+ "" = s.
Proof.
  induction s as [|c s IH]; [done|]. by rewrite append_cons, IH.
Qed.

Lemma append_assoc s1 s2 s3 : (s1 +:+ s2) +:+ s3 = s1 +:+ (s2 +:+ s3).
Proof.
  induction s1 as [|c s1 IH]; [done|]. by rewrite !append_cons, IH.
Qed.

Lemma prefix_occurs sub s :
  String.prefix sub s = true <-> exists post, s = sub +:+ post.
Proof.
  revert s. induction sub as [|a sub IH]; intros s.
  - split; [intros _; exists s; reflexivity | intros _; by destruct s].
  - destruct s as [|b s]; simpl.
    { split; [done | intros [post H]; rewrite append_cons in H; discriminate]. }
    destruct (ascii_dec a b) as [->|Hne].
    + rewrite IH. split; intros [post H]; exists post.
      * by rewrite append_cons, H.
      * rewrite append_cons in H. congruence.
    + split; [done | intros [post H]; rewrite append_cons in H; congruence].
Qed.

Lemma includes_nil sub :
  Js.includes "" sub = if String.prefix sub "" then true else false.
Proof. reflexivity. Qed.

Lemma includes_cons c s sub :
  Js.includes (String c s) sub
  = if String.prefix sub (String c s) then true else Js.includes s sub.
Proof. reflexivity. Qed.

Lemma includes_occurs s sub : Js.includes s sub = true <-> occursIn sub s.
Proof.
  induction s as [|c s IH]; [rewrite includes_nil | rewrite includes_cons].
  - destruct (String.prefix sub "") eqn:Hp.
    + split; [intros _ | done]. apply prefix_occurs in Hp as [post Hp].
      exists "", post. by rewrite append_nil_l.
    + split; [done|]. intros (pre & post & H).
      destruct pre; [|rewrite append_cons in H; discriminate].
      rewrite append_nil_l in H.
      assert (String.prefix sub "" = true) by (apply prefix_occurs; eauto).
      congruence.
  - destruct (String.prefix sub (String c s)) eqn:Hp.
    + split; [intros _ | done]. apply prefix_occurs in Hp as [post Hp].
      exists "", post. by rewrite append_nil_l.
    + rewrite IH. split.
      * intros (pre & post & ->). exists (String c pre), post.
        by rewrite append_cons.
      * intros (pre & post & H). destruct pre as [|c' pre].
        -- rewrite append_nil_l in H.
           assert (String.prefix sub (String c s) = true)
             by (apply prefix_occurs; eauto).
           congruence.
        -- rewrite append_cons in H. injection H as _ ->. by exists pre, post.
Qed.

Lemma slashFree_nil : slashFree "".
Proof. reflexivity. Qed.

Lemma prefix_nil s : String.prefix "" s = true.
Proof. by destruct s. Qed.

Lemma slashFree_cons c s : slashFree (String c s) <-> c <> "/"%char /\ slashFree s.
Proof.
  unfold slashFree. rewrite includes_cons.
  change (String.prefix "/" (String c s))
    with (if ascii_dec "/" c then String.prefix "" s else false).
  rewrite prefix_nil. destruct (ascii_dec "/" c) as [<-|Hne].
  - split; [done | by intros [H _]].
  - split; [intros H; split; [congruence | done] | by intros [_ H]].
Qed.

Lemma slashFree_app s1 s2 :
  slashFree (s1 +:+ s2) <-> slashFree s1 /\ slashFree s2.
Proof.
  induction s1 as [|c s1 IH].
  - rewrite append_nil_l. split; [by split; [apply slashFree_nil|] | by intros [_ H]].
  - rewrite append_cons, !slashFree_cons, IH. tauto.
Qed.

Lemma basename_from_slashFree s cur last :
  slashFree cur -> slashFree last -> slashFree (Js.basename_from s cur last).
Proof.
  revert cur last. induction s as [|c s IH]; intros cur last Hc Hl; simpl.
  - by destruct (decide (cur = "")).
  - destruct (Ascii.eqb c "/") eqn:Hcs.
    + apply IH; [apply slashFree_nil | by destruct (decide (cur = ""))].
    + apply IH; [|done]. apply slashFree_app. split; [done|].
      apply slashFree_cons. split; [|apply slashFree_nil].
      intros ->. by rewrite Ascii.eqb_refl in Hcs.
Qed.

Lemma basename_slashFree p : slashFree (Js.basename p).
Proof. apply basename_from_slashFree; apply slashFree_nil. Qed.

Lemma basename_from_plain s cur last :
  slashFree s ->
  Js.basename_from s cur last
  = if decide (cur +:+ s = "") then last else cur +:+ s.
Proof.
  revert cur last. induction s as [|c s IH]; intros cur last Hs; simpl.
  - rewrite append_nil_r. done.
  - apply slashFree_cons in Hs as [Hc Hs].
    destruct (Ascii.eqb c "/") eqn:Hcs; [by apply Ascii.eqb_eq in Hcs|].
    rewrite IH by done. by rewrite append_assoc.
Qed.

Lemma basename_plain p : slashFree p -> Js.basename p = p.
Proof.
  intros Hp. unfold Js.basename. rewrite basename_from_plain by done.
  rewrite append_nil_l. by destruct (decide (p = "")) as [->|].
Qed.

Lemma basename_from_last dir file cur last :
  slashFree file -> file <> "" ->
  Js.basename_from (dir +:+ "/" +:+ file) cur last = file.
Proof.
  intros Hf Hne. revert cur last.
  induction dir as [|c dir IH]; intros cur last.
  - rewrite append_nil_l, append_cons, append_nil_l. simpl.
    rewrite basename_from_plain by done.
    rewrite append_nil_l. by destruct (decide (file = "")).
  - rewrite append_cons. simpl. destruct (Ascii.eqb c "/"); apply IH.
Qed.

Lemma basename_join3 (dir sub file : string) :
  slashFree file -> file <> "" -> Js.basename (Js.join3 dir sub file) = file.
Proof.
  intros Hc Hne. unfold Js.basename, Js.join3.
  replace (dir +:+ "/" +:+ sub +:+ "/" +:+ file)
    with ((dir +:+ "/" +:+ sub) +:+ "/" +:+ file)
    by (by rewrite !append_assoc).
  by apply basename_from_last.
Qed.

End Strings.

(** ** The names of the image files *)

Section FileNames.

Import Recorder.

Lemma digit_not_slash d : Js.digit d <> "/"%char.
Proof.
  unfold Js.digit.
  assert (H : (Z.to_nat (d mod 10) < 10)%nat).
  { pose proof (Z.mod_pos_bound d 10). lia. }
  set (k := Z.to_nat (d mod 10)) in *. clearbody k.
  do 10 (destruct k as [|k]; [discriminate|]). lia.
Qed.

Lemma pad_slashFree w n : slashFree (Js.pad w n).
Proof.
  revert n. induction w as [|w IH]; intros n; [apply slashFree_nil|].
  simpl. apply slashFree_app. split; [apply IH|].
  apply slashFree_cons. split; [apply digit_not_slash | apply slashFree_nil].
Qed.

Lemma year_string_slashFree y : slashFree (Js.year_string y).
Proof.
  unfold Js.year_string. destruct (_ && _); [apply pad_slashFree|].
  apply slashFree_app. split; [by destruct (0 <=? y) | apply pad_slashFree].
Qed.

Lemma toISOString_slashFree ms : slashFree (Js.toISOString ms).
Proof.
  unfold Js.toISOString. destruct (Js.civil_from_days _) as [[y m] d].
  rewrite !slashFree_app.
  repeat apply conj;
    first [apply year_string_slashFree | apply pad_slashFree | reflexivity].
Qed.

Lemma replace_colon_dot_slashFree s :
  slashFree s -> slashFree (Js.replace_colon_dot s).
Proof.
  induction s as [|c s IH]; [done|]. simpl.
  rewrite !slashFree_cons. intros [Hc Hs]. split; [|by apply IH].
  by destruct (_ || _)%bool.
Qed.

Lemma filenameOf_slashFree stamp : slashFree (filenameOf stamp).
Proof.
  unfold filenameOf. apply slashFree_app. split; [|reflexivity].
  apply replace_colon_dot_slashFree, toISOString_slashFree.
Qed.

Lemma filenameOf_nonempty stamp : filenameOf stamp <> "".
Proof.
  unfold filenameOf. by destruct (Js.replace_colon_dot _).
Qed.

End FileNames.

(** ** The screenshot array and the image files *)

Section Artifacts.

Import Recorder.

Context {lowercase : Js.Lowercase}.

Implicit Types (r : Recorder.t) (w : World) (env : CaptureEnv).

Lemma recordOf_options a ti env r r' :
  options r' = options r -> recordOf a ti env r' = recordOf a ti env r.
Proof. intros H. unfold recordOf. by rewrite H. Qed.

Lemma isExcludedApp_options a r r' :
  options r' = options r -> isExcludedApp r' a = isExcludedApp r a.
Proof. intros H. unfold isExcludedApp. by rewrite H. Qed.

Lemma appended_options o r r' :
  options r' = options r -> appended r' o = appended r o.
Proof.
  intros H. destruct o as [a ti env| | | |]; try done. unfold appended, suppressed.
  rewrite (isExcludedApp_options a r r' H).
  destruct (_ && _); [done|]. destruct (io env); try done.
  by rewrite (recordOf_options a ti env r r' H).
Qed.

(** The recorder a cycle leaves keeps its options and its array. *)
Lemma captureResolved_frame a ti env r w :
  options (captureResolved a ti env r w).1 = options r /\
  screenshots (captureResolved a ti env r w).1 = screenshots r.
Proof.
  unfold captureResolved. destruct (_ && _); [done|].
  assert (H : forall x, options (if bool_decide (a ≠ Unknown)
               then set_lastWindowInfo x (updateWindowDuration (t_flush env) r)
               else r) = options r /\
             screenshots (if bool_decide (a ≠ Unknown)
               then set_lastWindowInfo x (updateWindowDuration (t_flush env) r)
               else r) = screenshots r).
  { intros x. destruct (bool_decide _); [|done]. simpl.
    by destruct (updateWindowDuration_frame (t_flush env) r)
      as (-> & _ & _ & _ & -> & _). }
  by destruct (io env); simpl; apply H.
Qed.

(** X1. a cycle that is not suppressed and whose screenshot and writes
    succeed appends one record, last in the array, and leaves the image
    under both of the record's paths; the two paths end in one and the
    same file name, the one made from the timestamp; no other file is
    touched. *)
Theorem capture_stores_image_under_both_paths a ti env r w l img :
  arrays w !! screenshots r = Some l ->
  suppressed r a = false ->
  io env = Captured img ->
  let s' := captureResolved a ti env r w in
  let record := recordOf a ti env r in
  arrays s'.2 !! screenshots r = Some (l ++ [record]) /\
  files s'.2 !! filePath record = Some img /\
  files s'.2 !! thumbnailPath record = Some img /\
  Js.basename (filePath record) = filenameOf (t_stamp env) /\
  Js.basename (thumbnailPath record) = filenameOf (t_stamp env) /\
  (forall p, p <> filePath record -> p <> thumbnailPath record ->
             files s'.2 !! p = files w !! p).
Proof.
  intros Hl Hs Hio s' record.
  assert (Hs' : s' = captureResolved a ti env r w) by done.
  unfold captureResolved in Hs'. unfold suppressed in Hs.
  rewrite Hs, Hio in Hs'.
  set (r1 := if bool_decide (a ≠ Unknown) then _ else r) in Hs'.
  assert (Hr1 : options r1 = options r /\ screenshots r1 = screenshots r).
  { subst r1. destruct (bool_decide _); [|done]. simpl.
    by destruct (updateWindowDuration_frame (t_flush env) r)
      as (-> & _ & _ & _ & -> & _). }
  destruct Hr1 as [Ho Hsc].
  rewrite (recordOf_options a ti env r r1 Ho), Hsc in Hs'. fold record in Hs'.
  assert (Hb1 : Js.basename (filePath record) = filenameOf (t_stamp env)).
  { apply basename_join3; [apply filenameOf_slashFree | apply filenameOf_nonempty]. }
  assert (Hb2 : Js.basename (thumbnailPath record) = filenameOf (t_stamp env)).
  { apply basename_join3; [apply filenameOf_slashFree | apply filenameOf_nonempty]. }
  clearbody record. rewrite Hs'. simpl. repeat apply conj; try done.
  - rewrite lookup_alter_eq, Hl. done.
  - destruct (decide (thumbnailPath record = filePath record)) as [->|Hne].
    + apply lookup_insert_eq.
    + rewrite lookup_insert_ne by done. apply lookup_insert_eq.
  - apply lookup_insert_eq.
  - intros p Hp1 Hp2. by rewrite !lookup_insert_ne.
Qed.

(** What one ledger operation does to the array of the recorder. *)
Lemma applyOp_array o r w l :
  arrays w !! screenshots r = Some l ->
  options (applyOp (r, w) o).1 = options r /\
  screenshots (applyOp (r, w) o).1 = screenshots r /\
  arrays (applyOp (r, w) o).2 !! screenshots r
  = Some (l ++ option_list (appended r o)).
Proof.
  intros Hl. destruct o as [a ti env|now| |now|tf te]; simpl.
  - destruct (captureResolved_frame a ti env r w) as [Ho Hs].
    split; [done|]. split; [done|].
    unfold captureResolved, suppressed in *.
    destruct (_ && _); [by rewrite app_nil_r|].
    set (r1 := if bool_decide (a ≠ Unknown) then _ else r) in *.
    assert (Hr1 : options r1 = options r /\ screenshots r1 = screenshots r).
    { subst r1. destruct (bool_decide _); [|done]. simpl.
      by destruct (updateWindowDuration_frame (t_flush env) r)
        as (-> & _ & _ & _ & -> & _). }
    destruct Hr1 as [Ho1 Hs1].
    destruct (io env); simpl; rewrite ?app_nil_r; try done.
    rewrite Hs1, lookup_alter_eq, Hl. simpl.
    by rewrite (recordOf_options a ti env r r1 Ho1).
  - rewrite app_nil_r.
    by destruct (updateWindowDuration_frame now (set_paused true r))
      as (-> & _ & _ & _ & -> & _).
  - by rewrite app_nil_r.
  - rewrite app_nil_r. unfold stop.
    destruct (timer (set_recording false r)); simpl;
      match goal with
      | |- context [updateWindowDuration ?t ?x] =>
          destruct (updateWindowDuration_frame t x) as (-> & _ & _ & _ & -> & _)
      end; done.
  - rewrite app_nil_r.
    by destruct (updateWindowDuration_frame tf r) as (-> & _ & _ & _ & -> & _).
Qed.

(** What a sequence of ledger operations does to it. *)
Lemma applyOps_array os r w l :
  arrays w !! screenshots r = Some l ->
  screenshots (applyOps os (r, w)).1 = screenshots r /\
  arrays (applyOps os (r, w)).2 !! screenshots r
  = Some (l ++ omap (appended r) os).
Proof.
  revert r w l. induction os as [|o os IH]; intros r w l Hl.
  - simpl. by rewrite app_nil_r.
  - rewrite applyOps_cons.
    destruct (applyOp_array o r w l Hl) as (Ho & Hs & Ha).
    destruct (applyOp (r, w) o) as [r1 w1]. simpl in Ho, Hs, Ha.
    rewrite <- Hs in Ha.
    destruct (IH r1 w1 _ Ha) as [Hs' Ha'].
    rewrite Hs' , Hs in *. split; [done|]. rewrite Ha', <- app_assoc.
    f_equal. f_equal.
    assert (Hsame : omap (appended r1) os = omap (appended r) os).
    { clear -Ho. induction os as [|o' os IH']; [done|]. simpl.
      rewrite (appended_options o' r r1 Ho).
      change (list_omap LedgerOp ScreenshotRecord) with (@omap list _ LedgerOp ScreenshotRecord).
      by rewrite IH'. }
    rewrite Hsame. simpl. by destruct (appended r o).
Qed.

(** X2. artifacts are kept in capture order. After any sequence of capture
    cycles, pauses, resumes, stops and statistics reads, the array holds
    what it held, followed by one record for each cycle that was neither
    suppressed nor failed, in the order of the cycles; a failed or
    suppressed cycle leaves no gap and stops nothing after it. *)
Theorem artifacts_in_capture_order os r w l :
  arrays w !! screenshots r = Some l ->
  screenshots (applyOps os (r, w)).1 = screenshots r /\
  arrays (applyOps os (r, w)).2 !! screenshots r
  = Some (l ++ omap (appended r) os).
Proof. apply applyOps_array. Qed.

(** X3. what [getScreenshots()] hands out holds no directory. Every path in
    the returned records is free of separators, whatever paths the
    recorder holds; for a record made by [capture] it is the file name
    made from the timestamp; and the records come in the same number and
    order, with their identifiers, timestamps and identities as held. *)
Theorem getScreenshots_paths_hold_no_directory r w :
  let g := getScreenshots r w in
  Forall (λ s, slashFree (filePath s) /\ slashFree (thumbnailPath s))
         (readArray g.1 g.2) /\
  id <$> readArray g.1 g.2 = id <$> readArray (screenshots r) w /\
  timestamp <$> readArray g.1 g.2 = timestamp <$> readArray (screenshots r) w /\
  appName <$> readArray g.1 g.2 = appName <$> readArray (screenshots r) w /\
  (forall a ti env r0,
     filePath (redact (recordOf a ti env r0)) = filenameOf (t_stamp env) /\
     thumbnailPath (redact (recordOf a ti env r0)) = filenameOf (t_stamp env)).
Proof.
  intros g.
  assert (Hread : readArray g.1 g.2 = redact <$> readArray (screenshots r) w).
  { subst g. unfold getScreenshots, newArray, readArray. simpl.
    by rewrite lookup_insert_eq. }
  rewrite Hread. repeat apply conj.
  - apply Forall_fmap, Forall_forall. intros s _. simpl.
    split; apply basename_slashFree.
  - by rewrite <- list_fmap_compose.
  - by rewrite <- list_fmap_compose.
  - by rewrite <- list_fmap_compose.
  - intros a ti env r0. simpl.
    split; apply basename_join3;
      first [apply filenameOf_slashFree | apply filenameOf_nonempty].
Qed.

Lemma deleteFiles_frame fails record w :
  arrays (deleteFiles fails record w) = arrays w /\
  timers (deleteFiles fails record w) = timers w /\
  (forall p, p <> filePath record -> p <> thumbnailPath record ->
             files (deleteFiles fails record w) !! p = files w !! p).
Proof.
  unfold deleteFiles, unlinkExisting.
  destruct (files w !! filePath record); [destruct (fails (filePath record))|];
    simpl; try done.
  - destruct (delete _ _ !! thumbnailPath record);
      [destruct (fails (thumbnailPath record))|]; simpl;
      (repeat apply conj; [done|done|]); intros p Hp1 Hp2;
      by rewrite ?lookup_delete_ne.
  - destruct (files w !! thumbnailPath record);
      [destruct (fails (thumbnailPath record))|]; simpl;
      (repeat apply conj; [done|done|]); intros p Hp1 Hp2;
      by rewrite ?lookup_delete_ne.
Qed.

Lemma deleteFiles_unfailing fails record w :
  fails (filePath record) = None -> fails (thumbnailPath record) = None ->
  deleteFiles fails record w
  = unlinkIfExists (thumbnailPath record) (unlinkIfExists (filePath record) w).
Proof.
  intros H1 H2. unfold deleteFiles, unlinkExisting, unlinkIfExists.
  rewrite H1, H2. destruct w as [ar fs co ti fr]. simpl.
  destruct (fs !! filePath record) eqn:Hf; simpl.
  - destruct (delete _ _ !! thumbnailPath record) eqn:Ht; simpl; [done|].
    by rewrite (delete_id _ _ Ht).
  - rewrite (delete_id _ _ Hf).
    destruct (fs !! thumbnailPath record) eqn:Ht; simpl; [done|].
    by rewrite (delete_id _ _ Ht).
Qed.

(** X4. [deleteScreenshot(id)] for an identifier no record has returns
    false and changes nothing: no file, no array, no log line. *)
Theorem deleteScreenshot_unknown_id fails i r w :
  Forall (λ s, id s <> i) (readArray (screenshots r) w) ->
  deleteScreenshotWith fails i r w = (false, w).
Proof.
  intros Hno. unfold deleteScreenshotWith.
  destruct (list_find _ _) as [[index record]|] eqn:Hfind; [|done].
  apply list_find_Some in Hfind as (Hin & Hid & _).
  rewrite Forall_forall in Hno.
  destruct (Hno record); [|done]. by eapply list_elem_of_lookup_2.
Qed.

(** X5. [deleteScreenshot(id)] for the first record carrying that
    identifier returns true and removes that one record, keeping the
    others in order, whether or not the files could be removed; no other
    file and no other array is touched. When neither removal fails, the
    record's image and thumbnail are gone and nothing is logged. *)
Theorem deleteScreenshot_removes_record_and_files fails r w before record after :
  arrays w !! screenshots r = Some (before ++ record :: after) ->
  Forall (λ s, id s <> id record) before ->
  let out := deleteScreenshotWith fails (id record) r w in
  out.1 = true /\
  arrays out.2 !! screenshots r = Some (before ++ after) /\
  (forall p, p <> filePath record -> p <> thumbnailPath record ->
             files out.2 !! p = files w !! p) /\
  (forall l, l <> screenshots r -> arrays out.2 !! l = arrays w !! l) /\
  (fails (filePath record) = None -> fails (thumbnailPath record) = None ->
     out = deleteScreenshot (id record) r w /\
     files out.2 !! filePath record = None /\
     files out.2 !! thumbnailPath record = None /\
     console out.2 = console w).
Proof.
  intros Hl Hbefore out.
  assert (Hfind : list_find (λ s, id s = id record) (readArray (screenshots r) w)
                  = Some (length before, record)).
  { unfold readArray. rewrite Hl. simpl. apply list_find_Some.
    split; [by rewrite list_lookup_middle|]. split; [done|].
    intros j y Hj Hlt. rewrite lookup_app_l in Hj by done.
    rewrite Forall_forall in Hbefore. apply Hbefore.
    by eapply list_elem_of_lookup_2. }
  subst out. unfold deleteScreenshotWith, deleteScreenshot. rewrite Hfind.
  destruct (deleteFiles_frame fails record w) as (Ha & _ & Hf).
  cbn [fst snd]. repeat apply conj; try done.
  - simpl. rewrite Ha, lookup_alter_eq, Hl. simpl. by rewrite delete_middle.
  - intros l Hne. simpl. by rewrite Ha, lookup_alter_ne.
  - intros H1 H2. rewrite (deleteFiles_unfailing fails record w H1 H2).
    simpl. repeat apply conj; try done.
    + destruct (decide (thumbnailPath record = filePath record)) as [->|Hne].
      * apply lookup_delete_eq.
      * rewrite lookup_delete_ne by done. apply lookup_delete_eq.
    + apply lookup_delete_eq.
Qed.

End Artifacts.

Section ArtifactsExamples.

Import Recorder.
#[local] Existing Instance Scenario.asciiNames.

Lemma capture_stores_image_under_both_paths_witness :
  let r := Scenario.shipped_session.1 in
  let w := Scenario.shipped_session.2 in
  let s' := captureResolved Unknown "" Scenario.slack_env r w in
  let record := recordOf Unknown "" Scenario.slack_env r in
  arrays s'.2 !! screenshots r = Some (readArray (screenshots r) w ++ [record]) /\
  files s'.2 !! filePath record = Some "jpeg-1" /\
  files s'.2 !! thumbnailPath record = Some "jpeg-1" /\
  Js.basename (filePath record) = filenameOf (t_stamp Scenario.slack_env) /\
  Js.basename (thumbnailPath record) = filenameOf (t_stamp Scenario.slack_env) /\
  (forall p, p <> filePath record -> p <> thumbnailPath record ->
             files s'.2 !! p = files w !! p).
Proof.
  apply (capture_stores_image_under_both_paths Unknown "" Scenario.slack_env
           Scenario.shipped_session.1 Scenario.shipped_session.2
           (readArray (screenshots Scenario.shipped_session.1)
              Scenario.shipped_session.2) "jpeg-1");
    vm_compute; reflexivity.
Defined.

Lemma artifacts_in_capture_order_witness :
  screenshots (applyOps Scenario.three_cycles
                 (Scenario.started.1, Scenario.started.2)).1
  = screenshots Scenario.started.1 /\
  arrays (applyOps Scenario.three_cycles
            (Scenario.started.1, Scenario.started.2)).2
    !! screenshots Scenario.started.1
  = Some ([] ++ omap (appended Scenario.started.1) Scenario.three_cycles).
Proof.
  apply (artifacts_in_capture_order Scenario.three_cycles
           Scenario.started.1 Scenario.started.2 []).
  vm_compute. reflexivity.
Defined.

Lemma deleteScreenshot_unknown_id_witness :
  deleteScreenshotWith (λ _, None) "no-such-id" Scenario.shipped_session.1
    Scenario.shipped_session.2
  = (false, Scenario.shipped_session.2).
Proof.
  apply (deleteScreenshot_unknown_id (λ _, None) "no-such-id"
           Scenario.shipped_session.1 Scenario.shipped_session.2).
  apply (bool_decide_unpack _). vm_compute. exact I.
Defined.

Lemma deleteScreenshot_removes_record_and_files_witness :
  let r := Scenario.shipped_session.1 in
  let w := Scenario.shipped_session.2 in
  let record := recordOf Unknown "" Scenario.env0 r in
  let fails : string -> option string := λ _, Some "Error: EPERM" in
  let out := deleteScreenshotWith fails (id record) r w in
  out.1 = true /\
  arrays out.2 !! screenshots r = Some ([] ++ []) /\
  (forall p, p <> filePath record -> p <> thumbnailPath record ->
             files out.2 !! p = files w !! p) /\
  (forall l, l <> screenshots r -> arrays out.2 !! l = arrays w !! l) /\
  (fails (filePath record) = None -> fails (thumbnailPath record) = None ->
     out = deleteScreenshot (id record) r w /\
     files out.2 !! filePath record = None /\
     files out.2 !! thumbnailPath record = None /\
     console out.2 = console w).
Proof.
  apply (deleteScreenshot_removes_record_and_files (λ _, Some "Error: EPERM")
           Scenario.shipped_session.1 Scenario.shipped_session.2 []
           (recordOf Unknown "" Scenario.env0 Scenario.shipped_session.1) []).
  - vm_compute. reflexivity.
  - constructor.
Defined.

End ArtifactsExamples.

(** ** The deny-list *)

Section DenyList.

Import Recorder.

Context {lowercase : Js.Lowercase}.

Implicit Types (r : Recorder.t) (w : World) (env : CaptureEnv).

Lemma isExcludedApp_occurs r name :
  isExcludedApp r name = true <->
  exists entry, entry ∈ excludedApps (options r) /\
                occursIn (Js.toLowerCase entry) (Js.toLowerCase name).
Proof.
  unfold isExcludedApp, Js.some. rewrite existsb_exists.
  split; intros (entry & Hin & Hocc); exists entry.
  - split; [by apply list_elem_of_In | by apply includes_occurs].
  - split; [by apply list_elem_of_In | by apply includes_occurs].
Qed.

(** C7. A cycle that resolved an application whose lower-cased name
    contains a lower-cased deny-list entry, whatever the lower-casing
    does, ends at the exclusion check: the recorder object is unchanged,
    no file is written, no record is appended, no timer is touched; one
    line is logged. *)
Theorem excluded_cycle_changes_nothing appName windowTitle env r w entry :
  appName <> Unknown ->
  entry ∈ excludedApps (options r) ->
  occursIn (Js.toLowerCase entry) (Js.toLowerCase appName) ->
  (captureResolved appName windowTitle env r w).1 = r /\
  arrays (captureResolved appName windowTitle env r w).2 = arrays w /\
  files (captureResolved appName windowTitle env r w).2 = files w /\
  timers (captureResolved appName windowTitle env r w).2 = timers w /\
  fresh (captureResolved appName windowTitle env r w).2 = fresh w /\
  console (captureResolved appName windowTitle env r w).2
  = console w ++ ["Excluded app: " +:+ appName].
Proof.
  intros Hne Hin Hocc.
  assert (Hex : isExcludedApp r appName = true).
  { apply isExcludedApp_occurs. by exists entry. }
  unfold captureResolved.
  rewrite bool_decide_eq_true_2 by done. rewrite Hex. simpl. done.
Qed.

(** X6. An application is on the deny-list exactly when some entry, lower
    cased, occurs somewhere in the lower-cased name, whatever the
    lower-casing does; so two names that lower-case to the same string
    are treated alike. *)
Theorem isExcludedApp_is_substring_match r name :
  (isExcludedApp r name = true <->
   exists entry, entry ∈ excludedApps (options r) /\
                 occursIn (Js.toLowerCase entry) (Js.toLowerCase name)) /\
  (forall other, Js.toLowerCase other = Js.toLowerCase name ->
     isExcludedApp r other = isExcludedApp r name).
Proof.
  split; [apply isExcludedApp_occurs|].
  intros other Hsame. unfold isExcludedApp. by rewrite Hsame.
Qed.

(** X7. the deny-list the constructor stores. Left out, it is the eight
    default names; given, it is taken as given, so an explicit empty list
    excludes nothing, and a list with an empty name excludes every
    application (the empty string occurs in every name). *)
Theorem constructor_deny_list intervalMs dataDir w :
  excludedApps (options (new intervalMs dataDir None w).1) = defaultExcludedApps /\
  (forall name,
     isExcludedApp (new intervalMs dataDir (Some []) w).1 name = false) /\
  (forall names name, "" ∈ names ->
     isExcludedApp (new intervalMs dataDir (Some names) w).1 name = true).
Proof.
  repeat apply conj; try done.
  intros names name Hin.
  apply (isExcludedApp_occurs (new intervalMs dataDir (Some names) w).1 name).
  exists "". split; [done|]. rewrite Js.toLowerCase_empty.
  exists "", (Js.toLowerCase name). reflexivity.
Qed.

End DenyList.

Section DenyListExamples.

Import Recorder.

#[local] Existing Instance Scenario.asciiNames.

Lemma excluded_cycle_changes_nothing_witness :
  let r := Scenario.slack_recorder.1 in
  let w := Scenario.slack_recorder.2 in
  let s' := captureResolved "Slack for Desktop" "general" Scenario.slack_env r w in
  s'.1 = r /\ arrays s'.2 = arrays w /\ files s'.2 = files w /\
  timers s'.2 = timers w /\ fresh s'.2 = fresh w /\
  console s'.2 = console w ++ ["Excluded app: Slack for Desktop"].
Proof.
  apply (excluded_cycle_changes_nothing "Slack for Desktop" "general"
           Scenario.slack_env Scenario.slack_recorder.1 Scenario.slack_recorder.2
           "Slack").
  - apply (bool_decide_unpack _). vm_compute. exact I.
  - apply (bool_decide_unpack _). vm_compute. exact I.
  - exists "", " for desktop". reflexivity.
Defined.

(** On ASCII names the match ignores the case of the letters A to Z. *)
Example deny_list_ignores_ascii_case :
  isExcludedApp Scenario.slack_recorder.1 "my SLACK helper" = true /\
  isExcludedApp Scenario.slack_recorder.1 "slack" = true /\
  isExcludedApp Scenario.slack_recorder.1 "Slick" = false.
Proof. vm_compute. auto. Qed.

End DenyListExamples.

(** ** Accrual of active time *)

Section Accrual.

Import Recorder.

Context {lowercase : Js.Lowercase}.

Implicit Types (r : Recorder.t) (w : World) (c : Cycle).

(** X8. a flush touches one total only, that of the application of the
    open window, and adds the whole seconds since the anchor to it; with
    no window open it changes nothing. The sum of the totals does not go
    down when the clock has not gone back behind the anchor, and it does
    go down when it has. (For an application name under which the usage
    object holds own properties only.) *)
Theorem flush_adds_to_open_application_only now r :
  (lastWindowInfo r = None -> updateWindowDuration now r = r) /\
  (forall win, lastWindowInfo r = Some win -> Js.plainKey (app win) = true ->
     appUsage (updateWindowDuration now r) !! app win
     = Some (default 0 (appUsage r !! app win) + (now - since win) / 1000) /\
     (forall other, other <> app win ->
        appUsage (updateWindowDuration now r) !! other = appUsage r !! other) /\
     (since win <= now ->
        sumValues (appUsage r) <= sumValues (appUsage (updateWindowDuration now r))) /\
     (now < since win ->
        sumValues (appUsage (updateWindowDuration now r)) < sumValues (appUsage r))).
Proof.
  split; [apply updateWindowDuration_closed|].
  intros win Hwin _.
  pose proof (updateWindowDuration_sum now r) as Hsum.
  unfold openSeconds in Hsum. unfold updateWindowDuration in *.
  rewrite Hwin in *. simpl in *. repeat apply conj.
  - apply lookup_insert_eq.
  - intros other Hne. by rewrite lookup_insert_ne.
  - intros Hle. rewrite Hsum.
    assert (0 <= (now - since win) / 1000) by (apply Z.div_pos; lia). lia.
  - intros Hlt. rewrite Hsum.
    assert ((now - since win) / 1000 < 0) by (apply Z.div_lt_upper_bound; lia).
    lia.
Qed.

Lemma cycles_accrue (cycles : list Cycle) r w :
  Forall (λ c, c.1.1 <> Unknown /\ isExcludedApp r c.1.1 = false) cycles ->
  sumValues (appUsage (applyOps (opOf <$> cycles) (r, w)).1)
  = sumValues (appUsage r) + accrued (since <$> lastWindowInfo r) cycles /\
  options (applyOps (opOf <$> cycles) (r, w)).1 = options r.
Proof.
  revert r w. induction cycles as [|c cycles IH]; intros r w Hall.
  - simpl. split; [lia | done].
  - apply Forall_cons in Hall as [[Hknown Hfree] Hall].
    rewrite fmap_cons, applyOps_cons.
    change (applyOp (r, w) (opOf c))
      with (captureResolved c.1.1 c.1.2 c.2 r w).
    pose proof (captureResolved_known c.1.1 c.1.2 c.2 r w Hknown Hfree) as Hr1.
    destruct (captureResolved c.1.1 c.1.2 c.2 r w) as [r1 w1]. simpl in Hr1.
    assert (Ho : options r1 = options r).
    { rewrite Hr1. simpl.
      by destruct (updateWindowDuration_frame (t_flush c.2) r) as (-> & _). }
    destruct (IH r1 w1) as [Hsum Hopt].
    { eapply Forall_impl; [exact Hall|]. intros c' [H1 H2]. split; [done|].
      unfold isExcludedApp in *. by rewrite Ho. }
    split; [|congruence].
    rewrite Hsum, Hr1. simpl. rewrite updateWindowDuration_sum.
    unfold openSeconds. destruct (lastWindowInfo r); simpl; lia.
Qed.

(** X9. no interval is counted twice by consecutive captures. After a run
    of cycles for known applications that are not on the deny-list, the
    sum of the usage totals has grown by the whole seconds from each
    anchor to the next cycle's flush, each interval once. (The names, and
    that of the window open at the start, are names under which the usage
    object holds own properties only.) *)
Theorem consecutive_captures_count_each_interval_once (cycles : list Cycle) r w :
  plainWindow r = true ->
  Forall (λ c, c.1.1 <> Unknown /\ Js.plainKey c.1.1 = true /\
               isExcludedApp r c.1.1 = false) cycles ->
  sumValues (appUsage (applyOps (opOf <$> cycles) (r, w)).1)
  = sumValues (appUsage r) + accrued (since <$> lastWindowInfo r) cycles.
Proof.
  intros _ Hall. apply cycles_accrue.
  eapply Forall_impl; [exact Hall|]. by intros c (H1 & _ & H2).
Qed.

Lemma floor_sum_bounds a b :
  a / 1000 + b / 1000 <= (a + b) / 1000 <= a / 1000 + b / 1000 + 1.
Proof.
  pose proof (Z.div_mod a 1000 ltac:(lia)).
  pose proof (Z.div_mod b 1000 ltac:(lia)).
  pose proof (Z.mod_pos_bound a 1000 ltac:(lia)).
  pose proof (Z.mod_pos_bound b 1000 ltac:(lia)).
  split.
  - apply Z.div_le_lower_bound; lia.
  - assert ((a + b) / 1000 < a / 1000 + b / 1000 + 2); [|lia].
    apply Z.div_lt_upper_bound; lia.
Qed.

Lemma accrued_bounds (cycles : list Cycle) t0 :
  Forall (λ c, t_flush c.2 = t_since c.2) cycles ->
  (lastAnchor t0 cycles - t0) / 1000 - Z.of_nat (length cycles)
  <= accrued (Some t0) cycles <= (lastAnchor t0 cycles - t0) / 1000.
Proof.
  revert t0. induction cycles as [|c cycles IH]; intros t0 Hall.
  - unfold lastAnchor. cbn [foldl accrued length].
    rewrite Z.sub_diag. change (0 / 1000) with 0. lia.
  - apply Forall_cons in Hall as [Hc Hall].
    specialize (IH (t_since c.2) Hall).
    change (lastAnchor t0 (c :: cycles)) with (lastAnchor (t_since c.2) cycles).
    cbn [accrued length]. rewrite Hc.
    set (T := lastAnchor (t_since c.2) cycles) in *.
    pose proof (floor_sum_bounds (t_since c.2 - t0) (T - t_since c.2)) as Hf.
    replace (t_since c.2 - t0 + (T - t_since c.2)) with (T - t0) in Hf by lia.
    lia.
Qed.

(** X10. flooring loses less than a second per cycle and never adds time.
    When every cycle reads the clock once, a run of cycles for known
    applications adds at most the whole seconds from the first anchor to
    the last, and at least that minus one second per cycle. (The names,
    and that of the window open at the start, are names under which the
    usage object holds own properties only.) *)
Theorem flushes_never_count_more_than_elapsed (cycles : list Cycle) r w win :
  lastWindowInfo r = Some win ->
  Js.plainKey (app win) = true ->
  Forall (λ c, c.1.1 <> Unknown /\ Js.plainKey c.1.1 = true /\
               isExcludedApp r c.1.1 = false) cycles ->
  Forall (λ c, t_flush c.2 = t_since c.2) cycles ->
  let elapsed := (lastAnchor (since win) cycles - since win) / 1000 in
  let added := sumValues (appUsage (applyOps (opOf <$> cycles) (r, w)).1)
               - sumValues (appUsage r) in
  elapsed - Z.of_nat (length cycles) <= added <= elapsed.
Proof.
  intros Hwin _ Hall Hclock elapsed added.
  assert (Hall' : Forall (λ c, c.1.1 <> Unknown /\ isExcludedApp r c.1.1 = false)
                    cycles).
  { eapply Forall_impl; [exact Hall|]. by intros c (H1 & _ & H2). }
  destruct (cycles_accrue cycles r w Hall') as [Hsum _].
  rewrite Hwin in Hsum. simpl in Hsum.
  pose proof (accrued_bounds cycles (since win) Hclock).
  subst elapsed added. lia.
Qed.

End Accrual.

Section AccrualExamples.

Import Recorder.
#[local] Existing Instance Scenario.asciiNames.

Lemma consecutive_captures_count_each_interval_once_witness :
  sumValues (appUsage (applyOps (opOf <$> Sample.two_cycles)
                         (Scenario.open_session.1, Scenario.open_session.2)).1)
  = sumValues (appUsage Scenario.open_session.1)
    + accrued (since <$> lastWindowInfo Scenario.open_session.1)
        Sample.two_cycles.
Proof.
  apply (consecutive_captures_count_each_interval_once Sample.two_cycles
           Scenario.open_session.1 Scenario.open_session.2).
  - reflexivity.
  - apply (bool_decide_unpack _). vm_compute. exact I.
Defined.

Lemma flushes_never_count_more_than_elapsed_witness :
  let win := {| app := "Editor"; title := "main.ts"; since := 0 |} in
  let elapsed := (lastAnchor (since win) Sample.two_cycles - since win) / 1000 in
  let added :=
    sumValues (appUsage (applyOps (opOf <$> Sample.two_cycles)
                           (Scenario.open_session.1, Scenario.open_session.2)).1)
    - sumValues (appUsage Scenario.open_session.1) in
  elapsed - Z.of_nat (length Sample.two_cycles) <= added <= elapsed.
Proof.
  apply (flushes_never_count_more_than_elapsed Sample.two_cycles
           Scenario.open_session.1 Scenario.open_session.2
           {| app := "Editor"; title := "main.ts"; since := 0 |}).
  - vm_compute. reflexivity.
  - reflexivity.
  - apply (bool_decide_unpack _). vm_compute. exact I.
  - apply (bool_decide_unpack _). vm_compute. exact I.
Defined.

End AccrualExamples.

(** ** The scheduler *)

Section Scheduler.

Import Recorder.

Context {lowercase : Js.Lowercase}.

Implicit Types (r : Recorder.t) (w : World) (env : CaptureEnv).

Variable use_active_win : bool.

(** X11. while paused the timer callback captures nothing and mutates
    nothing, and still re-arms: the recorder is as it was but for its new
    timer handle, the arrays, the files and the console are untouched,
    and the fired handle is replaced by the new one. *)
Theorem tick_while_paused_only_rearms h env r w :
  paused r = true -> recording r = true -> h ∈ timers w ->
  let s' := tickUsing use_active_win h env r w in
  s'.1 = set_timer (Some (fresh w)) r /\
  arrays s'.2 = arrays w /\ files s'.2 = files w /\ console s'.2 = console w /\
  timers s'.2 = {[fresh w]} ∪ (timers w ∖ {[h]}).
Proof.
  intros Hp Hr Hh s'. subst s'. unfold tickUsing.
  rewrite bool_decide_eq_true_2 by done. rewrite Hp.
  unfold scheduleCapture. rewrite Hr. done.
Qed.

Lemma captureUsing_timers env r w :
  timers (captureUsing use_active_win env r w).2 = timers w /\
  timer (captureUsing use_active_win env r w).1 = timer r /\
  recording (captureUsing use_active_win env r w).1 = recording r.
Proof.
  unfold captureUsing, resolveWindow.
  assert (H : forall a ti w0, timers w0 = timers w ->
            timers (captureResolved a ti env r w0).2 = timers w /\
            timer (captureResolved a ti env r w0).1 = timer r /\
            recording (captureResolved a ti env r w0).1 = recording r).
  { intros a ti w0 Hw0. unfold captureResolved.
    destruct (_ && _); [done|].
    set (r1 := if bool_decide (a ≠ Unknown) then _ else r).
    assert (Hr1 : timer r1 = timer r /\ recording r1 = recording r).
    { subst r1. destruct (bool_decide _); [|done]. simpl.
      by destruct (updateWindowDuration_frame (t_flush env) r)
        as (_ & -> & -> & _). }
    by destruct (io env). }
  destruct use_active_win; [destruct (activeWin env)|]; by apply H.
Qed.

Lemma own_timer_cleared (T : gset nat) (o : option nat) h :
  h ∈ T -> T ⊆ match o with Some h' => {[h']} | None => ∅ end -> T ∖ {[h]} = ∅.
Proof.
  intros Hh Hsub. apply set_eq. intros x.
  rewrite elem_of_difference, elem_of_singleton, elem_of_empty.
  split; [|done]. intros [Hx Hne]. destruct o as [h'|].
  - pose proof (Hsub x Hx) as Hxn. pose proof (Hsub h Hh) as Hhn.
    rewrite elem_of_singleton in Hxn, Hhn. congruence.
  - by apply (Hsub x) in Hx.
Qed.

Lemma stop_clears_own_timer (T : gset nat) (o : option nat) :
  T ⊆ match o with Some h' => {[h']} | None => ∅ end ->
  match o with Some h => T ∖ {[h]} | None => T end = ∅.
Proof.
  intros Hsub. apply set_eq. intros x. rewrite elem_of_empty.
  split; [|done]. destruct o as [h'|].
  - rewrite elem_of_difference. intros [Hx Hne]. apply Hsub in Hx. done.
  - intros Hx. by apply Hsub in Hx.
Qed.

Lemma stop_timers now r w :
  armedOnce r w -> timers (stop now r w).2 = ∅.
Proof.
  intros Harmed. rewrite <- (stop_clears_own_timer _ _ Harmed).
  unfold stop. change (timer (set_recording false r)) with (timer r).
  by destruct (timer r).
Qed.

Lemma scheduleCapture_armedOnce r w :
  timers w = ∅ -> armedOnce (scheduleCapture r w).1 (scheduleCapture r w).2.
Proof.
  intros Hw. unfold armedOnce, scheduleCapture.
  destruct (recording r); simpl; rewrite Hw.
  - by rewrite union_empty_r_L.
  - apply empty_subseteq.
Qed.

(** One event other than [start()] keeps the pending timers within the
    recorder's current one. *)
Lemma step_armedOnce e r w :
  isStart e = false -> armedOnce r w ->
  armedOnce (stepUsing use_active_win (r, w) e).1
            (stepUsing use_active_win (r, w) e).2.
Proof.
  intros Hns Harmed.
  destruct e as [now|now|now| |h env|tf te| |i|tf te]; cbn [stepUsing].
  - discriminate.
  - unfold armedOnce. rewrite (stop_timers now r w Harmed). apply empty_subseteq.
  - unfold armedOnce in *. simpl.
    by destruct (updateWindowDuration_frame now (set_paused true r))
      as (_ & -> & _).
  - done.
  - unfold tickUsing. destruct (bool_decide (h ∈ timers w)) eqn:Hh; [|done].
    apply bool_decide_eq_true in Hh.
    assert (Hcleared : timers (clearTimeout h w) = ∅)
      by exact (own_timer_cleared _ _ h Hh Harmed).
    destruct (paused r).
    + by apply scheduleCapture_armedOnce.
    + destruct (captureUsing_timers env r (clearTimeout h w)) as (Ht & _ & _).
      destruct (captureUsing use_active_win env r (clearTimeout h w))
        as [r1 w1]. simpl in Ht.
      apply scheduleCapture_armedOnce. by rewrite Ht.
  - unfold armedOnce in *. simpl.
    by destruct (updateWindowDuration_frame tf r) as (_ & -> & _).
  - done.
  - unfold armedOnce in *. simpl. unfold deleteScreenshot.
    by destruct (list_find _ _) as [[]|].
  - unfold armedOnce in *. simpl.
    by destruct (updateWindowDuration_frame tf r) as (_ & -> & _).
Qed.

Lemma run_armedOnce es r w :
  Forall (λ e, isStart e = false) es -> armedOnce r w ->
  armedOnce (runUsing use_active_win es (r, w)).1
            (runUsing use_active_win es (r, w)).2.
Proof.
  revert r w. induction es as [|e es IH]; intros r w Hes Harmed; [done|].
  apply Forall_cons in Hes as [He Hes].
  unfold runUsing in *. cbn [foldl].
  pose proof (step_armedOnce e r w He Harmed) as H1.
  destruct (stepUsing use_active_win (r, w) e) as [r1 w1]. by apply IH.
Qed.

(** X12. a recorder that is started once never has two capture chains.
    From a new recorder in a world without pending timers, after
    [start()] and any events other than another [start()], the only timer
    that can be pending is the recorder's current one. *)
Theorem started_once_has_one_timer es now intervalMs dataDir excludedApps w0 :
  timers w0 = ∅ ->
  Forall (λ e, isStart e = false) es ->
  let s := runUsing use_active_win (Start now :: es)
             (new intervalMs dataDir excludedApps w0) in
  timers s.2 ⊆ match timer s.1 with Some h => {[h]} | None => ∅ end /\
  (size (timers s.2) <= 1)%nat.
Proof.
  intros Hw0 Hes s.
  assert (Harmed : armedOnce s.1 s.2).
  { subst s. unfold runUsing. cbn [foldl].
    pose proof (scheduleCapture_armedOnce) as Hsched.
    destruct (stepUsing use_active_win
                (new intervalMs dataDir excludedApps w0) (Start now))
      as [r1 w1] eqn:Hstart.
    apply (run_armedOnce es); [done|].
    unfold new, newArray in Hstart. cbn [stepUsing] in Hstart.
    unfold start, newArray in Hstart. cbn -[scheduleCapture] in Hstart.
    match type of Hstart with
    | scheduleCapture ?x ?y = _ =>
        specialize (Hsched x y); rewrite Hstart in Hsched
    end.
    apply Hsched. simpl. exact Hw0. }
  split; [exact Harmed|].
  unfold armedOnce in Harmed. revert Harmed.
  destruct (timer s.1) as [h|]; intros Harmed;
    (etransitivity; [apply (subseteq_size _ _ Harmed)|]);
    rewrite ?size_singleton, ?size_empty; lia.
Qed.

Lemma omap_pointwise {A B} (f g : A -> option B) (l : list A) :
  Forall (λ x, f x = g x) l -> omap f l = omap g l.
Proof.
  induction 1 as [|x l Hx _ IH]; [done|].
  change (omap f (x :: l)) with (match f x with
                                 | Some y => y :: omap f l
                                 | None => omap f l end).
  change (omap g (x :: l)) with (match g x with
                                 | Some y => y :: omap g l
                                 | None => omap g l end).
  by rewrite Hx, IH.
Qed.

(** A timer callback with no other cycle in flight: firing and landing,
    one after the other, is the undisturbed callback. *)
Lemma fire_then_land h env r w :
  land 0 (fire h env (r, w, [])) = (tickUsing USE_ACTIVE_WIN h env r w, []).
Proof.
  unfold fire, land, tickUsing.
  destruct (bool_decide (h ∈ timers w)); [|done].
  destruct (paused r); simpl; [by destruct (scheduleCapture _ _)|].
  change (captureUsing USE_ACTIVE_WIN) with capture.
  by destruct (capture env r (clearTimeout h w)).
Qed.

(** What [stop()] leaves of a session. *)
Lemma stop_session now r w :
  let s := Recorder.stop now r w in
  Recorder.screenshots s.1 = Recorder.screenshots r /\
  Recorder.recording s.1 = false /\
  Recorder.timer s.1 = None /\
  arrays s.2 = arrays w /\ files s.2 = files w /\
  timers s.2
  = timers w ∖ match Recorder.timer r with Some h => {[h]} | None => ∅ end.
Proof.
  unfold Recorder.stop.
  change (Recorder.timer (Recorder.set_recording false r))
    with (Recorder.timer r).
  destruct (Recorder.timer r) as [h|] eqn:Ht; simpl.
  - destruct (updateWindowDuration_frame now
                (Recorder.set_timer None (Recorder.set_recording false r)))
      as (_ & -> & -> & _ & -> & _).
    by repeat apply conj.
  - destruct (updateWindowDuration_frame now (Recorder.set_recording false r))
      as (_ & -> & -> & _ & -> & _).
    simpl. rewrite Ht. repeat apply conj; try done.
    by rewrite difference_empty_L.
Qed.

(** After [stop()], with no timer pending: callbacks start nothing, a
    cycle in flight that lands pushes its record and does not re-arm. *)
Lemma stopped_run xs r0 w0 (flying : list CaptureEnv) l0 :
  recording r0 = false -> timers w0 = ∅ ->
  arrays w0 !! screenshots r0 = Some l0 ->
  Forall (λ x, isCallback x = true) xs ->
  let s := runFlying xs (r0, w0, flying) in
  s.1.1 = r0 /\ timers s.1.2 = ∅ /\
  (exists landing, landing ++ s.2 ≡ₚ flying /\
     arrays s.1.2 !! screenshots r0 = Some (l0 ++ omap (landed r0) landing)) /\
  (flying = [] -> s = (r0, w0, [])).
Proof.
  intros Hrec. revert w0 flying l0.
  induction xs as [|x xs IH]; intros w0 flying l0 Hnone Hl Hxs s.
  - subst s. simpl. repeat apply conj; try done; [|by intros ->].
    exists []. by rewrite app_nil_r.
  - apply Forall_cons in Hxs as [Hx Hxs]. subst s.
    unfold runFlying. cbn [foldl]. fold (runFlying xs).
    assert (Hidle : forall h, bool_decide (h ∈ timers w0) = false).
    { intros h. apply bool_decide_eq_false. rewrite Hnone.
      apply not_elem_of_empty. }
    destruct x as [e|h env|i].
    + destruct e as [| | | |h env| | | |]; try discriminate.
      cbn [stepFlying stepUsing fst snd]. unfold tickUsing.
      rewrite Hidle. by apply IH.
    + cbn [stepFlying]. unfold fire. rewrite Hidle. by apply IH.
    + cbn [stepFlying]. unfold land.
      destruct (flying !! i) as [env|] eqn:Hi; [|by apply IH].
      destruct (capture_lands env r0 w0) as (Hr & Ht & _ & Ha).
      destruct (capture env r0 w0) as [r1 w1]. simpl in Hr, Ht, Ha. subst r1.
      unfold scheduleCapture. rewrite Hrec. cbv beta iota zeta.
      assert (Hl1 : arrays w1 !! screenshots r0
                    = Some (l0 ++ option_list (landed r0 env))).
      { rewrite Ha. destruct (landed r0 env); simpl.
        - by rewrite lookup_alter_eq, Hl.
        - by rewrite app_nil_r. }
      destruct (IH w1 (delete i flying) _ (eq_trans Ht Hnone) Hl1 Hxs)
        as (H1 & H2 & (landing & Hperm & Harr) & _).
      unfold runFlying in *.
      repeat apply conj; try done.
      * exists (env :: landing). split.
        -- simpl. rewrite Hperm. symmetry. by apply delete_Permutation.
        -- rewrite Harr, <- app_assoc. f_equal. f_equal. simpl.
           by destruct (landed r0 env).
      * intros ->. done.
Qed.

(** X13. after [stop()] no new cycle starts. When at most the recorder's
    own timer was pending, [stop()] leaves none pending; whatever timer
    callbacks are attempted afterwards, the recorder stays as [stop()]
    left it and no timer is armed again. Only the cycles that were in
    flight when [stop()] was called still land: each pushes its record,
    if its screenshot and writes succeed, and nothing else is added to the
    array. With no cycle in flight nothing changes at all. *)
Theorem no_new_cycle_after_stop xs now r w (flying : list CaptureEnv) l :
  armedOnce r w ->
  arrays w !! screenshots r = Some l ->
  Forall (λ x, isCallback x = true) xs ->
  let s0 := stop now r w in
  let s := runFlying xs (s0.1, s0.2, flying) in
  timers s0.2 = ∅ /\
  s.1.1 = s0.1 /\
  timers s.1.2 = ∅ /\
  (exists landing, landing ++ s.2 ≡ₚ flying /\
     arrays s.1.2 !! screenshots r = Some (l ++ omap (landed r) landing)) /\
  (flying = [] -> s = (s0.1, s0.2, [])).
Proof.
  intros Harmed Hl Hxs s0 s.
  pose proof (stop_timers now r w Harmed) as Hnone. fold s0 in Hnone.
  destruct (stop_session now r w) as (Hsc & Hrec & _ & Ha & _ & _).
  fold s0 in Hsc, Hrec, Ha.
  assert (Hopt : options s0.1 = options r).
  { subst s0. unfold stop. change (timer (set_recording false r)) with (timer r).
    destruct (timer r); simpl;
      match goal with
      | |- context [updateWindowDuration ?t ?x] =>
          by destruct (updateWindowDuration_frame t x) as (-> & _)
      end. }
  assert (Hl0 : arrays s0.2 !! screenshots s0.1 = Some l) by (by rewrite Ha, Hsc).
  destruct (stopped_run xs s0.1 s0.2 flying l Hrec Hnone Hl0 Hxs)
    as (H1 & H2 & (landing & Hperm & Harr) & H3).
  fold s in H1, H2, Hperm, Harr, H3.
  repeat apply conj; try done.
  exists landing. split; [done|]. rewrite <- Hsc, Harr.
  f_equal. f_equal. apply omap_pointwise, Forall_forall. intros env _.
  unfold landed. by rewrite (recordOf_options Unknown "" env r s0.1 Hopt).
Qed.

End Scheduler.

Section SchedulerExamples.

Import Recorder.

#[local] Existing Instance Scenario.asciiNames.

Lemma tick_while_paused_only_rearms_witness :
  let r := Sample.paused_session.1 in
  let w := Sample.paused_session.2 in
  let s' := tickUsing true 2%nat Scenario.env0 r w in
  s'.1 = set_timer (Some (fresh w)) r /\
  arrays s'.2 = arrays w /\ files s'.2 = files w /\ console s'.2 = console w /\
  timers s'.2 = {[fresh w]} ∪ (timers w ∖ {[2%nat]}).
Proof.
  apply (tick_while_paused_only_rearms true 2%nat Scenario.env0
           Sample.paused_session.1 Sample.paused_session.2).
  - vm_compute. reflexivity.
  - vm_compute. reflexivity.
  - apply (bool_decide_unpack _). vm_compute. exact I.
Defined.

Lemma started_once_has_one_timer_witness :
  let s := runUsing false (Start 0 :: Sample.later_events)
             (new 60000 "/data/recordings" None emptyWorld) in
  timers s.2 ⊆ match timer s.1 with Some h => {[h]} | None => ∅ end /\
  (size (timers s.2) <= 1)%nat.
Proof.
  apply (started_once_has_one_timer false Sample.later_events 0 60000
           "/data/recordings" None emptyWorld).
  - reflexivity.
  - apply (bool_decide_unpack _). vm_compute. exact I.
Defined.

Lemma no_new_cycle_after_stop_witness :
  let r := Scenario.shipped_session.1 in
  let w := Scenario.shipped_session.2 in
  let s0 := stop 9000 r w in
  let s := runFlying Sample.late_steps (s0.1, s0.2, Sample.in_flight) in
  timers s0.2 = ∅ /\
  s.1.1 = s0.1 /\
  timers s.1.2 = ∅ /\
  (exists landing, landing ++ s.2 ≡ₚ Sample.in_flight /\
     arrays s.1.2 !! screenshots r
     = Some (readArray (screenshots r) w ++ omap (landed r) landing)) /\
  (Sample.in_flight = [] -> s = (s0.1, s0.2, [])).
Proof.
  apply (no_new_cycle_after_stop Sample.late_steps 9000
           Scenario.shipped_session.1 Scenario.shipped_session.2
           Sample.in_flight
           (readArray (screenshots Scenario.shipped_session.1)
              Scenario.shipped_session.2)).
  - unfold armedOnce. apply (bool_decide_unpack _). vm_compute. exact I.
  - vm_compute. reflexivity.
  - apply (bool_decide_unpack _). vm_compute. exact I.
Defined.

(** A cycle in flight when [stop()] is called: its record is pushed after
    the stop, and nothing is armed; the callbacks attempted later start
    nothing. *)
Example capture_in_flight_lands_after_stop :
  let r := Scenario.shipped_session.1 in
  let w := Scenario.shipped_session.2 in
  let s0 := stop 9000 r w in
  let s := runFlying Sample.late_steps (s0.1, s0.2, Sample.in_flight) in
  length (readArray (screenshots r) s0.2) = 1%nat /\
  length (readArray (screenshots r) s.1.2) = 2%nat /\
  recording s.1.1 = false /\ s.2 = [].
Proof. vm_compute. auto. Qed.

End SchedulerExamples.

(** ** Starting a session *)

Section Restart.

Import Recorder.

Context {lowercase : Js.Lowercase}.

Implicit Types (r : Recorder.t) (w : World) (env : CaptureEnv).

(** X14. [start()] begins an empty session and keeps the open window. The
    statistics read next show no screenshots, the new start time and no
    end time; but [lastWindowInfo] is not reset, so a window left open by
    an earlier session is flushed into the new one: the active seconds
    are those since its old anchor (for a window whose application name
    is one under which the usage object holds own properties only). *)
Theorem start_begins_empty_session_but_keeps_window now t_flush t_end r w :
  let s := start now r w in
  let st := (getStats t_flush t_end s.1 s.2).1 in
  RecordingStats.totalScreenshots st = 0%nat /\
  RecordingStats.startTime st = Js.toISOString now /\
  RecordingStats.endTime st = None /\
  isRecording s.1 = true /\
  appUsage s.1 = ∅ /\
  lastWindowInfo s.1 = lastWindowInfo r /\
  (plainWindow r = true ->
   RecordingStats.totalActiveSeconds st = openSeconds t_flush r).
Proof.
  intros s st.
  assert (Hs1 : s.1 = set_timer (Some (S (fresh w)))
            (set_appUsage ∅ (set_screenshots (fresh w) (set_startTime (Some now)
               (set_paused false (set_recording true r)))))) by reflexivity.
  assert (Harr : readArray (fresh w) s.2 = []).
  { subst s. unfold readArray, start, newArray, scheduleCapture. simpl.
    by rewrite lookup_insert_eq. }
  subst st. clearbody s. destruct s as [r1 w1]. cbn [fst snd] in *.
  unfold getStats.
  destruct (updateWindowDuration_frame t_flush r1)
    as (_ & _ & Hrec & _ & Hsc & Hst).
  pose proof (updateWindowDuration_sum t_flush r1) as Hsum.
  cbn [fst RecordingStats.totalScreenshots RecordingStats.startTime
       RecordingStats.endTime RecordingStats.totalActiveSeconds].
  rewrite Hrec, Hsc, Hst, Hsum. unfold isRecording, openSeconds.
  assert (Hf : screenshots r1 = fresh w /\ recording r1 = true /\
               paused r1 = false /\ startTime r1 = Some now /\
               appUsage r1 = ∅ /\ lastWindowInfo r1 = lastWindowInfo r)
    by (by rewrite Hs1).
  destruct Hf as (-> & -> & -> & -> & -> & ->). rewrite Harr.
  repeat apply conj; try done.
  all: try (intros _); rewrite ?sumValues_empty; try lia.
Qed.

(** X15. [start()] on a recorder whose timer is still pending leaks that
    timer. The new timer replaces the handle the recorder remembers, so a
    later [stop()] clears only the new one: the old handle stays pending
    although the session is stopped, and when it fires the cycle runs and
    a screenshot is recorded. *)
Theorem start_while_armed_leaks_a_timer h now later env img r w :
  timer r = Some h -> h ∈ timers w -> (h < fresh w)%nat ->
  io env = Captured img ->
  let s1 := start now r w in
  let s2 := stop later s1.1 s1.2 in
  let s3 := tick h env s2.1 s2.2 in
  recording s2.1 = false /\
  h ∈ timers s2.2 /\
  readArray (screenshots s2.1) s2.2 = [] /\
  readArray (screenshots s2.1) s3.2 = [recordOf Unknown "" env s2.1].
Proof.
  intros Ht Hh Hlt Hio s1 s2 s3.
  pose proof (eq_refl : s1.1 = set_timer (Some (S (fresh w)))
            (set_appUsage ∅ (set_screenshots (fresh w) (set_startTime (Some now)
               (set_paused false (set_recording true r)))))) as Hr1.
  pose proof (eq_refl : arrays s1.2 = <[fresh w := []]> (arrays w)) as Harr1.
  pose proof (eq_refl : timers s1.2 = {[S (fresh w)]} ∪ timers w) as Htim1.
  subst s3 s2. clearbody s1. destruct s1 as [r1 w1]. cbn [fst snd] in *.
  assert (Hf1 : timer r1 = Some (S (fresh w)) /\ paused r1 = false /\
                screenshots r1 = fresh w) by (by rewrite Hr1).
  destruct Hf1 as (Htimer1 & Hpaused1 & Hscr1). clear Hr1.
  unfold stop. change (timer (set_recording false r1)) with (timer r1).
  rewrite Htimer1. cbn [fst snd].
  destruct (updateWindowDuration_frame later
              (set_timer None (set_recording false r1)))
    as (_ & _ & Hrec & Hpau & Hscr & _).
  set (r2 := updateWindowDuration later _) in *.
  cbn [recording paused screenshots set_timer set_recording] in Hrec, Hpau, Hscr.
  rewrite Hpaused1 in Hpau. rewrite Hscr1 in Hscr. clearbody r2.
  set (w2 := log "Recording stopped" (clearTimeout (S (fresh w)) w1)).
  assert (Harr2 : arrays w2 = <[fresh w := []]> (arrays w)) by exact Harr1.
  assert (Htim2 : timers w2 = ({[S (fresh w)]} ∪ timers w) ∖ {[S (fresh w)]}).
  { subst w2. cbn [timers log clearTimeout set_timers]. by rewrite Htim1. }
  clearbody w2. clear Harr1 Htim1 w1.
  assert (Hh2 : h ∈ timers w2).
  { rewrite Htim2. apply elem_of_difference. split; [by apply elem_of_union_r|].
    rewrite elem_of_singleton. lia. }
  assert (Hempty : readArray (screenshots r2) w2 = []).
  { unfold readArray. rewrite Hscr, Harr2, lookup_insert_eq. done. }
  repeat apply conj; try done.
  unfold tick, tickUsing. rewrite bool_decide_eq_true_2 by done. rewrite Hpau.
  change (captureUsing USE_ACTIVE_WIN env r2 (clearTimeout h w2))
    with (applyOp (r2, clearTimeout h w2) (OpCapture Unknown "" env)).
  destruct (applyOp_array (OpCapture Unknown "" env) r2 (clearTimeout h w2) [])
    as (_ & Hs & Ha).
  { cbn [arrays clearTimeout set_timers]. rewrite Hscr, Harr2.
    apply lookup_insert_eq. }
  assert (Hrec3 : recording (applyOp (r2, clearTimeout h w2)
                               (OpCapture Unknown "" env)).1 = false).
  { cbn [applyOp]. rewrite unknown_cycle_recorder. exact Hrec. }
  destruct (applyOp (r2, clearTimeout h w2) (OpCapture Unknown "" env))
    as [r3 w3]. cbn [fst snd] in *.
  unfold scheduleCapture. rewrite Hrec3. cbn [snd].
  unfold readArray. rewrite Ha.
  unfold appended, suppressed.
  rewrite bool_decide_eq_false_2 by (intros H; by apply H).
  cbn [andb]. rewrite Hio. done.
Qed.

End Restart.

Section RestartExamples.

Import Recorder.
#[local] Existing Instance Scenario.asciiNames.

Lemma start_while_armed_leaks_a_timer_witness :
  let r := Scenario.started.1 in
  let w := Scenario.started.2 in
  let s1 := start 1000 r w in
  let s2 := stop 2000 s1.1 s1.2 in
  let s3 := tick 2%nat Scenario.env0 s2.1 s2.2 in
  recording s2.1 = false /\
  2%nat ∈ timers s2.2 /\
  readArray (screenshots s2.1) s2.2 = [] /\
  readArray (screenshots s2.1) s3.2 = [recordOf Unknown "" Scenario.env0 s2.1].
Proof.
  apply (start_while_armed_leaks_a_timer 2%nat 1000 2000 Scenario.env0 "jpeg-0"
           Scenario.started.1 Scenario.started.2).
  - vm_compute. reflexivity.
  - apply (bool_decide_unpack _). vm_compute. exact I.
  - vm_compute. lia.
  - reflexivity.
Defined.

End RestartExamples.

(** ** The storage transport: credential and folders *)

Section Credential.

Import GoogleDriveUploader.

Variable net : Net.

Implicit Types (st : St).

(** What a successful [getAccessToken] leaves cached. *)
Lemma getAccessToken_caches now_ms st tok st1 :
  getAccessToken net now_ms st = (Returns tok, st1) ->
  tok <> "" -> accessToken st1.1 = Some tok.
Proof.
  destruct st as [this s]. unfold getAccessToken, Async.bind, Async.get.
  cbn [fst]. destruct (tokenStillValid (now_ms / 1000) this) eqn:Hvalid.
  - unfold Async.ret. intros [= <- <-] Hne. simpl.
    unfold tokenStillValid in Hvalid. by destruct (accessToken this).
  - unfold fetch. destruct (net (sent s) _) as [resp|err]; [|discriminate].
    destruct (negb (ok resp)); [discriminate|].
    unfold json. destruct (json_rejects resp); [discriminate|].
    simpl. by intros [= <- <-] _.
Qed.

(** X16. the bearer credential is cached. After a call that returned a
    non-empty token, a later call made while the clock, in whole seconds,
    is still more than 60 seconds before the expiry returns the same
    token, sends nothing and changes nothing; from 60 seconds before the
    expiry on, it asks the token endpoint again. *)
Theorem token_is_reused_until_the_margin now1 now2 st tok st1 :
  getAccessToken net now1 st = (Returns tok, st1) ->
  tok <> "" ->
  (now2 / 1000 < tokenExpiry st1.1 - 60 ->
     getAccessToken net now2 st1 = (Returns tok, st1)) /\
  (tokenExpiry st1.1 - 60 <= now2 / 1000 ->
     sent (getAccessToken net now2 st1).2.2
     = sent st1.2 ++ [tokenRequest st1.1]).
Proof.
  intros Hfirst Hne.
  pose proof (getAccessToken_caches now1 st tok st1 Hfirst Hne) as Hcached.
  destruct st1 as [this1 s1]. cbn [fst snd] in *.
  unfold getAccessToken, Async.bind, Async.get. cbn [fst].
  unfold tokenStillValid. rewrite Hcached.
  rewrite bool_decide_eq_false_2 by done. cbn [negb andb].
  split; intros Hclock.
  - replace (now2 / 1000 <? tokenExpiry this1 - 60) with true
      by (symmetry; by apply Z.ltb_lt).
    done.
  - replace (now2 / 1000 <? tokenExpiry this1 - 60) with false
      by (symmetry; by apply Z.ltb_ge).
    unfold fetch. change (tokenRequest this1) with
      {| method := "POST"; url := TOKEN_URL; query := [];
         headers := [("Content-Type", "application/x-www-form-urlencoded")];
         body := UrlEncoded
           [("client_id", client_id (config this1));
            ("client_secret", client_secret (config this1));
            ("refresh_token", refresh_token (config this1));
            ("grant_type", "refresh_token")] |}.
    destruct (net (sent s1) _) as [resp|err]; [|done].
    destruct (negb (ok resp)); [done|].
    unfold json. by destruct (json_rejects resp).
Qed.

(** X17. a refused credential ends the upload at once. When no valid token
    is cached and the token endpoint answers with a failure status,
    [uploadZip] resolves to a failure carrying the endpoint's text, having
    sent that one request only: no folder is looked up or created and no
    byte of the file is transferred. *)
Theorem refused_token_ends_upload now_ms zip fileName projectName subjectName
    st resp :
  tokenStillValid (now_ms / 1000) st.1 = false ->
  net (sent st.2) (tokenRequest st.1) = Returns resp ->
  ok resp = false ->
  let out := uploadZip net now_ms zip fileName projectName subjectName st in
  out.1 = Returns {| success := false; fileId := None; webViewLink := None;
                     error := Some (Error ("Failed to get access token: "
                                           +:+ text resp)) |} /\
  sent out.2.2 = sent st.2 ++ [tokenRequest st.1] /\
  out.2.1 = st.1.
Proof.
  intros Hvalid Hnet Hok out. destruct st as [this s]. cbn [fst snd] in *.
  assert (Htoken : getAccessToken net now_ms (this, s)
            = (Throws (Error ("Failed to get access token: " +:+ text resp)),
               (this, afterSending (tokenRequest this) s))).
  { unfold getAccessToken, Async.bind, Async.get. cbn [fst].
    rewrite Hvalid. unfold fetch.
    change {| method := "POST"; url := TOKEN_URL; query := [];
              headers := [("Content-Type", "application/x-www-form-urlencoded")];
              body := UrlEncoded
                [("client_id", client_id (config this));
                 ("client_secret", client_secret (config this));
                 ("refresh_token", refresh_token (config this));
                 ("grant_type", "refresh_token")] |}
      with (tokenRequest this).
    rewrite Hnet, Hok. done. }
  assert (Hbody : uploadZipBody net now_ms zip fileName projectName subjectName
                    (this, s)
            = (Throws (Error ("Failed to get access token: " +:+ text resp)),
               (this, afterSending (tokenRequest this) s))).
  { unfold uploadZipBody, resolveTarget.
    unfold Async.bind at 1. unfold Async.bind at 1. by rewrite Htoken. }
  subst out. unfold uploadZip, Async.try. rewrite Hbody. done.
Qed.

End Credential.

Section CredentialExamples.

Import GoogleDriveUploader.

Lemma token_is_reused_until_the_margin_witness :
  let st1 := (getAccessToken Scenario.friendlyNet 3000000 Scenario.drive).2 in
  (4000000 / 1000 < tokenExpiry st1.1 - 60 ->
     getAccessToken Scenario.friendlyNet 4000000 st1 = (Returns "token-1", st1)) /\
  (tokenExpiry st1.1 - 60 <= 4000000 / 1000 ->
     sent (getAccessToken Scenario.friendlyNet 4000000 st1).2.2
     = sent st1.2 ++ [tokenRequest st1.1]).
Proof.
  apply (token_is_reused_until_the_margin Scenario.friendlyNet 3000000 4000000
           Scenario.drive "token-1"
           (getAccessToken Scenario.friendlyNet 3000000 Scenario.drive).2).
  - vm_compute. reflexivity.
  - apply (bool_decide_unpack _). vm_compute. exact I.
Defined.

Lemma refused_token_ends_upload_witness :
  let out := uploadZip Sample.refusingNet 3000000 (Scenario.zipOf 1000)
               "a.zip" "Project" (Some "Subject") Scenario.drive in
  out.1 = Returns {| success := false; fileId := None; webViewLink := None;
                     error := Some (Error ("Failed to get access token: "
                                           +:+ text Sample.refusedResponse)) |} /\
  sent out.2.2 = sent Scenario.drive.2 ++ [tokenRequest Scenario.drive.1] /\
  out.2.1 = Scenario.drive.1.
Proof.
  apply (refused_token_ends_upload Sample.refusingNet 3000000
           (Scenario.zipOf 1000) "a.zip" "Project" (Some "Subject")
           Scenario.drive Sample.refusedResponse); reflexivity.
Defined.

End CredentialExamples.

Section Folders.

Import GoogleDriveUploader.

Variable net : Net.

Implicit Types (st : St).

(** X18. look up, never duplicate. When the look-up is answered with at
    least one folder, [getOrCreateFolder] returns the first one found and
    sends nothing else: no folder is created. *)
Theorem existing_folder_is_not_created_again folderName parentId token st
    resp first others :
  net (sent st.2) (searchRequest folderName parentId token) = Returns resp ->
  ok resp = true -> json_rejects resp = None ->
  found_files resp = first :: others ->
  getOrCreateFolder net folderName parentId token st
  = (Returns first,
     (st.1, afterSending (searchRequest folderName parentId token) st.2)).
Proof.
  intros Hnet Hok Hjson Hfound. destruct st as [this s]. cbn [fst snd] in *.
  unfold getOrCreateFolder, Async.bind, fetch.
  fold (searchRequest folderName parentId token).
  rewrite Hnet, Hok. cbn [negb]. unfold json. rewrite Hjson. cbn.
  by rewrite Hfound.
Qed.

(** X19. create when absent, once. When the look-up is answered with no
    folder and the creation is accepted, [getOrCreateFolder] has sent the
    look-up and then one creation, and returns the identifier the
    creation gave ([undefined] when it gave none). *)
Theorem absent_folder_is_created_once folderName parentId token st
    found created :
  net (sent st.2) (searchRequest folderName parentId token) = Returns found ->
  ok found = true -> json_rejects found = None -> found_files found = [] ->
  net (sent st.2 ++ [searchRequest folderName parentId token])
      (createRequest folderName parentId token) = Returns created ->
  ok created = true -> json_rejects created = None ->
  let out := getOrCreateFolder net folderName parentId token st in
  out.1 = Returns (file_id created) /\
  sent out.2.2 = sent st.2 ++ [searchRequest folderName parentId token;
                               createRequest folderName parentId token] /\
  out.2.1 = st.1.
Proof.
  intros Hnet Hok Hjson Hfound Hnet2 Hok2 Hjson2 out. subst out.
  destruct st as [this s]. cbn [fst snd] in *.
  unfold getOrCreateFolder, Async.bind, fetch.
  fold (searchRequest folderName parentId token).
  fold (createRequest folderName parentId token).
  rewrite Hnet, Hok. cbn [negb]. unfold json. rewrite Hjson. cbn.
  rewrite Hfound. cbn. rewrite Hnet2, Hok2. cbn. rewrite Hjson2. cbn.
  by rewrite <- app_assoc.
Qed.

End Folders.

Section FolderExamples.

Import GoogleDriveUploader.

Lemma existing_folder_is_not_created_again_witness :
  getOrCreateFolder Scenario.friendlyNet "Project" (Some "root-folder")
    "token-1" Scenario.drive
  = (Returns (Some "folder-1"),
     (Scenario.drive.1,
      afterSending (searchRequest "Project" (Some "root-folder") "token-1")
        Scenario.drive.2)).
Proof.
  apply (existing_folder_is_not_created_again Scenario.friendlyNet
           "Project" (Some "root-folder") "token-1" Scenario.drive
           Scenario.okResponse (Some "folder-1") []); reflexivity.
Defined.

Lemma absent_folder_is_created_once_witness :
  let out := getOrCreateFolder Sample.emptyDriveNet "Project"
               (Some "root-folder") "token-1" Scenario.drive in
  out.1 = Returns (file_id Scenario.okResponse) /\
  sent out.2.2
  = sent Scenario.drive.2
    ++ [searchRequest "Project" (Some "root-folder") "token-1";
        createRequest "Project" (Some "root-folder") "token-1"] /\
  out.2.1 = Scenario.drive.1.
Proof.
  apply (absent_folder_is_created_once Sample.emptyDriveNet
           "Project" (Some "root-folder") "token-1" Scenario.drive
           (match Sample.emptyDriveNet []
                    (searchRequest "Project" (Some "root-folder") "token-1") with
            | Returns resp => resp | Throws _ => Scenario.okResponse end)
           Scenario.okResponse); reflexivity.
Defined.

End FolderExamples.

(** ** Delivery (uploader.ts) *)

Section Delivery.

Import Uploader.

Context {lowercase : Js.Lowercase}.

Variable net : Net.
Variable env : UploadEnv.
Variable config : Config.

Lemma attachments_recorded dataDir w shots :
  Forall (λ shot, exists name, slashFree name /\ name <> "" /\
                    filePath shot = Js.join3 dataDir "screenshots" name) shots ->
  attachments shots dataDir w = omap (attachedAsRecorded w) shots.
Proof.
  intros Hall. unfold attachments. apply omap_pointwise.
  eapply Forall_impl; [exact Hall|].
  intros shot (name & Hfree & Hne & Hpath). unfold attachedAsRecorded. cbv zeta.
  by rewrite Hpath, (basename_join3 _ _ _ Hfree Hne).
Qed.

(** X20. the direct upload attaches the files under the paths the records
    hold. For the records a recorder has appended to an array that was
    empty, under the recorder's own data directory, [uploadToApi] looks
    each image up exactly where [capture] wrote it: a record is attached,
    under its file name, when its image is still on disk, and left out
    when it is not. *)
Theorem direct_upload_attaches_recorded_files os r w w' :
  arrays w !! Recorder.screenshots r = Some [] ->
  let s' := applyOps os (r, w) in
  attachments (readArray (Recorder.screenshots s'.1) s'.2)
    (dataDir (Recorder.options r)) w'
  = omap (attachedAsRecorded w')
      (readArray (Recorder.screenshots s'.1) s'.2).
Proof.
  intros Hl s'. subst s'.
  destruct (applyOps_array os r w [] Hl) as [Hs Ha].
  unfold readArray. rewrite Hs, Ha. simpl.
  apply attachments_recorded.
  apply Forall_forall. intros shot Hin.
  apply list_elem_of_omap in Hin as (o & _ & Ho).
  destruct o as [a ti e| | | |]; simpl in Ho; try done.
  destruct (suppressed r a); [done|]. destruct (io e); try done.
  injection Ho as <-. exists (Recorder.filenameOf (t_stamp e)).
  split; [apply filenameOf_slashFree|]. split; [apply filenameOf_nonempty|done].
Qed.

(** X22. nothing is sent when the archive cannot be built. If
    [createZipArchive] rejects, the answer is a failure that carries the
    error and no request has been made: neither the storage service nor
    the metadata endpoint is contacted. The screenshot arrays and the
    timers are as they were. *)
Theorem failed_archive_sends_nothing gd metadata dataDir s err :
  createZipArchive env = Throws err ->
  let out := uploadToGoogleDrive net env config gd metadata dataDir s in
  out.1 = Returns {| success := false;
                     message := "アップロード失敗: " +:+ err |} /\
  sent out.2 = sent s /\
  arrays (world out.2) = arrays (world s) /\
  timers (world out.2) = timers (world s).
Proof.
  intros Hzip out. subst out.
  unfold uploadToGoogleDrive, Async.try, Async.bind, Async.await, consoleLog,
    Async.modify.
  rewrite Hzip. simpl. done.
Qed.

(** X23. the metadata notice decides nothing, the removal of the archive
    does. Once the archive is built and the transfer has settled: if the
    temporary archive is removed without error, the answer is the success
    of the transfer, whatever the metadata endpoint replies or throws, and
    the metadata goes out, as one request after those of the transfer,
    only when the transfer succeeded. If the removal throws, the answer is
    a failure carrying that error and no metadata is sent, even when the
    transfer had succeeded. *)
Theorem drive_answer_is_the_transfer_result gd metadata dataDir s size result :
  createZipArchive env = Returns size ->
  (transferOf net env config gd size s).1 = Returns result ->
  let out := uploadToGoogleDrive net env config gd metadata dataDir s in
  let transfer := transferOf net env config gd size s in
  (removeZipArchive env = Returns tt ->
     (exists text,
        out.1 = Returns {| success := GoogleDriveUploader.success result;
                           message := text |}) /\
     (GoogleDriveUploader.success result = false ->
        sent out.2 = sent transfer.2) /\
     (GoogleDriveUploader.success result = true ->
        exists q, sent out.2 = sent transfer.2 ++ [q] /\
                  url q = api_url config +:+ "/api/recorder/metadata")) /\
  (forall err, removeZipArchive env = Throws err ->
     out.1 = Returns {| success := false;
                        message := "アップロード失敗: " +:+ err |} /\
     sent out.2 = sent transfer.2).
Proof.
  intros Hzip Hres out transfer. subst out transfer.
  unfold transferOf in *. unfold uploadToGoogleDrive.
  rewrite Hzip.
  cbv beta iota zeta delta [Async.try Async.bind Async.await consoleLog
                            Async.modify Async.ret Async.throw fst snd].
  fold (driveOf gd). fold (archiveName env).
  destruct (withUploader _ _ _) as [o s1]. simpl in Hres. subst o.
  split.
  - intros ->.
    destruct (GoogleDriveUploader.success result) eqn:Hs.
    + unfold sendMetadataToApi, Async.try, Async.bind, fetch, Async.ret.
      destruct (net _ _); simpl.
      * repeat apply conj; [by eexists|done|]. intros _. by eexists.
      * repeat apply conj; [by eexists|done|]. intros _. by eexists.
    + simpl. repeat apply conj; [by eexists|done|done].
  - intros err ->. simpl. done.
Qed.

End Delivery.

Section DeliveryExamples.

Import Uploader.

#[local] Existing Instance Scenario.asciiNames.

Lemma direct_upload_attaches_recorded_files_witness :
  let s' := applyOps Scenario.three_cycles
              (Scenario.started.1, Scenario.started.2) in
  attachments (readArray (Recorder.screenshots s'.1) s'.2)
    (dataDir (Recorder.options Scenario.started.1)) s'.2
  = omap (attachedAsRecorded s'.2)
      (readArray (Recorder.screenshots s'.1) s'.2).
Proof.
  apply (direct_upload_attaches_recorded_files Scenario.three_cycles
           Scenario.started.1 Scenario.started.2
           (applyOps Scenario.three_cycles
              (Scenario.started.1, Scenario.started.2)).2).
  vm_compute. reflexivity.
Defined.

Lemma failed_archive_sends_nothing_witness :
  let out := uploadToGoogleDrive Scenario.friendlyNet Sample.brokenArchive
               Scenario.driveConfig Sample.driveOnly [] "/data/recordings"
               Sample.emptySys in
  out.1 = Returns {| success := false;
                     message := "アップロード失敗: "
                                +:+ "Error: ENOSPC: no space left on device" |} /\
  sent out.2 = sent Sample.emptySys /\
  arrays (world out.2) = arrays (world Sample.emptySys) /\
  timers (world out.2) = timers (world Sample.emptySys).
Proof.
  apply (failed_archive_sends_nothing Scenario.friendlyNet Sample.brokenArchive
           Scenario.driveConfig Sample.driveOnly [] "/data/recordings"
           Sample.emptySys "Error: ENOSPC: no space left on device").
  reflexivity.
Defined.

Lemma drive_answer_is_the_transfer_result_witness :
  let env := Sample.stuckArchive in
  let transfer := transferOf Scenario.friendlyNet env
                    Scenario.driveConfig Sample.driveOnly 1000 Sample.emptySys in
  let out := uploadToGoogleDrive Scenario.friendlyNet env
               Scenario.driveConfig Sample.driveOnly [] "/data/recordings"
               Sample.emptySys in
  (removeZipArchive env = Returns tt ->
     (exists text, out.1 = Returns {| success := true; message := text |}) /\
     (true = false -> sent out.2 = sent transfer.2) /\
     (true = true ->
        exists q, sent out.2 = sent transfer.2 ++ [q] /\
                  url q = api_url Scenario.driveConfig
                          +:+ "/api/recorder/metadata")) /\
  (forall err, removeZipArchive env = Throws err ->
     out.1 = Returns {| success := false;
                        message := "アップロード失敗: " +:+ err |} /\
     sent out.2 = sent transfer.2).
Proof.
  apply (drive_answer_is_the_transfer_result Scenario.friendlyNet
           Sample.stuckArchive Scenario.driveConfig Sample.driveOnly []
           "/data/recordings" Sample.emptySys 1000
           {| GoogleDriveUploader.success := true;
              GoogleDriveUploader.fileId := Some "file-1";
              GoogleDriveUploader.webViewLink :=
                Some "https://drive.example/file-1";
              GoogleDriveUploader.error := None |});
    vm_compute; reflexivity.
Defined.

(** A transfer that succeeded and an archive that could not be removed:
    the file is in the storage, the answer is a failure, and the metadata
    endpoint is not told; with the archive removed the same transfer is
    answered with success. *)
Example stuck_archive_reports_failure :
  let stuck := uploadToGoogleDrive Scenario.friendlyNet Sample.stuckArchive
                 Scenario.driveConfig Sample.driveOnly [] "/data/recordings"
                 Sample.emptySys in
  let fine := uploadToGoogleDrive Scenario.friendlyNet Scenario.uploadEnv
                Scenario.driveConfig Sample.driveOnly [] "/data/recordings"
                Sample.emptySys in
  stuck.1 = Returns {| success := false;
                       message := "アップロード失敗: Error: EPERM: operation not permitted" |} /\
  url <$> sent stuck.2
  = [GoogleDriveUploader.TOKEN_URL; GoogleDriveUploader.FILES_URL;
     GoogleDriveUploader.FILES_URL; GoogleDriveUploader.UPLOAD_URL] /\
  success <$> (match fine.1 with Returns a => Some a | Throws _ => None end)
  = Some true /\
  url <$> sent fine.2
  = [GoogleDriveUploader.TOKEN_URL; GoogleDriveUploader.FILES_URL;
     GoogleDriveUploader.FILES_URL; GoogleDriveUploader.UPLOAD_URL;
     "https://api.example/api/recorder/metadata"].
Proof. vm_compute. repeat split. Qed.

End DeliveryExamples.

(** ** Notices, the trigger's threshold and the operator's handlers
    (index.ts) *)

Section Operator.

Import Main.

Variable net : Net.

Implicit Types (a : App) (r : Recorder.t) (env : AutoEnv).

Lemma notifyUserFailure_silent env message a :
  notice_now env - lastFailureNoticeAt a < FAILURE_NOTICE_THROTTLE_MS ->
  notifyUserFailure env message a = a.
Proof.
  intros Hlt. unfold notifyUserFailure.
  by rewrite (proj2 (Z.ltb_lt _ _) Hlt).
Qed.

(** X24. a burst of failures shows one notice. When a failure is reported
    at least the throttle time after the last notice, the user is told
    once, with the message and the support contact; every further failure
    reported less than the throttle time after that one, however many,
    shows nothing. *)
Theorem burst_of_failures_shows_one_notice env0 message0
    (calls : list (AutoEnv * string)) a :
  FAILURE_NOTICE_THROTTLE_MS <= notice_now env0 - lastFailureNoticeAt a ->
  Forall (λ c, notice_now c.1 - notice_now env0 < FAILURE_NOTICE_THROTTLE_MS)
         calls ->
  let a' := foldl (λ b c, notifyUserFailure c.1 c.2 b)
              (notifyUserFailure env0 message0 a) calls in
  notices a'
  = notices a ++ [(if notificationSupported env0 then "AI Check Recorder"
                   else "送信に失敗しました",
                   message0 +:+ LF +:+ getSupportContactMessage a)] /\
  lastFailureNoticeAt a' = notice_now env0.
Proof.
  intros Hfirst Hcalls a'. subst a'.
  set (a1 := notifyUserFailure env0 message0 a).
  assert (Hlast : lastFailureNoticeAt a1 = notice_now env0).
  { subst a1. unfold notifyUserFailure.
    by rewrite (proj2 (Z.ltb_ge _ _) Hfirst). }
  assert (Hsame : foldl (λ b c, notifyUserFailure c.1 c.2 b) a1 calls = a1).
  { clearbody a1. induction Hcalls as [|c calls Hc _ IH]; [done|]. simpl.
    rewrite notifyUserFailure_silent by (by rewrite Hlast). exact IH. }
  rewrite Hsame. split; [|done].
  subst a1. unfold notifyUserFailure.
  by rewrite (proj2 (Z.ltb_ge _ _) Hfirst).
Qed.

(** X25. the trigger waits for fifty screenshots. With a recorder and a
    configuration in place, a run of the trigger gets to an upload exactly
    when the session holds fifty records or more; below that it sends
    nothing, shows nothing, and leaves the system and the session as they
    are. *)
Theorem trigger_waits_for_fifty_screenshots env a r c :
  recorder a = Some r -> config a = Some c ->
  let held := length (readArray (Recorder.screenshots r) (world (sys a))) in
  (uploadOutcome net env a = None <-> (held < 50)%nat) /\
  ((held < 50)%nat ->
     let a' := runAutoUploadCheck net env a in
     sys a' = sys a /\ notices a' = notices a /\
     lastFailureNoticeAt a' = lastFailureNoticeAt a /\
     exists r', recorder a' = Some r' /\ sameSession r r').
Proof.
  intros Hr Hc held.
  assert (Hheld : RecordingStats.totalScreenshots
                    (Recorder.getStats (stats_flush env) (stats_end env) r
                       (world (sys a))).1 = held).
  { unfold Recorder.getStats. simpl.
    by destruct (updateWindowDuration_frame (stats_flush env) r)
      as (_ & _ & _ & _ & -> & _). }
  unfold uploadOutcome, runAutoUploadCheck, beforeUpload.
  rewrite Hr, Hc.
  destruct (Recorder.getStats _ _ r _) as [st r1] eqn:Hstats.
  simpl in Hheld.
  assert (Hr1 : r1 = Recorder.updateWindowDuration (stats_flush env) r).
  { unfold Recorder.getStats in Hstats. by injection Hstats as _ <-. }
  unfold AUTO_UPLOAD_THRESHOLD. rewrite Hheld.
  destruct (held <? 50)%nat eqn:Hlt.
  - apply Nat.ltb_lt in Hlt. split; [done|]. intros _. simpl.
    repeat apply conj; try done.
    exists r1. split; [done|]. subst r1. apply sameSession_flush.
  - apply Nat.ltb_ge in Hlt.
    destruct (Recorder.exportData _ _ r1 _) as [data r2].
    split; [|lia]. split; [done|lia].
Qed.

(** X26. a manual upload never retires the session. Whatever the upload
    does, after the ['upload-data'] handler the current recorder is the
    session it was called on, with the same records, files and timers:
    also after a successful upload, unlike the trigger. The user is shown
    no notice. *)
Theorem manual_upload_keeps_the_session env a r :
  recorder a = Some r ->
  let out := Handlers.uploadData net env a in
  retained r a out.2 /\
  notices out.2 = notices a /\
  lastFailureNoticeAt out.2 = lastFailureNoticeAt a.
Proof.
  intros Hr out. subst out. unfold Handlers.uploadData. rewrite Hr.
  destruct (config a) as [c|] eqn:Hc; simpl.
  2: { split; [|done]. by eapply retained_intro; [| apply sameSession_refl |]. }
  set (r1 := Recorder.updateWindowDuration (export_flush env) r).
  set (a1 := set_recorder (Some r1) a).
  set (data := {| ExportData.stats := _ |}).
  pose proof (upload_keeps_store net (upload_env env) c data (sys a)) as Hup.
  destruct (Uploader.upload net (upload_env env) c data (sys a))
    as [outcome s2].
  change (storeKept (sys a) s2) in Hup.
  assert (Hbase : forall source error n,
            let a3 := notifyUploadFailure net env source error n (set_sys s2 a1) in
            retained r a a3 /\ notices a3 = notices a /\
            lastFailureNoticeAt a3 = lastFailureNoticeAt a).
  { intros source error n a3. subst a3.
    destruct (notifyUploadFailure_frame net env source error n (set_sys s2 a1))
      as [Hrec Hk].
    split.
    - eapply retained_intro; [by rewrite Hrec | apply sameSession_flush |].
      etransitivity; [exact Hup | exact Hk].
    - unfold notifyUploadFailure. simpl. rewrite Hc.
      by destruct (net _ _). }
  destruct outcome as [answer|err]; [destruct (Uploader.success answer)|].
  - simpl. split; [|done].
    eapply retained_intro; [done | apply sameSession_flush | exact Hup].
  - apply Hbase.
  - apply Hbase.
Qed.

(** X27. a remote stop order is carried out only when the final upload
    resolves. If the final upload throws, the order is dropped: the
    application does not exit, the session goes on as it was, and the
    user is told nothing. If it resolves, with whatever answer, the
    recorder is stopped with its records and files in place, and the
    application exits. *)
Theorem remote_stop_needs_the_upload_to_resolve env message a r :
  recorder a = Some r ->
  let out := Handlers.stopOrdered net env message a in
  match Handlers.finalOutcome net env message a with
  | Some (Throws _) =>
      out.2 = false /\ retained r a out.1 /\ notices out.1 = notices a
  | Some (Returns _) => out.2 = true /\ Handlers.stopped r a out.1
  | None => out = (a, false)
  end.
Proof.
  intros Hr out. subst out.
  unfold Handlers.finalOutcome, Handlers.stopOrdered.
  destruct (config a) as [c|] eqn:Hc; [|done].
  unfold Handlers.finalUpload. simpl. rewrite Hr.
  set (r1 := Recorder.updateWindowDuration (export_flush env) r).
  set (a0 := appLog _ a).
  set (a1 := set_recorder (Some r1) a0).
  set (data := {| ExportData.stats := _ |}).
  set (s0 := sysLog _ (sys a)).
  pose proof (upload_keeps_store net (upload_env env) c data s0) as Hup.
  destruct (Uploader.upload net (upload_env env) c data s0) as [outcome s2].
  change (storeKept s0 s2) in Hup.
  assert (Hlog : storeKept (sys a) s0) by apply storeKept_log.
  destruct outcome as [answer|err]; simpl.
  - pose proof (sameSession_flush (export_flush env) r) as Hsame.
    fold r1 in Hsame. destruct Hsame as (Hs & _ & _ & Ht & _).
    destruct Hup as (Ha & Hf & Htm & _), Hlog as (Ha0 & Hf0 & Htm0 & _).
    pose proof (stop_session (stop_now env) r1 (world s2)) as Hstop.
    destruct (Recorder.stop (stop_now env) r1 (world s2)) as [r2 w2].
    simpl in Hstop. destruct Hstop as (H1 & H2 & H3 & H4 & H5 & H6).
    split; [done|]. exists r2. simpl.
    rewrite H1, H4, H5, H6, Hs, Ht, Ha, Hf, Htm, Ha0, Hf0, Htm0.
    by repeat apply conj.
  - split; [done|]. split; [|done].
    eapply retained_intro; [done | apply sameSession_flush |].
    etransitivity; [exact Hlog|]. etransitivity; [exact Hup|].
    apply storeKept_log.
Qed.

End Operator.

Section OperatorExamples.

Import Main.

(** The support contact is shown without the white space around it; a
    contact of white space only, like a missing one, gives the default
    line. *)
Example support_contact_is_trimmed :
  getSupportContactMessage (Sample.withContact ("  Tanaka 090 " +:+ LF))
  = "担当者: Tanaka 090" /\
  getSupportContactMessage (Sample.withContact "　Tanaka　") = "担当者: Tanaka" /\
  getSupportContactMessage (Sample.withContact ("   " +:+ LF))
  = "担当者にご連絡ください。" /\
  getSupportContactMessage Scenario.full_app = "担当者にご連絡ください。".
Proof. vm_compute. auto. Qed.

Lemma burst_of_failures_shows_one_notice_witness :
  let calls := [(Sample.noticeAt 3100000, "second");
                (Sample.noticeAt 4700000, "third")] in
  let a' := foldl (λ b c, notifyUserFailure c.1 c.2 b)
              (notifyUserFailure (Sample.noticeAt 3000000) "first"
                 Scenario.full_app) calls in
  notices a'
  = notices Scenario.full_app
    ++ [(if notificationSupported (Sample.noticeAt 3000000)
         then "AI Check Recorder" else "送信に失敗しました",
         "first" +:+ LF +:+ getSupportContactMessage Scenario.full_app)] /\
  lastFailureNoticeAt a' = notice_now (Sample.noticeAt 3000000).
Proof.
  apply (burst_of_failures_shows_one_notice (Sample.noticeAt 3000000) "first"
           [(Sample.noticeAt 3100000, "second");
            (Sample.noticeAt 4700000, "third")] Scenario.full_app).
  - unfold FAILURE_NOTICE_THROTTLE_MS. simpl. lia.
  - repeat constructor; unfold FAILURE_NOTICE_THROTTLE_MS; simpl; lia.
Defined.

Lemma trigger_waits_for_fifty_screenshots_witness :
  let held := length (readArray (Recorder.screenshots Scenario.started.1)
                        (world (sys Sample.young_app))) in
  (uploadOutcome Scenario.deadNet Scenario.autoEnv Sample.young_app = None
   <-> (held < 50)%nat) /\
  ((held < 50)%nat ->
     let a' := runAutoUploadCheck Scenario.deadNet Scenario.autoEnv
                 Sample.young_app in
     sys a' = sys Sample.young_app /\ notices a' = notices Sample.young_app /\
     lastFailureNoticeAt a' = lastFailureNoticeAt Sample.young_app /\
     exists r', recorder a' = Some r' /\ sameSession Scenario.started.1 r').
Proof.
  apply (trigger_waits_for_fifty_screenshots Scenario.deadNet Scenario.autoEnv
           Sample.young_app Scenario.started.1 Scenario.apiConfig);
    reflexivity.
Defined.

Lemma manual_upload_keeps_the_session_witness :
  let out := Handlers.uploadData Scenario.friendlyNet Scenario.autoEnv
               Scenario.full_app in
  retained Scenario.full_session.1 Scenario.full_app out.2 /\
  notices out.2 = notices Scenario.full_app /\
  lastFailureNoticeAt out.2 = lastFailureNoticeAt Scenario.full_app.
Proof.
  apply (manual_upload_keeps_the_session Scenario.friendlyNet Scenario.autoEnv
           Scenario.full_app Scenario.full_session.1).
  reflexivity.
Defined.

Lemma remote_stop_needs_the_upload_to_resolve_witness :
  let out := Handlers.stopOrdered Scenario.deadNet Scenario.autoEnv None
               Scenario.full_app in
  match Handlers.finalOutcome Scenario.deadNet Scenario.autoEnv None
          Scenario.full_app with
  | Some (Throws _) =>
      out.2 = false /\ retained Scenario.full_session.1 Scenario.full_app out.1
      /\ notices out.1 = notices Scenario.full_app
  | Some (Returns _) =>
      out.2 = true /\
      Handlers.stopped Scenario.full_session.1 Scenario.full_app out.1
  | None => out = (Scenario.full_app, false)
  end.
Proof.
  apply (remote_stop_needs_the_upload_to_resolve Scenario.deadNet
           Scenario.autoEnv None Scenario.full_app Scenario.full_session.1).
  reflexivity.
Defined.

(** The two ways a stop order ends for a session of fifty screenshots and
    no storage credentials: with the network down the order is dropped,
    with the network up the recorder is stopped and the application
    exits. *)
Example stop_order_network_down :
  let out := Handlers.stopOrdered Scenario.deadNet Scenario.autoEnv None
               Scenario.full_app in
  out.2 = false /\
  (Recorder.recording <$> recorder out.1) = Some true /\
  notices out.1 = [].
Proof. vm_compute. repeat split. Qed.

Example stop_order_network_up :
  let out := Handlers.stopOrdered Scenario.friendlyNet Scenario.autoEnv None
               Scenario.full_app in
  out.2 = true /\
  (Recorder.recording <$> recorder out.1) = Some false /\
  timers (world (sys out.1)) = ∅ /\
  length (readArray (Recorder.screenshots Scenario.full_session.1)
            (world (sys out.1))) = 50%nat.
Proof. vm_compute. repeat split. Qed.

End OperatorExamples.
